(** * KVTuner: the flexible quantized key/value cache

    A shallow embedding of [flexible_quant/flexible_quantized_cache.py]
    (classes [FlexibleQuantizedCacheConfig], [FlexibleQuantizedCache] and
    [FlexibleQuantoQuantizedCache]) and the properties of its
    residual/quantized storage policy.

    Tensors are followed along their sequence dimension (dim -2), the only
    dimension the cache slices and concatenates: a tensor is the list of
    its sequence positions, and a position of a [batch, heads, seq,
    head_dim] block holds one slab per head.  The quantization backend is a
    parameter: [_quantize] and [_dequantize] are abstract in
    [FlexibleQuantizedCache] and supplied by its subclasses. *)

From Stdlib Require Import Ascii.
From stdpp Require Import base numbers option list gmap strings.

(** ** Exceptions

    The source raises [ValueError] with distinct messages; the constructors
    follow the taxonomy of the design document. *)
Inductive exn : Type :=
| SequentialAccessError
    (* ValueError: QuantizedCache does not support model usage where
       layers are skipped *)
| ConfigError
    (* ValueError: Number of heads in the model does not match ... /
       `nbits`, `axis_key`, `axis_value` ... has to be one of ... *)
| AssertionError
| KeyError
| IndexError
| TypeError
| RuntimeError.

(** ** Configuration *)

(** One entry of [per_layer_config] or of a head table of
    [per_head_config]: the dict [{'nbits_key': _, 'nbits_value': _}]. *)
Record bits : Type := Bits { cfg_nbits_key : Z; cfg_nbits_value : Z }.

Inductive backend_name : Type := quanto | hqq | vanilla.

(** The attributes [FlexibleQuantizedCache.__init__] copies from the
    configuration.  [per_head_config] maps a layer to its head table, kept
    as the list of its items in dict order since [update] iterates it. *)
Record cache_config : Type := CacheConfig {
  backend : backend_name;
  nbits : Z;
  nbits_key : Z;
  nbits_value : Z;
  axis_key : Z;
  axis_value : Z;
  asym : bool;
  q_group_size : Z;
  residual_length : Z;
  force_quant : bool;
  per_layer_quant : bool;
  per_layer_config : gmap nat bits;
  per_head_quant : bool;
  per_head_config : gmap nat (list (nat * bits))
}.

(** [FlexibleQuantizedCacheConfig.__init__].  The [*_config_path]
    arguments stand for the parsed content of the YAML file they name. *)
Definition FlexibleQuantizedCacheConfig
    (backend : backend_name) (nbits nbits_key nbits_value : Z)
    (axis_key axis_value : Z) (asym : bool) (q_group_size residual_length : Z)
    (force_quant : bool)
    (per_layer_quant : bool)
    (per_layer_config per_layer_config_path : option (gmap nat bits))
    (per_head_quant : bool)
    (per_head_config per_head_config_path : option (gmap nat (list (nat * bits))))
  : exn + cache_config :=
  let nbits_key := if (nbits_key =? 0)%Z then nbits else nbits_key in
  let nbits_value := if (nbits_value =? 0)%Z then nbits else nbits_value in
  if per_head_quant && per_layer_quant then inl ConfigError else
  match (if per_layer_quant
         then match per_layer_config with
              | Some m => Some m
              | None => per_layer_config_path
              end
         else Some ∅) with
  | None => inl ConfigError
  | Some plc =>
    match (if per_head_quant
           then match per_head_config with
                | Some m => Some m
                | None => per_head_config_path
                end
           else Some ∅) with
    | None => inl ConfigError
    | Some phc =>
      inr (CacheConfig backend nbits nbits_key nbits_value axis_key axis_value
             asym q_group_size residual_length force_quant
             per_layer_quant plc per_head_quant phc)
    end
  end.

(** ** Backend A: [FlexibleQuantoQuantizedCache] *)

Inductive qtype : Type := qint2 | qint4 | qint8.

(** [FlexibleQuantoQuantizedCache.__init__]: the checks made after the
    base-class constructor. *)
Definition FlexibleQuantoQuantizedCache_init (cfg : cache_config) : exn + unit :=
  if negb (bool_decide (nbits cfg ∈ [2; 4; 8]%Z)) then inl ConfigError
  else if negb (bool_decide (axis_key cfg ∈ [0; -1]%Z)) then inl ConfigError
  else if negb (bool_decide (axis_value cfg ∈ [0; -1]%Z)) then inl ConfigError
  else inr ().

(** [FlexibleQuantoQuantizedCache.get_qtype]: falls off the end of the
    [if]/[elif] chain, returning [None], for any other bit width. *)
Definition get_qtype (nbits : Z) : option qtype :=
  if (nbits =? 2)%Z then Some qint2
  else if (nbits =? 4)%Z then Some qint4
  else if (nbits =? 8)%Z then Some qint8
  else None.

(** ** Tensors along the sequence dimension *)

(** Python slice bound: a negative index counts from the end. *)
Definition slice_index (i : Z) (n : nat) : nat :=
  Z.to_nat (if (i <? 0)%Z then i + Z.of_nat n else i)%Z.

(** [t[..., :stop, :]] and [t[..., start:, :]]. *)
Definition slice_to {A} (stop : Z) (t : list A) : list A :=
  take (slice_index stop (length t)) t.
Definition slice_from {A} (start : Z) (t : list A) : list A :=
  drop (slice_index start (length t)) t.

(** One slot of [key_cache] / [_quantized_key_cache]: a single tensor in
    per-layer mode, a list with one tensor per head in per-head mode. *)
Inductive slot (A : Type) : Type :=
| Layer (x : A)
| Heads (xs : list A).
Arguments Layer {A} x.
Arguments Heads {A} xs.

Section Cache.
Context {pos blob : Type}.

(** The slabs, one per head, at one sequence position. *)
Definition row : Type := list pos.
Definition tensor : Type := list row.

(** A [batch, heads, seq, head_dim] block handed to [update].  A head
    slice [key_states[head_idx]] of rank 3 is kept as a tensor whose
    rows have a single slab. *)
Record block : Type := Block { b_heads : nat; b_rows : tensor }.

(** [t.shape[-2]] *)
Definition shape_m2 (t : tensor) : Z := Z.of_nat (length t).

(** What [key_cache] holds: [torch.zeros(0)], of rank 1, or a tensor cut
    from or built with [key_states] (rank 4, rank 3 for a head). *)
Inductive residual : Type :=
| Placeholder
| Arr (t : tensor).

(** [r.dim() == 4] in per-layer mode, [r.dim() == 3] for a head. *)
Definition is_array (r : residual) : bool :=
  match r with Placeholder => false | Arr _ => true end.

(** The positions [torch.cat] takes from a residual: it skips the empty
    rank-1 tensor. *)
Definition res_rows (r : residual) : tensor :=
  match r with Placeholder => [] | Arr t => t end.

Record cache : Type := Cache {
  _seen_tokens : Z;
  key_cache : list (slot residual);
  value_cache : list (slot residual);
  _quantized_key_cache : list (slot blob);
  _quantized_value_cache : list (slot blob)
}.

(** [DynamicCache.__init__] *)
Definition empty_cache : cache := Cache 0 [] [] [] [].

(** The two tiers of one layer (or one head): the entries of the four
    parallel lists at one index. *)
Record stored : Type := Stored {
  s_qk : blob;      (* _quantized_key_cache[layer_idx] *)
  s_qv : blob;      (* _quantized_value_cache[layer_idx] *)
  s_k : residual;   (* key_cache[layer_idx] *)
  s_v : residual    (* value_cache[layer_idx] *)
}.

(** *** State and exceptions

    [update] mutates the cache and may raise after having done so: a
    computation returns the cache it leaves behind with either the
    exception or the value. *)
Definition M (A : Type) : Type := cache → cache * (exn + A).

Definition ret {A} (a : A) : M A := λ c, (c, inr a).
Definition raise {A} (e : exn) : M A := λ c, (c, inl e).
Definition bind {A B} (m : M A) (k : A → M B) : M B :=
  λ c, match m c with
       | (c', inl e) => (c', inl e)
       | (c', inr a) => k a c'
       end.
Definition get : M cache := λ c, (c, inr c).
Definition modify (f : cache → cache) : M unit := λ c, (f c, inr ()).
Definition lift {A} (e : exn) (o : option A) : M A :=
  match o with Some a => ret a | None => raise e end.

Notation "'let*' x ':=' m 'in' k" := (bind m (λ x, k))
  (at level 10, x pattern, m at level 100, k at level 200, only parsing).

(** *** Mutators of the four lists *)

Definition add_seen_tokens (n : Z) (c : cache) : cache :=
  Cache (_seen_tokens c + n) (key_cache c) (value_cache c)
        (_quantized_key_cache c) (_quantized_value_cache c).

(** lines 165-166: [if layer_idx == 0: self._seen_tokens += key_states.shape[-2]] *)
Definition count_tokens (key_states : block) (layer_idx : nat) (c : cache) : cache :=
  if (layer_idx =? 0)%nat then add_seen_tokens (shape_m2 (b_rows key_states)) c else c.

(** the four [append] calls of a first per-layer update; the calls of
    [_quantize] the source makes between them return (see [quantize]
    below), so the four go together *)
Definition push_layer (s : stored) (c : cache) : cache :=
  Cache (_seen_tokens c)
        (key_cache c ++ [Layer (s_k s)]) (value_cache c ++ [Layer (s_v s)])
        (_quantized_key_cache c ++ [Layer (s_qk s)])
        (_quantized_value_cache c ++ [Layer (s_qv s)]).

(** the four item assignments of a later per-layer update, the calls of
    [_quantize] between them returning *)
Definition write_layer (layer_idx : nat) (s : stored) (c : cache) : cache :=
  Cache (_seen_tokens c)
        (<[layer_idx := Layer (s_k s)]> (key_cache c))
        (<[layer_idx := Layer (s_v s)]> (value_cache c))
        (<[layer_idx := Layer (s_qk s)]> (_quantized_key_cache c))
        (<[layer_idx := Layer (s_qv s)]> (_quantized_value_cache c)).

(** [self.X.append([])] for the four lists *)
Definition push_empty_heads (c : cache) : cache :=
  Cache (_seen_tokens c)
        (key_cache c ++ [Heads []]) (value_cache c ++ [Heads []])
        (_quantized_key_cache c ++ [Heads []])
        (_quantized_value_cache c ++ [Heads []]).

Definition slot_append {A} (x : A) (s : slot A) : slot A :=
  match s with Heads xs => Heads (xs ++ [x]) | Layer y => Layer y end.
Definition slot_set {A} (head_idx : nat) (x : A) (s : slot A) : slot A :=
  match s with Heads xs => Heads (<[head_idx := x]> xs) | Layer y => Layer y end.

(** [self.X[layer_idx].append(_)] for the four lists *)
Definition push_head (layer_idx : nat) (s : stored) (c : cache) : cache :=
  Cache (_seen_tokens c)
        (alter (slot_append (s_k s)) layer_idx (key_cache c))
        (alter (slot_append (s_v s)) layer_idx (value_cache c))
        (alter (slot_append (s_qk s)) layer_idx (_quantized_key_cache c))
        (alter (slot_append (s_qv s)) layer_idx (_quantized_value_cache c)).

(** [self.X[layer_idx][head_idx] = _] for the four lists *)
Definition write_head (layer_idx head_idx : nat) (s : stored) (c : cache) : cache :=
  Cache (_seen_tokens c)
        (alter (slot_set head_idx (s_k s)) layer_idx (key_cache c))
        (alter (slot_set head_idx (s_v s)) layer_idx (value_cache c))
        (alter (slot_set head_idx (s_qk s)) layer_idx (_quantized_key_cache c))
        (alter (slot_set head_idx (s_qv s)) layer_idx (_quantized_value_cache c)).

Definition layer_of {A} (o : option (slot A)) : exn + A :=
  match o with
  | Some (Layer x) => inr x
  | Some (Heads _) => inl TypeError
  | None => inl IndexError
  end.

Definition head_of {A} (head_idx : nat) (o : option (slot A)) : exn + A :=
  match o with
  | Some (Heads xs) =>
      match xs !! head_idx with Some x => inr x | None => inl IndexError end
  | Some (Layer _) => inl TypeError
  | None => inl IndexError
  end.

Definition lift_exn {A} (r : exn + A) : M A :=
  match r with inl e => raise e | inr a => ret a end.

(** the reads [self.X[layer_idx]] of a later per-layer update *)
Definition read_layer (layer_idx : nat) : M stored :=
  let* c := get in
  let* qk := lift_exn (layer_of (_quantized_key_cache c !! layer_idx)) in
  let* qv := lift_exn (layer_of (_quantized_value_cache c !! layer_idx)) in
  let* k := lift_exn (layer_of (key_cache c !! layer_idx)) in
  let* v := lift_exn (layer_of (value_cache c !! layer_idx)) in
  ret (Stored qk qv k v).

(** the reads [self.X[layer_idx][head_idx]] of a later per-head update *)
Definition read_head (layer_idx head_idx : nat) : M stored :=
  let* c := get in
  let* qk := lift_exn (head_of head_idx (_quantized_key_cache c !! layer_idx)) in
  let* qv := lift_exn (head_of head_idx (_quantized_value_cache c !! layer_idx)) in
  let* k := lift_exn (head_of head_idx (key_cache c !! layer_idx)) in
  let* v := lift_exn (head_of head_idx (value_cache c !! layer_idx)) in
  ret (Stored qk qv k v).

(** [key_states[head_idx]] once [key_states] is transposed to put heads
    first.  A block is well formed when each row has [b_heads] slabs. *)
Definition head_slice (head_idx : nat) (b : block) : option tensor :=
  if decide (head_idx < b_heads b)
  then mapM (λ r : row, (λ p, [p]) <$> r !! head_idx) (b_rows b)
  else None.

(** [torch.stack(ts).transpose(0, 1)]: the heads side by side again, at
    each position.  It raises on an empty list and on unequal lengths. *)
Fixpoint stack (ts : list tensor) : option tensor :=
  match ts with
  | [] => None
  | t :: ts' =>
      match ts' with
      | [] => Some t
      | _ :: _ =>
          match stack ts' with
          | Some u =>
              if decide (length t = length u) then Some (zip_with app t u) else None
          | None => None
          end
      end
  end.

(** *** The cache engine *)

(** [self._quantize(tensor, axis, nbits)] and [self._dequantize(q)] of the
    backend, and the attributes of [self] set by [__init__].  The two
    methods are taken to return: they are functions here, and a call of
    [update] during which one of them raises is not described. *)
Variable quantize : tensor → Z → Z → blob.
Variable dequantize : blob → tensor.
Variable self : cache_config.

(** The first update of a layer (lines 174-197) or of a head (lines
    232-252): what is stored and what is returned.  With [force_quant] the
    source reads the tiers back from the lists, at [layer_idx] (at [-1]
    for a head), to build what it returns: they are the ones just
    appended, the four lists having the same length. *)
Definition first_append (key_states value_states : tensor)
    (nbits_key nbits_value : Z) : stored * (tensor * tensor) :=
  if force_quant self then
    if negb (residual_length self =? 0)%Z then
      let tokens_to_keep := (shape_m2 key_states `mod` residual_length self)%Z in
      let qk := quantize (slice_to (- tokens_to_keep) key_states)
                  (axis_key self) nbits_key in
      let qv := quantize (slice_to (- tokens_to_keep) value_states)
                  (axis_value self) nbits_value in
      let k := Arr (slice_from (- tokens_to_keep) key_states) in
      let v := Arr (slice_from (- tokens_to_keep) value_states) in
      (Stored qk qv k v,
       (dequantize qk ++ res_rows k, dequantize qv ++ res_rows v))
    else
      let qk := quantize key_states (axis_key self) nbits_key in
      let qv := quantize value_states (axis_value self) nbits_value in
      (Stored qk qv Placeholder Placeholder,
       (dequantize qk ++ res_rows Placeholder, dequantize qv ++ res_rows Placeholder))
  else
    (Stored (quantize key_states (axis_key self) nbits_key)
            (quantize value_states (axis_value self) nbits_value)
            Placeholder Placeholder,
     (key_states, value_states)).

(** The condition of lines 206-209 (259-262 for a head). *)
Definition merge_due (k : residual) : bool :=
  is_array k && (shape_m2 (res_rows k) + 1 >=? residual_length self)%Z.

(** A later update of a layer (lines 199-218). *)
Definition later_append (s : stored) (key_states value_states : tensor)
    (nbits_key nbits_value : Z) : stored * (tensor * tensor) :=
  let dequant_key := dequantize (s_qk s) in
  let dequant_value := dequantize (s_qv s) in
  let keys_to_return := dequant_key ++ res_rows (s_k s) ++ key_states in
  let values_to_return := dequant_value ++ res_rows (s_v s) ++ value_states in
  if merge_due (s_k s) then
    (Stored (quantize keys_to_return (axis_key self) nbits_key)
            (quantize values_to_return (axis_value self) nbits_value)
            Placeholder Placeholder,
     (keys_to_return, values_to_return))
  else
    (Stored (s_qk s) (s_qv s)
            (Arr (res_rows (s_k s) ++ key_states))
            (Arr (res_rows (s_v s) ++ value_states)),
     (keys_to_return, values_to_return)).

(** The loop of lines 231-252 over the items of the head table. *)
Fixpoint first_heads (key_states value_states : block) (layer_idx : nat)
    (items : list (nat * bits)) (keys_to_return values_to_return : list tensor)
  : M (list tensor * list tensor) :=
  match items with
  | [] => ret (keys_to_return, values_to_return)
  | (head_idx, config) :: items' =>
      let* kh := lift IndexError (head_slice head_idx key_states) in
      let* vh := lift IndexError (head_slice head_idx value_states) in
      let '(s, (k, v)) :=
        first_append kh vh (cfg_nbits_key config) (cfg_nbits_value config) in
      let* _ := modify (push_head layer_idx s) in
      first_heads key_states value_states layer_idx items'
        (keys_to_return ++ [k]) (values_to_return ++ [v])
  end.

(** The loop of lines 254-269.  A merge quantizes
    [keys_to_return[head_idx]], the list being indexed by the head's key. *)
Fixpoint later_heads (key_states value_states : block) (layer_idx : nat)
    (items : list (nat * bits)) (keys_to_return values_to_return : list tensor)
  : M (list tensor * list tensor) :=
  match items with
  | [] => ret (keys_to_return, values_to_return)
  | (head_idx, config) :: items' =>
      let* s := read_head layer_idx head_idx in
      let* kh := lift IndexError (head_slice head_idx key_states) in
      let* vh := lift IndexError (head_slice head_idx value_states) in
      let keys_to_return :=
        keys_to_return ++ [dequantize (s_qk s) ++ res_rows (s_k s) ++ kh] in
      let values_to_return :=
        values_to_return ++ [dequantize (s_qv s) ++ res_rows (s_v s) ++ vh] in
      let* s' :=
        if merge_due (s_k s) then
          let* k := lift IndexError (keys_to_return !! head_idx) in
          let* v := lift IndexError (values_to_return !! head_idx) in
          ret (Stored (quantize k (axis_key self) (cfg_nbits_key config))
                      (quantize v (axis_value self) (cfg_nbits_value config))
                      Placeholder Placeholder)
        else
          ret (Stored (s_qk s) (s_qv s)
                      (Arr (res_rows (s_k s) ++ kh))
                      (Arr (res_rows (s_v s) ++ vh))) in
      let* _ := modify (write_head layer_idx head_idx s') in
      later_heads key_states value_states layer_idx items'
        keys_to_return values_to_return
  end.

(** [FlexibleQuantizedCache.update].  Layer indices are natural numbers. *)
Definition update (key_states value_states : block) (layer_idx : nat)
  : M (tensor * tensor) :=
  let* _ := modify (count_tokens key_states layer_idx) in
  let* c := get in
  if (length (key_cache c) <? layer_idx)%nat then raise SequentialAccessError else
  if negb (per_head_quant self) then
    let* nb := (if negb (per_layer_quant self)
                then ret (Bits (nbits_key self) (nbits_value self))
                else lift KeyError (per_layer_config self !! layer_idx)) in
    if (length (key_cache c) =? layer_idx)%nat then
      let '(s, out) :=
        first_append (b_rows key_states) (b_rows value_states)
                     (cfg_nbits_key nb) (cfg_nbits_value nb) in
      let* _ := modify (push_layer s) in
      ret out
    else
      let* s := read_layer layer_idx in
      let '(s', out) :=
        later_append s (b_rows key_states) (b_rows value_states)
                     (cfg_nbits_key nb) (cfg_nbits_value nb) in
      let* _ := modify (write_layer layer_idx s') in
      ret out
  else
    if negb (b_heads key_states =? b_heads value_states)%nat
    then raise AssertionError else
    let* table := lift KeyError (per_head_config self !! layer_idx) in
    if negb (b_heads key_states =? length table)%nat then raise ConfigError else
    let* (keys_to_return, values_to_return) :=
      (if (length (key_cache c) =? layer_idx)%nat then
         let* _ := modify push_empty_heads in
         first_heads key_states value_states layer_idx table [] []
       else
         later_heads key_states value_states layer_idx table [] []) in
    let* k := lift RuntimeError (stack keys_to_return) in
    let* v := lift RuntimeError (stack values_to_return) in
    ret (k, v).

(** [FlexibleQuantizedCache.get_seq_length] *)
Definition get_seq_length (c : cache) (layer_idx : nat) : Z :=
  if (length (key_cache c) <=? layer_idx)%nat then 0%Z
  else if (layer_idx =? 0)%nat then _seen_tokens c
  else (_seen_tokens c - 1)%Z.

(** *** Sequences of calls *)

Record call : Type := Call { c_keys : block; c_values : block; c_layer : nat }.

Definition outcome : Type := exn + (tensor * tensor).

Definition succeeded (r : outcome) : bool :=
  match r with inr _ => true | inl _ => false end.

(** The calls made one after the other, an exception being caught by the
    caller: the cache left behind and what each call gave. *)
Fixpoint run (calls : list call) (c : cache) : cache * list outcome :=
  match calls with
  | [] => (c, [])
  | x :: calls' =>
      let '(c1, r) := update (c_keys x) (c_values x) (c_layer x) c in
      let '(c2, rs) := run calls' c1 in
      (c2, r :: rs)
  end.

(** The entries of the four lists at a layer kept in per-layer mode. *)
Definition layer_entry (c : cache) (layer_idx : nat) (s : stored) : Prop :=
  _quantized_key_cache c !! layer_idx = Some (Layer (s_qk s)) ∧
  _quantized_value_cache c !! layer_idx = Some (Layer (s_qv s)) ∧
  key_cache c !! layer_idx = Some (Layer (s_k s)) ∧
  value_cache c !! layer_idx = Some (Layer (s_v s)).

(** The bit widths lines 171-172 resolve for a layer. *)
Definition layer_bits (layer_idx : nat) : option bits :=
  if negb (per_layer_quant self)
  then Some (Bits (nbits_key self) (nbits_value self))
  else per_layer_config self !! layer_idx.

(** Whether an update of this layer finds the condition of lines 206-209
    true, and so re-quantizes. *)
Definition merges (c : cache) (layer_idx : nat) : bool :=
  match key_cache c !! layer_idx with
  | Some (Layer k) => merge_due k
  | _ => false
  end.

(** For each call, whether it merges. *)
Fixpoint merge_trace (calls : list call) (c : cache) : list bool :=
  match calls with
  | [] => []
  | x :: calls' =>
      merges c (c_layer x)
      :: merge_trace calls' (fst (update (c_keys x) (c_values x) (c_layer x) c))
  end.

(** The steps, counted from [i], whose flag is set. *)
Fixpoint steps_from (i : nat) (flags : list bool) : list nat :=
  match flags with
  | [] => []
  | b :: flags' => (if b then [i] else []) ++ steps_from (S i) flags'
  end.

Definition merge_steps (calls : list call) (c : cache) : list nat :=
  steps_from 1 (merge_trace calls c).

Definition count_merges (calls : list call) (c : cache) : Z :=
  Z.of_nat (length (merge_steps calls c)).

(** The key (value) positions the successful calls on a layer appended,
    in call order. *)
Fixpoint appended_keys (layer_idx : nat) (calls : list call) (rs : list outcome)
  : tensor :=
  match calls, rs with
  | x :: calls', r :: rs' =>
      (if bool_decide (c_layer x = layer_idx) && succeeded r
       then b_rows (c_keys x) else [])
      ++ appended_keys layer_idx calls' rs'
  | _, _ => []
  end.

Fixpoint appended_values (layer_idx : nat) (calls : list call) (rs : list outcome)
  : tensor :=
  match calls, rs with
  | x :: calls', r :: rs' =>
      (if bool_decide (c_layer x = layer_idx) && succeeded r
       then b_rows (c_values x) else [])
      ++ appended_values layer_idx calls' rs'
  | _, _ => []
  end.

(** The number of key positions handed to [update] for a layer. *)
Fixpoint presented (layer_idx : nat) (calls : list call) : Z :=
  match calls with
  | [] => 0
  | x :: calls' =>
      ((if bool_decide (c_layer x = layer_idx)
        then shape_m2 (b_rows (c_keys x)) else 0)
       + presented layer_idx calls')%Z
  end.

(** The four lists go together, and hold per-layer slots. *)
Definition aligned (c : cache) : Prop :=
  ∀ layer_idx, layer_idx < length (key_cache c) → ∃ s, layer_entry c layer_idx s.

Definition same_length (c : cache) : Prop :=
  length (value_cache c) = length (key_cache c) ∧
  length (_quantized_key_cache c) = length (key_cache c) ∧
  length (_quantized_value_cache c) = length (key_cache c).

(** The logical history of a layer, [dequantize(quantized) ++ residual],
    is [hk] for the keys and [hv] for the values: the residual holds their
    last positions as they are, the quantized tier the older ones up to
    [approx]. *)
Definition holds (approx : row → row → Prop) (s : stored) (hk hv : tensor) : Prop :=
  ∃ older_k older_v,
    hk = older_k ++ res_rows (s_k s) ∧
    Forall2 approx (dequantize (s_qk s)) older_k ∧
    hv = older_v ++ res_rows (s_v s) ∧
    Forall2 approx (dequantize (s_qv s)) older_v.

(** The cache holds, for each layer created, the histories [hk] and [hv]
    give it, and no history is given to a layer not yet created. *)
Definition tracks (approx : row → row → Prop) (c : cache)
    (hk hv : nat → tensor) : Prop :=
  same_length c ∧
  (∀ l, l < length (key_cache c) →
        ∃ s, layer_entry c l s ∧ holds approx s (hk l) (hv l)) ∧
  (∀ l, length (key_cache c) ≤ l → hk l = [] ∧ hv l = []).

(** The length of the key residual of a layer. *)
Definition residual_size (c : cache) (layer_idx : nat) : Z :=
  match key_cache c !! layer_idx with
  | Some (Layer k) => shape_m2 (res_rows k)
  | _ => 0
  end.

End Cache.

(** ** Concrete instances *)

(** A lossy codec on integer slabs: it keeps each value up to a multiple
    of four. *)
Definition round_quantize (t : list (list Z)) (axis nbits : Z) : list (list Z) :=
  map (map (λ z, z `div` 4)%Z) t.
Definition round_dequantize (q : list (list Z)) : list (list Z) :=
  map (map (λ z, z * 4)%Z) q.
Definition close (r1 r2 : list Z) : Prop :=
  Forall2 (λ a b, a `div` 4 = b `div` 4)%Z r1 r2.

(** [residual_length=4], [nbits_key=nbits_value=4], the other attributes
    at their defaults but [force_quant]. *)
Definition scenario_config (force_quant : bool) : cache_config :=
  CacheConfig quanto 4 4 4 0 0 false 64 4 force_quant false ∅ false ∅.

(** One position per step, at layer 0: step [i] appends [p i]. *)
Definition single_steps {pos : Type} (p : nat → pos) (n : nat) : list (@call pos) :=
  map (λ i, Call (Block 1 [[p i]]) (Block 1 [[p i]]) 0) (seq 1 n).

(** A per-head configuration with two heads at layer 0. *)
Definition two_heads_config : cache_config :=
  CacheConfig vanilla 4 4 4 0 0 false 64 4 false false ∅
              true {[ 0 := [(0, Bits 4 4); (1, Bits 2 2)] ]}.

(** [force_quant] with [residual_length=0]. *)
Definition zero_residual_config : cache_config :=
  CacheConfig quanto 4 4 4 0 0 false 64 0 true false ∅ false ∅.

(** [FlexibleQuantoQuantizedCache._quantize], over the [quantize_weight]
    of optimum-quanto. *)
Definition FlexibleQuantoQuantizedCache_quantize {tensor blob : Type}
    (quantize_weight : tensor → option qtype → Z → Z → blob)
    (self : cache_config) (t : tensor) (axis nbits : Z) : blob :=
  quantize_weight t (get_qtype nbits) axis (q_group_size self).

(** ** What a call does to the cache *)

Section Effects.
Context {pos blob : Type}.

(** The slots of the layers other than [layer_idx] stay as they are. *)
Definition frame (layer_idx : nat) (c c' : @cache pos blob) : Prop :=
  ∀ l, l ≠ layer_idx →
    (∀ x, key_cache c !! l = Some x → key_cache c' !! l = Some x) ∧
    (∀ x, value_cache c !! l = Some x → value_cache c' !! l = Some x) ∧
    (∀ x, _quantized_key_cache c !! l = Some x →
          _quantized_key_cache c' !! l = Some x) ∧
    (∀ x, _quantized_value_cache c !! l = Some x →
          _quantized_value_cache c' !! l = Some x).

(** The four lists keep their lengths. *)
Definition same_sizes (c c' : @cache pos blob) : Prop :=
  length (key_cache c') = length (key_cache c) ∧
  length (value_cache c') = length (value_cache c) ∧
  length (_quantized_key_cache c') = length (_quantized_key_cache c) ∧
  length (_quantized_value_cache c') = length (_quantized_value_cache c).

(** The cache a computation leaves is related to the one it found,
    whether it returns or raises. *)
Definition always {A} (P : @cache pos blob → @cache pos blob → Prop)
    (m : @M pos blob A) : Prop :=
  ∀ c, P c (m c).1.

End Effects.

Section Effects_more.
Context {pos blob : Type}.

(** A computation that only reads the cache. *)
Definition unchanged {A} (m : @M pos blob A) : Prop := ∀ c, (m c).1 = c.

(** The four lists keep their lengths, or the call is the first for
    [layer_idx], the next layer to create, and each list gets one slot
    more. *)
Definition grows_at (layer_idx : nat) (c c' : @cache pos blob) : Prop :=
  same_sizes c c' ∨
  (length (key_cache c) = layer_idx ∧
   length (key_cache c') = S (length (key_cache c)) ∧
   length (value_cache c') = S (length (value_cache c)) ∧
   length (_quantized_key_cache c') = S (length (_quantized_key_cache c)) ∧
   length (_quantized_value_cache c') = S (length (_quantized_value_cache c))).

End Effects_more.

(** ** Backends B and C *)

(** [FlexibleHQQQuantizedCache.__init__]: the checks made after the
    base-class constructor. *)
Definition FlexibleHQQQuantizedCache_init (cfg : cache_config) : exn + unit :=
  if negb (bool_decide (nbits cfg ∈ [1; 2; 3; 4; 8]%Z)) then inl ConfigError
  else if negb (bool_decide (axis_key cfg ∈ [0; 1]%Z)) then inl ConfigError
  else if negb (bool_decide (axis_value cfg ∈ [0; 1]%Z)) then inl ConfigError
  else inr ().

(** [FlexibleVanillaQuantizedCache.__init__]: the checks made after the
    base-class constructor; [self.quantilizers] starts as the empty dict. *)
Definition FlexibleVanillaQuantizedCache_init (cfg : cache_config) : exn + unit :=
  if negb (bool_decide (axis_key cfg ∈ [0; 1]%Z)) then inl ConfigError
  else if negb (bool_decide (axis_value cfg ∈ [0; 1]%Z)) then inl ConfigError
  else inr ().

Section Vanilla.
Context {tensor blob quantizer dtype : Type}.

(** The class [VanillaQuantizer] of [vanilla_quantizer.py]: its
    constructor [VanillaQuantizer(nbits, asym, compute_dtype)] and its
    method [quantize(tensor, q_group_size, axis)]. *)
Variable VanillaQuantizer : Z → bool → dtype → quantizer.
Variable quantizer_quantize : quantizer → tensor → Z → Z → blob.

(** [self.compute_dtype] and the other attributes of [self]. *)
Variable compute_dtype : dtype.
Variable self : cache_config.

(** [FlexibleVanillaQuantizedCache._quantize], with the dict
    [self.quantilizers] it reads and fills. *)
Definition FlexibleVanillaQuantizedCache_quantize
    (quantilizers : gmap (Z * Z) quantizer) (t : tensor) (axis nbits : Z)
  : gmap (Z * Z) quantizer * (exn + blob) :=
  let quantilizers :=
    match quantilizers !! (nbits, axis) with
    | None =>
        <[(nbits, axis) := VanillaQuantizer nbits (asym self) compute_dtype]>
          quantilizers
    | Some _ => quantilizers
    end in
  (quantilizers,
   match quantilizers !! (nbits, axis) with
   | Some quantilizer =>
       inr (quantizer_quantize quantilizer t (q_group_size self) axis)
   | None => inl KeyError
   end).

(** Calls of [_quantize] one after the other, each with its tensor, axis
    and bit width. *)
Fixpoint quantize_all (calls : list (tensor * Z * Z))
    (quantilizers : gmap (Z * Z) quantizer)
  : gmap (Z * Z) quantizer * list (exn + blob) :=
  match calls with
  | [] => (quantilizers, [])
  | (t, axis, nbits) :: calls' =>
      let '(q1, r) := FlexibleVanillaQuantizedCache_quantize quantilizers t axis nbits in
      let '(q2, rs) := quantize_all calls' q1 in
      (q2, r :: rs)
  end.

End Vanilla.

(** ** The search driver, [search_optuna_adaptive.py] *)

(** The module-level tables.  A dict the code iterates is kept as the
    list of its items in source order. *)
Definition LAYER_GROUPING_CONFIG
  : gmap string (gmap string (list (list nat))) :=
  list_to_map [
    ("Meta-Llama-3.1-8B-Instruct",
     list_to_map [
      ("per-token-asym",
       [
        [0];
        [1; 2; 3; 4; 7; 13; 18; 25; 27; 31];
        [5; 6; 12; 21; 26; 28];
        [8; 9; 10; 11; 14; 15; 16; 17; 20; 30];
        [19; 22];
        [23; 24; 29]
       ]);
      ("per-channel-asym",
       [
        [0];
        [1; 2; 3; 7; 29; 31];
        [4; 25; 27];
        [5; 21; 23; 24];
        [6; 8; 9; 10; 11; 12; 14; 15; 16; 18; 19; 20; 22; 26; 28; 30];
        [13; 17]
       ])
     ]);
    ("Mistral-7B-Instruct-v0.3",
     list_to_map [
      ("per-token-asym",
       [
        [0];
        [1; 2];
        [3; 4; 23; 31];
        [5; 6];
        [7; 8; 9; 10; 11; 12; 13; 14; 15; 16; 17; 18; 19; 20; 21; 22; 24; 25;
         26; 27; 28; 29; 30]
       ]);
      ("per-channel-asym",
       [
        [0; 1; 31];
        [2; 3; 4];
        [6; 27; 29];
        [7; 8; 10; 18];
        [9; 14];
        [5; 21; 22; 23; 24; 25; 26; 28; 30];
        [11; 12; 13; 15; 17; 19; 20];
        [16]
       ])
     ]);
    ("Qwen2.5-3B-Instruct",
     list_to_map [
      ("per-token-asym",
       [
        [0];
        [1; 3; 4; 5; 6; 8; 9; 12; 13; 15; 20];
        [2; 14; 23; 35];
        [7; 11; 16; 25; 28; 32];
        [10; 19; 24; 26; 33];
        [17; 30; 31; 34];
        [21; 22];
        [18; 27; 29]
       ]);
      ("per-channel-asym",
       [
        [0; 1];
        [2; 4];
        [34; 35];
        [3; 6; 11; 13; 23];
        [5; 7; 25; 32; 33];
        [8; 16; 18; 21; 22; 24; 26; 27; 30];
        [9; 10; 14; 15; 17; 19; 20; 29; 31];
        [12; 28]
       ])
     ]);
    ("Qwen2.5-7B-Instruct",
     list_to_map [
      ("per-token-asym",
       [
        [0];
        [1; 2; 4; 5; 25];
        [6; 19];
        [7; 10; 11; 15; 23];
        [8; 24];
        [9; 12; 16; 17; 18; 21; 22; 26];
        [14; 20];
        [3; 13; 27]
       ]);
      ("per-channel-asym",
       [
        [0; 2];
        [1; 3];
        [4; 5; 12; 22; 23; 24; 25];
        [7; 9; 10; 13; 14; 16; 18; 19; 20; 21; 27];
        [8; 26];
        [11; 15; 17];
        [6]
       ])
     ]);
    ("Qwen2.5-14B-Instruct",
     list_to_map [
      ("per-token-asym",
       [
        [0; 1; 2; 6; 11; 12; 19; 23; 24; 25; 41];
        [3; 4; 5; 8];
        [7; 10; 15];
        [9; 13; 14; 31; 38; 39];
        [16; 17; 18; 20; 21; 27; 28; 30; 32; 33; 34; 35; 36; 37; 40; 42; 43; 44;
         46; 47];
        [22; 26; 29; 45]
       ]);
      ("per-channel-asym",
       [
        [0; 2];
        [1; 3; 4];
        [5; 6; 8; 9; 12];
        [7; 10; 13; 15; 16; 17; 18; 19; 20; 21; 23; 24; 25; 26; 27; 28; 29; 30;
         31; 32; 33; 35; 36; 37; 38; 44; 45; 46; 47];
        [11; 25; 41; 42];
        [14; 39; 40; 43];
        [22; 34]
       ])
     ]);
    ("Qwen2.5-32B-Instruct",
     list_to_map [
      ("per-token-asym",
       [
        [0; 2; 11; 12; 15; 33; 54; 57];
        [1; 5; 7; 8; 9; 10; 13; 14; 17; 18; 19; 20; 21; 22; 23; 24; 25; 26; 27;
         28; 29; 30; 31; 32; 34; 35; 36; 37; 38; 39; 40; 41; 42; 43; 44; 45; 46;
         47; 48; 49; 50; 51; 52; 53; 55; 56; 58; 59; 60; 61; 62; 63];
        [3; 4];
        [6; 16]
       ]);
      ("per-channel-asym",
       [
        [0; 1; 2; 3; 4];
        [11];
        [5; 6; 7; 8; 9; 10; 12; 14; 16; 18; 19; 20; 21; 22; 23; 24; 25; 26; 27;
         28; 32];
        [13; 15; 17; 22; 24; 25; 29; 30; 31; 33; 34; 35; 36; 37; 38; 39; 40; 41;
         42; 43; 44; 45; 46; 47; 48; 49; 50; 51; 52; 53; 54; 55; 56; 57; 58; 59;
         60; 61; 62];
        [63]
       ])
     ])
  ].

Definition SPECIAL_LAYERS
  : gmap string (gmap string (list (list nat * list string))) :=
  list_to_map [
    ("Meta-Llama-3.1-8B-Instruct",
     list_to_map [
      ("per-token-asym",
       [
        ([0],
         ["KV8"; "K4V8"; "KV4"; "K4V2"; "KV2"])
       ]);
      ("per-channel-asym",
       [
        ([0],
         ["KV8"; "K4V8"; "KV4"; "K2V4"; "KV2"]);
        ([1; 2; 3; 7; 29; 31],
         ["KV8"; "K4V8"; "KV4"; "K4V2"; "KV2"])
       ])
     ]);
    ("Mistral-7B-Instruct-v0.3",
     list_to_map [
      ("per-token-asym",
       [
        ([0],
         ["KV8"; "K4V8"; "KV4"; "K2V4"; "KV2"])
       ]);
      ("per-channel-asym",
       [
        ([0; 1; 31],
         ["KV8"; "K4V8"; "KV4"; "K2V4"; "KV2"]);
        ([2; 3; 4; 6; 7; 8; 9; 10; 14; 18; 27; 29],
         ["KV8"; "K4V8"; "KV4"; "K4V2"; "KV2"])
       ])
     ]);
    ("Qwen2.5-3B-Instruct",
     list_to_map [
      ("per-token-asym",
       [
        ([0],
         ["KV8"; "K8V4"; "K8V2"; "K4V2"; "KV2"]);
        ([18; 27; 29],
         ["KV8"; "K8V4"; "K8V2"; "KV4"; "K4V2"; "KV2"])
       ]);
      ("per-channel-asym",
       [
        ([0; 1; 2; 4; 34; 35],
         ["KV8"; "K4V8"; "KV4"; "K2V4"; "KV2"]);
        ([3; 6; 11; 13; 23],
         ["KV8"; "K4V8"; "KV4"; "K4V2"; "KV2"])
       ])
     ]);
    ("Qwen2.5-7B-Instruct",
     list_to_map [
      ("per-token-asym",
       [
        ([0],
         ["KV8"; "K8V4"; "K8V2"; "K4V2"; "KV2"]);
        ([3; 13; 27],
         ["KV8"; "K8V4"; "K8V2"; "KV4"; "K4V2"; "KV2"])
       ]);
      ("per-channel-asym",
       [
        ([0; 1; 2; 3],
         ["KV8"; "K4V8"; "KV4"; "K2V4"; "KV2"]);
        ([6],
         ["KV8"; "K4V8"; "KV4"; "K4V2"; "KV2"])
       ])
     ]);
    ("Qwen2.5-14B-Instruct",
     list_to_map [
      ("per-token-asym", []);
      ("per-channel-asym",
       [
        ([0; 1; 2; 3; 4],
         ["KV8"; "K4V8"; "KV4"; "K2V4"; "KV2"]);
        ([5; 6; 8; 9; 12],
         ["KV8"; "K4V8"; "KV4"; "K4V2"; "KV2"])
       ])
     ]);
    ("Qwen2.5-32B-Instruct",
     list_to_map [
      ("per-token-asym", []);
      ("per-channel-asym",
       [
        ([0; 1; 2; 3; 4; 11],
         ["KV8"; "K4V8"; "KV4"; "K2V4"; "KV2"]);
        ([5; 6; 7; 8; 9; 10; 12; 14; 16; 18; 19; 20; 21; 23; 26; 27; 28; 32],
         ["KV8"; "K4V8"; "KV4"; "K4V2"; "KV2"]);
        ([63],
         ["KV8"; "K8V4"; "KV4"; "K2V4"; "KV2"])
       ])
     ])
  ].

Definition TOT_LAYER : gmap string Z :=
  list_to_map [
    ("Meta-Llama-3.1-8B-Instruct", 32%Z);
    ("Mistral-7B-Instruct-v0.3", 32%Z);
    ("Qwen2.5-3B-Instruct", 36%Z);
    ("Qwen2.5-7B-Instruct", 28%Z);
    ("Qwen2.5-14B-Instruct", 48%Z);
    ("Qwen2.5-32B-Instruct", 64%Z)
  ].

Definition STANDARD_KV_QUANT_CONFIG : list string :=
  ["KV8"; "K8V4"; "KV4"; "K4V2"; "KV2"].
(** The exceptions of the driver. *)
Inductive py_exn : Type :=
| PyValueError
| PyIndexError
| PyKeyError
| PyZeroDivisionError.

(** [int(c)] for a one-character string [c] of ASCII. *)
Definition int_of_char (c : Ascii.ascii) : option Z :=
  let n := Ascii.nat_of_ascii c in
  if (48 <=? n)%nat && (n <=? 57)%nat then Some (Z.of_nat (n - 48)) else None.

(** [parse_quant_config] *)
Definition parse_quant_config (quant_config : string) : py_exn + bits :=
  if (String.length quant_config =? 3)%nat then
    match String.get 2 quant_config with
    | None => inl PyIndexError
    | Some c =>
        match int_of_char c with
        | None => inl PyValueError
        | Some precision => inr (Bits precision precision)
        end
    end
  else
    match String.get 1 quant_config with
    | None => inl PyIndexError
    | Some c1 =>
        match int_of_char c1 with
        | None => inl PyValueError
        | Some precision_key =>
            match String.get 3 quant_config with
            | None => inl PyIndexError
            | Some c3 =>
                match int_of_char c3 with
                | None => inl PyValueError
                | Some precision_value => inr (Bits precision_key precision_value)
                end
            end
        end
    end.

(** [s.split(sep)] for a one-character separator. *)
Fixpoint split_on (sep : Ascii.ascii) (s : string) : list string :=
  match s with
  | EmptyString => [EmptyString]
  | String c s' =>
      if Ascii.eqb c sep then EmptyString :: split_on sep s'
      else match split_on sep s' with
           | x :: xs => String c x :: xs
           | [] => [String c EmptyString]
           end
  end.

(** [s.replace(old, '')] for a non-empty [old]: [skip] characters of an
    occurrence being removed are still to pass. *)
Fixpoint remove_all (old : string) (skip : nat) (s : string) : string :=
  match s with
  | EmptyString => EmptyString
  | String c s' =>
      match skip with
      | S k => remove_all old k s'
      | O =>
          if String.prefix old s then remove_all old (String.length old - 1) s'
          else String c (remove_all old 0 s')
      end
  end.

(** The module-level variables [prepare_layer_grouping_config] sets and
    [build_per_layer_config] reads. *)
Record globals : Type := Globals {
  current_layer_grouping : list (list nat);
  current_special_layers : list (list nat * list string);
  current_grouping_quant_template : list (list string);
  current_tot_layers : Z;
  debug_constraint : bool
}.

(** The values the module gives them at import. *)
Definition initial_globals (debug_constraint : bool) : globals :=
  Globals [] [] [] (-1) debug_constraint.

(** Lines 180-185, for one layer of a group. *)
Fixpoint scan_special_layers (group : list nat) (layer : nat)
    (specials : list (list nat * list string)) (group_quant_template : list string)
  : py_exn + list string :=
  match specials with
  | [] => inr group_quant_template
  | (special_layer, names) :: specials' =>
      if bool_decide (layer ∈ special_layer) then
        if forallb (λ other_layer, bool_decide (other_layer ∈ special_layer)) group
        then scan_special_layers group layer specials' names
        else inl PyValueError
      else scan_special_layers group layer specials' group_quant_template
  end.

(** Lines 179-185, over the layers of a group. *)
Fixpoint scan_layers (group : list nat) (layers : list nat)
    (specials : list (list nat * list string)) (group_quant_template : list string)
  : py_exn + list string :=
  match layers with
  | [] => inr group_quant_template
  | layer :: layers' =>
      match scan_special_layers group layer specials group_quant_template with
      | inl e => inl e
      | inr t => scan_layers group layers' specials t
      end
  end.

(** Lines 178-187: the template of one group. *)
Definition group_template (specials : list (list nat * list string))
    (debug_constraint : bool) (group : list nat) : py_exn + list string :=
  match scan_layers group group specials STANDARD_KV_QUANT_CONFIG with
  | inl e => inl e
  | inr t =>
      inr (if debug_constraint
           then filter (λ i, i ≠ "KV2") t
           else t)
  end.

(** Lines 177-188: the loop over the groups, appending to
    [current_grouping_quant_template]. *)
Fixpoint append_templates (groups : list (list nat)) (g : globals)
  : globals * (py_exn + unit) :=
  match groups with
  | [] => (g, inr ())
  | group :: groups' =>
      match group_template (current_special_layers g) (debug_constraint g) group with
      | inl e => (g, inl e)
      | inr t =>
          append_templates groups'
            (Globals (current_layer_grouping g) (current_special_layers g)
               (current_grouping_quant_template g ++ [t])
               (current_tot_layers g) (debug_constraint g))
      end
  end.

(** [prepare_layer_grouping_config] *)
Definition prepare_layer_grouping_config (model_name quant_scheme : string)
    (g : globals) : globals * (py_exn + unit) :=
  let model_name := List.last (split_on "/"%char model_name) EmptyString in
  let model_name := remove_all "-AWQ" 0 model_name in
  match LAYER_GROUPING_CONFIG !! model_name ≫= (.!! quant_scheme) with
  | None => (g, inl PyKeyError)
  | Some grouping =>
      let g1 := Globals grouping (current_special_layers g)
                  (current_grouping_quant_template g) (current_tot_layers g)
                  (debug_constraint g) in
      match SPECIAL_LAYERS !! model_name ≫= (.!! quant_scheme) with
      | None => (g1, inl PyKeyError)
      | Some specials =>
          let g2 := Globals grouping specials
                      (current_grouping_quant_template g) (current_tot_layers g)
                      (debug_constraint g) in
          match TOT_LAYER !! model_name with
          | None => (g2, inl PyKeyError)
          | Some tot =>
              append_templates grouping
                (Globals grouping specials
                   (current_grouping_quant_template g) tot (debug_constraint g))
          end
      end
  end.

(** Lines 222-227 of [build_per_layer_config], from group [i] on. *)
Fixpoint build_groups (g : globals) (i : nat) (config_list : list nat)
    (per_layer_config : gmap nat bits) (tot_scale : Z)
  : py_exn + (gmap nat bits * Z) :=
  match config_list with
  | [] => inr (per_layer_config, tot_scale)
  | config :: config_list' =>
      match current_layer_grouping g !! i with
      | None => inl PyIndexError
      | Some layers =>
          match current_grouping_quant_template g !! i ≫= (.!! config) with
          | None => inl PyIndexError
          | Some name =>
              match parse_quant_config name with
              | inl e => inl e
              | inr quant_config =>
                  build_groups g (S i) config_list'
                    (foldl (λ m layer, <[layer := quant_config]> m)
                       per_layer_config layers)
                    (tot_scale
                     + (cfg_nbits_key quant_config + cfg_nbits_value quant_config)
                       * Z.of_nat (length layers))%Z
              end
          end
      end
  end.

(** [build_per_layer_config].  The second component is the sum
    [tot_scale] holds before line 228 divides it, in floating point, by
    [current_tot_layers * 2]; that divisor being 0 raises. *)
Definition build_per_layer_config (g : globals) (config_list : list nat)
  : py_exn + (gmap nat bits * Z) :=
  match build_groups g 0 config_list ∅ 0 with
  | inl e => inl e
  | inr (per_layer_config, tot_scale) =>
      if (current_tot_layers g * 2 =? 0)%Z then inl PyZeroDivisionError
      else inr (per_layer_config, tot_scale)
  end.

(** The name [KaVb] of a pair of one-digit bit widths. *)
Definition digit_char (d : nat) : Ascii.ascii := Ascii.ascii_of_nat (48 + d).

Definition quant_name (k v : nat) : string :=
  String "K"%char (String (digit_char k)
    (String "V"%char (String (digit_char v) EmptyString))).

(** The name [KVd] of one width for both. *)
Definition quant_name_both (d : nat) : string :=
  String "K"%char (String "V"%char (String (digit_char d) EmptyString)).

(** The models and schemes of the tables. *)
Definition table_models : list string :=
  ["Meta-Llama-3.1-8B-Instruct"; "Mistral-7B-Instruct-v0.3"; "Qwen2.5-3B-Instruct";
   "Qwen2.5-7B-Instruct"; "Qwen2.5-14B-Instruct"; "Qwen2.5-32B-Instruct"].

Definition table_schemes : list string := ["per-token-asym"; "per-channel-asym"].

(** ** Further concrete instances *)

(** [residual_length=0] without [force_quant]. *)
Definition short_residual_config : cache_config :=
  CacheConfig quanto 4 4 4 0 0 false 64 0 false false ∅ false ∅.

(** The module's variables once [prepare_layer_grouping_config] has run
    for Meta-Llama-3.1-8B-Instruct and per-token-asym. *)
Definition llama_globals : globals :=
  (prepare_layer_grouping_config "meta-llama/Meta-Llama-3.1-8B-Instruct"
     "per-token-asym" (initial_globals false)).1.

(** [K4V8] for layer 0 and [KV8] for the layers of the second group. *)
Definition llama_per_layer_config : gmap nat bits :=
  <[0 := Bits 4 8]>
    (list_to_map ((λ l, (l, Bits 8 8)) <$> [1; 2; 3; 4; 7; 13; 18; 25; 27; 31])).

(** A cache in per-layer mode over this dict. *)
Definition llama_cache_config : cache_config :=
  CacheConfig vanilla 4 4 4 0 0 true (-1) 0 false true llama_per_layer_config
              false ∅.

(** ** The entries of a head *)

Section Heads.
Context {pos blob : Type}.

(** A block each of whose positions has one slab per head. *)
Definition well_formed (b : @block pos) : Prop :=
  Forall (λ r, length r = b_heads b) (b_rows b).

(** The blocks of a call against the head table of the layer: the keys of
    the table are the heads [0, 1, ...] in this order, as many as the
    blocks have heads. *)
Definition fits (table : list (nat * bits)) (key_states value_states : @block pos)
  : Prop :=
  table.*1 = seq 0 (b_heads key_states) ∧
  b_heads value_states = b_heads key_states ∧
  well_formed key_states ∧ well_formed value_states.

(** The entries of the four lists at a head of a layer kept in per-head
    mode: what [self.X[layer_idx][head_idx]] reads. *)
Definition head_entry (c : @cache pos blob) (layer_idx head_idx : nat)
    (s : @stored pos blob) : Prop :=
  head_of head_idx (_quantized_key_cache c !! layer_idx) = inr (s_qk s) ∧
  head_of head_idx (_quantized_value_cache c !! layer_idx) = inr (s_qv s) ∧
  head_of head_idx (key_cache c !! layer_idx) = inr (s_k s) ∧
  head_of head_idx (value_cache c !! layer_idx) = inr (s_v s).

(** The key residual of a head. *)
Definition head_residual (c : @cache pos blob) (layer_idx head_idx : nat)
  : option (@residual pos) :=
  match key_cache c !! layer_idx with
  | Some (Heads ks) => ks !! head_idx
  | _ => None
  end.

Variable quantize : @tensor pos → Z → Z → blob.
Variable dequantize : blob → @tensor pos.
Variable self : cache_config.

(** Whether an update of the layer finds the condition of lines 259-262
    true for this head. *)
Definition head_merges (c : @cache pos blob) (layer_idx head_idx : nat) : bool :=
  match head_residual c layer_idx head_idx with
  | Some k => merge_due self k
  | None => false
  end.

(** The length of the key residual of a head. *)
Definition head_residual_size (c : @cache pos blob) (layer_idx head_idx : nat) : Z :=
  match head_residual c layer_idx head_idx with
  | Some k => shape_m2 (res_rows k)
  | None => 0
  end.

(** For each call, whether it finds the merge of this head due. *)
Fixpoint head_merge_trace (head_idx : nat) (calls : list (@call pos))
    (c : @cache pos blob) : list bool :=
  match calls with
  | [] => []
  | x :: calls' =>
      head_merges c (c_layer x) head_idx
      :: head_merge_trace head_idx calls'
           (fst (update quantize dequantize self
                   (c_keys x) (c_values x) (c_layer x) c))
  end.

Definition head_merge_steps (head_idx : nat) (calls : list (@call pos))
    (c : @cache pos blob) : list nat :=
  steps_from 1 (head_merge_trace head_idx calls c).

Definition head_count_merges (head_idx : nat) (calls : list (@call pos))
    (c : @cache pos blob) : Z :=
  Z.of_nat (length (head_merge_steps head_idx calls c)).

End Heads.

(** One position per step at layer 0, for two heads: step [i] appends
    [p i] for head 0 and [p (100 + i)] for head 1. *)
Definition two_head_steps {pos : Type} (p : nat → pos) (n : nat) : list (@call pos) :=
  map (λ i, Call (Block 2 [[p i; p (100 + i)]]) (Block 2 [[p i; p (100 + i)]]) 0)
      (seq 1 n).

(** A per-head configuration whose head table at layer 0 lists head 1
    before head 0. *)
Definition swapped_heads_config : cache_config :=
  CacheConfig vanilla 4 4 4 0 0 false 64 4 false false ∅
              true {[ 0 := [(1, Bits 2 2); (0, Bits 4 4)] ]}.

(** ** Properties *)

Section Properties.
Context {pos blob : Type}.
Variable quantize : @tensor pos → Z → Z → blob.
Variable dequantize : blob → @tensor pos.
Variable self : cache_config.

Local Abbreviation first_append' := (first_append quantize dequantize self).
Local Abbreviation later_append' := (later_append quantize dequantize self).

Implicit Types (c : @cache pos blob) (s : @stored pos blob).
Implicit Types (key_states value_states : @block pos).

Lemma update_skipped key_states value_states layer_idx c :
  length (key_cache c) < layer_idx →
  update quantize dequantize self key_states value_states layer_idx c
  = (c, inl SequentialAccessError).
Proof.
  intros Hlt. unfold update, bind, modify, get, raise, count_tokens.
  destruct layer_idx as [|n]; [lia|]. simpl.
  destruct (Nat.ltb_spec (length (key_cache c)) (S n)); [done | lia].
Qed.

Lemma count_tokens_lists key_states layer_idx c :
  key_cache (count_tokens key_states layer_idx c) = key_cache c ∧
  value_cache (count_tokens key_states layer_idx c) = value_cache c ∧
  _quantized_key_cache (count_tokens key_states layer_idx c) = _quantized_key_cache c ∧
  _quantized_value_cache (count_tokens key_states layer_idx c) = _quantized_value_cache c.
Proof. unfold count_tokens. by destruct (layer_idx =? 0). Qed.

Lemma layer_entry_count_tokens key_states l c layer_idx s :
  layer_entry c layer_idx s → layer_entry (count_tokens key_states l c) layer_idx s.
Proof.
  unfold layer_entry.
  destruct (count_tokens_lists key_states l c) as (-> & -> & -> & ->). done.
Qed.

Lemma layer_entry_lt c layer_idx s :
  layer_entry c layer_idx s → layer_idx < length (key_cache c).
Proof. intros (_ & _ & H & _). by eapply lookup_lt_Some. Qed.

Lemma read_layer_entry c layer_idx s :
  layer_entry c layer_idx s → read_layer layer_idx c = (c, inr s).
Proof.
  intros (H1 & H2 & H3 & H4).
  unfold read_layer, bind, get, lift_exn, ret. rewrite H1, H2, H3, H4. simpl.
  by destruct s.
Qed.

(** The first update of a layer kept in per-layer mode. *)
Lemma update_first_layer key_states value_states layer_idx c nb :
  per_head_quant self = false →
  layer_bits self layer_idx = Some nb →
  length (key_cache c) = layer_idx →
  update quantize dequantize self key_states value_states layer_idx c =
    (push_layer (first_append' (b_rows key_states) (b_rows value_states)
                   (cfg_nbits_key nb) (cfg_nbits_value nb)).1
                (count_tokens key_states layer_idx c),
     inr (first_append' (b_rows key_states) (b_rows value_states)
            (cfg_nbits_key nb) (cfg_nbits_value nb)).2).
Proof.
  intros Hh Hb Hlen. unfold update, bind, modify, get, raise, ret. simpl.
  destruct (count_tokens_lists key_states layer_idx c) as (-> & _).
  rewrite Hlen, Nat.ltb_irrefl, Hh. simpl.
  unfold layer_bits in Hb.
  destruct (per_layer_quant self); simpl in *.
  - rewrite Hb. simpl. rewrite Nat.eqb_refl.
    by destruct (first_append _ _ _ _ _ _ _) as [? ?].
  - injection Hb as <-. simpl. rewrite Nat.eqb_refl.
    by destruct (first_append _ _ _ _ _ _ _) as [? ?].
Qed.

(** A later update of a layer kept in per-layer mode. *)
Lemma update_later_layer key_states value_states layer_idx c nb s :
  per_head_quant self = false →
  layer_bits self layer_idx = Some nb →
  layer_entry c layer_idx s →
  update quantize dequantize self key_states value_states layer_idx c =
    (write_layer layer_idx
       (later_append' s (b_rows key_states) (b_rows value_states)
          (cfg_nbits_key nb) (cfg_nbits_value nb)).1
       (count_tokens key_states layer_idx c),
     inr (later_append' s (b_rows key_states) (b_rows value_states)
            (cfg_nbits_key nb) (cfg_nbits_value nb)).2).
Proof.
  intros Hh Hb He. pose proof (layer_entry_lt _ _ _ He) as Hlt.
  unfold update, bind, modify, get, raise, ret. simpl.
  destruct (count_tokens_lists key_states layer_idx c) as (-> & _).
  destruct (Nat.ltb_spec (length (key_cache c)) layer_idx); [lia|].
  rewrite Hh. simpl.
  assert (Hne : (length (key_cache c) =? layer_idx) = false)
    by (apply Nat.eqb_neq; lia).
  pose proof (read_layer_entry _ _ _
                (layer_entry_count_tokens key_states layer_idx _ _ _ He)) as Hr.
  unfold layer_bits in Hb.
  destruct (per_layer_quant self); simpl in *.
  - rewrite Hb. simpl. rewrite Hne. fold (@bind pos blob).
    unfold bind. rewrite Hr.
    by destruct (later_append _ _ _ _ _ _ _ _) as [? ?].
  - injection Hb as <-. simpl. rewrite Hne. unfold bind. rewrite Hr.
    by destruct (later_append _ _ _ _ _ _ _ _) as [? ?].
Qed.

Lemma update_no_bits key_states value_states layer_idx c :
  per_head_quant self = false →
  layer_bits self layer_idx = None →
  layer_idx ≤ length (key_cache c) →
  update quantize dequantize self key_states value_states layer_idx c =
    (count_tokens key_states layer_idx c, inl KeyError).
Proof.
  intros Hh Hb Hle. unfold update, bind, modify, get, raise, ret. simpl.
  destruct (count_tokens_lists key_states layer_idx c) as (-> & _).
  destruct (Nat.ltb_spec (length (key_cache c)) layer_idx); [lia|].
  rewrite Hh. simpl. unfold layer_bits in Hb.
  destruct (per_layer_quant self); simpl in *; [|done].
  by rewrite Hb.
Qed.

(** *** The counter of seen tokens *)

Lemma first_heads_seen key_states value_states layer_idx items ks vs c :
  _seen_tokens (first_heads quantize dequantize self key_states value_states
                  layer_idx items ks vs c).1 = _seen_tokens c.
Proof.
  revert ks vs c. induction items as [|[head_idx config] items IH]; intros ks vs c.
  - done.
  - simpl. unfold bind, lift, modify, ret, raise.
    destruct (head_slice head_idx key_states) as [kh|]; [|done].
    destruct (head_slice head_idx value_states) as [vh|]; [|done].
    destruct (first_append _ _ _ kh vh _ _) as [s [k v]].
    by rewrite IH.
Qed.

Lemma read_head_state layer_idx head_idx c :
  (read_head layer_idx head_idx c).1 = c.
Proof.
  unfold read_head, bind, get, lift_exn, raise, ret.
  repeat (match goal with |- context [head_of ?h ?o] => destruct (head_of h o) end;
          simpl; try done).
Qed.

Lemma later_heads_seen key_states value_states layer_idx items ks vs c :
  _seen_tokens (later_heads quantize dequantize self key_states value_states
                  layer_idx items ks vs c).1 = _seen_tokens c.
Proof.
  revert ks vs c. induction items as [|[head_idx config] items IH]; intros ks vs c.
  - done.
  - simpl. unfold bind at 1.
    pose proof (read_head_state layer_idx head_idx c) as Hr.
    destruct (read_head layer_idx head_idx c) as [c0 [e|s]]; simpl in Hr; subst c0;
      [done|].
    unfold bind, lift, modify, ret, raise.
    destruct (head_slice head_idx key_states) as [kh|]; [|done].
    destruct (head_slice head_idx value_states) as [vh|]; [|done].
    destruct (merge_due self (s_k s)).
    + destruct (_ !! head_idx) as [k|]; [|done].
      destruct (_ !! head_idx) as [v|]; [|done].
      by rewrite IH.
    + by rewrite IH.
Qed.

Lemma update_seen_tokens key_states value_states layer_idx c :
  _seen_tokens (update quantize dequantize self key_states value_states layer_idx c).1 =
  _seen_tokens (count_tokens key_states layer_idx c).
Proof.
  unfold update. unfold bind at 1. unfold modify at 1.
  set (c0 := count_tokens key_states layer_idx c).
  unfold bind at 1. unfold get at 1.
  destruct (length (key_cache c0) <? layer_idx); [done|].
  destruct (per_head_quant self); simpl.
  - destruct (b_heads key_states =? b_heads value_states); simpl; [|done].
    unfold bind at 1. unfold lift at 1.
    destruct (per_head_config self !! layer_idx) as [table|]; [|done].
    unfold ret at 1.
    destruct (b_heads key_states =? length table); simpl; [|done].
    unfold bind at 1.
    destruct (length (key_cache c0) =? layer_idx).
    + unfold bind at 1. unfold modify at 1.
      pose proof (first_heads_seen key_states value_states layer_idx table [] []
                    (push_empty_heads c0)) as Hs.
      destruct (first_heads _ _ _ _ _ _ _ _ _ _) as [c1 [e|[ks vs]]]; [done|].
      unfold bind, lift, ret, raise.
      destruct (stack ks); [|done]. by destruct (stack vs).
    + pose proof (later_heads_seen key_states value_states layer_idx table [] [] c0)
        as Hs.
      destruct (later_heads _ _ _ _ _ _ _ _ _ _) as [c1 [e|[ks vs]]]; [done|].
      unfold bind, lift, ret, raise.
      destruct (stack ks); [|done]. by destruct (stack vs).
  - unfold bind at 1.
    destruct (if negb (per_layer_quant self) then _ else _) as [c1 [e|nb]] eqn:Hnb.
    + assert (c1 = c0) as ->; [|done].
      destruct (per_layer_quant self); simpl in Hnb.
      * unfold lift in Hnb. destruct (per_layer_config self !! layer_idx);
          unfold ret, raise in Hnb; congruence.
      * unfold ret in Hnb; congruence.
    + assert (c1 = c0) as ->.
      { destruct (per_layer_quant self); simpl in Hnb.
        - unfold lift in Hnb. destruct (per_layer_config self !! layer_idx);
            unfold ret, raise in Hnb; congruence.
        - unfold ret in Hnb; congruence. }
      destruct (length (key_cache c0) =? layer_idx).
      * destruct (first_append _ _ _ _ _ _ _) as [s out]. done.
      * unfold bind at 1.
        destruct (read_layer layer_idx c0) as [c2 [e|s]] eqn:Hr.
        -- revert Hr. unfold read_layer, bind, get, lift_exn, raise, ret.
           repeat (match goal with
                   | |- context [layer_of ?o] => destruct (layer_of o)
                   end; simpl; try congruence).
        -- assert (c2 = c0) as ->.
           { revert Hr. unfold read_layer, bind, get, lift_exn, raise, ret.
             repeat (match goal with
                     | |- context [layer_of ?o] => destruct (layer_of o)
                     end; simpl; try congruence). }
           destruct (later_append _ _ _ _ _ _ _ _) as [s' out]. done.
Qed.

(** *** Errors *)

(** C7: an update whose layer index is greater than the number of layer
    entries created so far raises the layers-skipped error
    ([SequentialAccessError]); nothing recovers from it, and the cache is
    left exactly as it was. *)
Theorem update_skipped_layer_raises key_states value_states layer_idx c :
  length (key_cache c) < layer_idx →
  update quantize dequantize self key_states value_states layer_idx c
  = (c, inl SequentialAccessError).
Proof. apply update_skipped. Qed.

(** C8: in per-head mode, an update whose block has a head count other
    than the number of heads configured for the layer raises the
    head-mismatch error ([ConfigError]) before any of the four lists is
    touched, so no per-head entry of the layer is left half built. *)
Theorem update_head_mismatch_raises key_states value_states layer_idx c table :
  per_head_quant self = true →
  layer_idx ≤ length (key_cache c) →
  b_heads key_states = b_heads value_states →
  per_head_config self !! layer_idx = Some table →
  b_heads key_states ≠ length table →
  ∃ c', update quantize dequantize self key_states value_states layer_idx c
        = (c', inl ConfigError) ∧
        key_cache c' = key_cache c ∧
        value_cache c' = value_cache c ∧
        _quantized_key_cache c' = _quantized_key_cache c ∧
        _quantized_value_cache c' = _quantized_value_cache c.
Proof.
  intros Hh Hle Heq Ht Hne.
  exists (count_tokens key_states layer_idx c).
  split; [|apply count_tokens_lists].
  unfold update, bind, modify, get, raise, ret, lift. simpl.
  destruct (count_tokens_lists key_states layer_idx c) as (-> & _).
  destruct (Nat.ltb_spec (length (key_cache c)) layer_idx); [lia|].
  rewrite Hh, <- Heq, Nat.eqb_refl, Ht. simpl.
  destruct (Nat.eqb_spec (b_heads key_states) (length table)); [done|done].
Qed.

(** C10: an update of layer 0 adds [key_states.shape[-2]] to
    [_seen_tokens] first; whatever the call then does, also when it
    raises, the cache it leaves has the counter incremented. *)
Theorem update_counts_tokens_first key_states value_states c c' (r : outcome) :
  update quantize dequantize self key_states value_states 0 c = (c', r) →
  _seen_tokens c' = (_seen_tokens c + shape_m2 (b_rows key_states))%Z.
Proof.
  intros Hu.
  pose proof (update_seen_tokens key_states value_states 0 c) as Hs.
  rewrite Hu in Hs. simpl in Hs. by rewrite Hs.
Qed.

(** *** The first update of a layer *)

Lemma slice_index_neg (t : Z) (n : nat) :
  (0 < t)%Z → slice_index (- t) n = n - Z.to_nat t.
Proof.
  intros Ht. unfold slice_index.
  destruct (Z.ltb_spec (- t) 0); lia.
Qed.

Lemma slice_to_from {A} (i : Z) (t : list A) :
  slice_to i t ++ slice_from i t = t.
Proof. apply take_drop. Qed.

(** C2, as the code has it: without [force_quant], the first update of a
    layer quantizes the whole incoming block into the quantized tier at
    once, leaves the empty placeholder as residual, and returns the block
    itself. *)
Theorem first_update_quantizes_block key_states value_states layer_idx c nb :
  per_head_quant self = false →
  force_quant self = false →
  layer_bits self layer_idx = Some nb →
  length (key_cache c) = layer_idx →
  update quantize dequantize self key_states value_states layer_idx c =
    (push_layer
       (Stored (quantize (b_rows key_states) (axis_key self) (cfg_nbits_key nb))
               (quantize (b_rows value_states) (axis_value self) (cfg_nbits_value nb))
               Placeholder Placeholder)
       (count_tokens key_states layer_idx c),
     inr (b_rows key_states, b_rows value_states)).
Proof.
  intros Hh Hf Hb Hlen.
  rewrite (update_first_layer _ _ _ _ nb Hh Hb Hlen).
  unfold first_append. by rewrite Hf.
Qed.

(** C6, as the code has it: with [force_quant], the first update of a
    layer with [residual_length = R > 0] and a block whose length is not a
    multiple of [R] quantizes the first [len - len mod R] positions and
    keeps the last [len mod R] as residual; with [R = 0] it quantizes the
    whole block and leaves the empty placeholder as residual.  In both
    cases it returns the dequantized tier followed by the residual. *)
Theorem first_update_force_quant key_states value_states layer_idx c nb :
  per_head_quant self = false →
  force_quant self = true →
  layer_bits self layer_idx = Some nb →
  length (key_cache c) = layer_idx →
  residual_length self = 0%Z ∨
  (0 < residual_length self ∧
   shape_m2 (b_rows key_states) `mod` residual_length self ≠ 0)%Z →
  let keep := Z.to_nat (shape_m2 (b_rows key_states) `mod` residual_length self) in
  let s :=
    if (residual_length self =? 0)%Z then
      Stored (quantize (b_rows key_states) (axis_key self) (cfg_nbits_key nb))
             (quantize (b_rows value_states) (axis_value self) (cfg_nbits_value nb))
             Placeholder Placeholder
    else
      Stored (quantize (take (length (b_rows key_states) - keep) (b_rows key_states))
                (axis_key self) (cfg_nbits_key nb))
             (quantize (take (length (b_rows value_states) - keep) (b_rows value_states))
                (axis_value self) (cfg_nbits_value nb))
             (Arr (drop (length (b_rows key_states) - keep) (b_rows key_states)))
             (Arr (drop (length (b_rows value_states) - keep) (b_rows value_states))) in
  update quantize dequantize self key_states value_states layer_idx c =
    (push_layer s (count_tokens key_states layer_idx c),
     inr (dequantize (s_qk s) ++ res_rows (s_k s),
          dequantize (s_qv s) ++ res_rows (s_v s))) ∧
  length (res_rows (s_k s)) =
    (if (residual_length self =? 0)%Z then 0 else keep).
Proof.
  intros Hh Hf Hb Hlen HR keep s.
  rewrite (update_first_layer _ _ _ _ nb Hh Hb Hlen).
  unfold first_append. rewrite Hf. subst s.
  destruct HR as [HR | [HR Hmod]].
  - rewrite HR. simpl. done.
  - destruct (Z.eqb_spec (residual_length self) 0) as [|_]; [lia|]. simpl.
    pose proof (Z.mod_pos_bound (shape_m2 (b_rows key_states))
                  (residual_length self) HR) as Hbound.
    pose proof (Z.mod_le (shape_m2 (b_rows key_states)) (residual_length self))
      as Hle.
    unfold slice_to, slice_from. rewrite !slice_index_neg by lia.
    split; [done|].
    rewrite length_drop. subst keep. unfold shape_m2 in *. lia.
Qed.

(** *** Later updates of a layer: the merge *)

Lemma merge_due_spec (k : @residual pos) :
  merge_due self k = true ↔
  is_array k = true ∧ (residual_length self ≤ shape_m2 (res_rows k) + 1)%Z.
Proof.
  unfold merge_due. rewrite andb_true_iff.
  destruct (Z.geb_spec (shape_m2 (res_rows k) + 1) (residual_length self));
    intuition (try lia; try done).
Qed.

Lemma merges_entry c layer_idx s :
  layer_entry c layer_idx s → merges self c layer_idx = merge_due self (s_k s).
Proof. intros (_ & _ & H & _). unfold merges. by rewrite H. Qed.

Lemma layer_entry_write c layer_idx s s' :
  layer_entry c layer_idx s → layer_entry (write_layer layer_idx s' c) layer_idx s'.
Proof.
  intros (H1 & H2 & H3 & H4). unfold layer_entry, write_layer. simpl.
  rewrite !list_lookup_insert_eq; [done|by eapply lookup_lt_Some..].
Qed.

Lemma layer_entry_write_ne c layer_idx l s s' :
  l ≠ layer_idx →
  layer_entry (write_layer layer_idx s' c) l s ↔ layer_entry c l s.
Proof.
  intros Hne. unfold layer_entry, write_layer. simpl.
  by rewrite !list_lookup_insert_ne.
Qed.

(** The merge of a layer kept in per-layer mode: on an update after the
    first, both quantized tiers are replaced by the quantized full history
    and both residuals reset to the empty placeholder exactly when the key
    residual found is an array, not the empty placeholder, and its length
    plus one reaches [residual_length]; otherwise the tiers are kept and
    the block goes onto the residual.  With [residual_length = 4] and one
    position per step at layer 0 for 10 steps, the merges are at steps 5
    and 9 without [force_quant] (step 1 quantizes the first block), and at
    steps 4 and 8 with it. *)
Lemma layer_merge_timing key_states value_states layer_idx c nb s (p : nat → pos) :
  per_head_quant self = false →
  layer_bits self layer_idx = Some nb →
  layer_entry c layer_idx s →
  let history_k := dequantize (s_qk s) ++ res_rows (s_k s) ++ b_rows key_states in
  let history_v := dequantize (s_qv s) ++ res_rows (s_v s) ++ b_rows value_states in
  (merges self c layer_idx = true ↔
   is_array (s_k s) = true ∧
   (residual_length self ≤ shape_m2 (res_rows (s_k s)) + 1)%Z) ∧
  (∃ c', update quantize dequantize self key_states value_states layer_idx c
         = (c', inr (history_k, history_v)) ∧
     layer_entry c' layer_idx
       (if merges self c layer_idx
        then Stored (quantize history_k (axis_key self) (cfg_nbits_key nb))
                    (quantize history_v (axis_value self) (cfg_nbits_value nb))
                    Placeholder Placeholder
        else Stored (s_qk s) (s_qv s)
                    (Arr (res_rows (s_k s) ++ b_rows key_states))
                    (Arr (res_rows (s_v s) ++ b_rows value_states)))) ∧
  merge_steps quantize dequantize (scenario_config false)
    (single_steps p 10) empty_cache = [5; 9] ∧
  merge_steps quantize dequantize (scenario_config true)
    (single_steps p 10) empty_cache = [4; 8].
Proof.
  intros Hh Hb He history_k history_v.
  rewrite (merges_entry _ _ _ He).
  split; [apply merge_due_spec|].
  split; [|split; vm_compute; reflexivity].
  eexists. split.
  - rewrite (update_later_layer _ _ _ _ nb s Hh Hb He).
    f_equal. unfold later_append. by destruct (merge_due self (s_k s)).
  - unfold later_append. fold history_k history_v.
    destruct (merge_due self (s_k s)); simpl;
      by apply (layer_entry_write _ _ s), layer_entry_count_tokens.
Qed.

(** *** The size of the residual and the rate of merges *)

Lemma residual_size_entry c layer_idx s :
  layer_entry c layer_idx s →
  residual_size c layer_idx = shape_m2 (res_rows (s_k s)).
Proof. intros (_ & _ & H & _). unfold residual_size. by rewrite H. Qed.

Lemma same_length_count_tokens key_states layer_idx c :
  same_length c → same_length (count_tokens key_states layer_idx c).
Proof.
  unfold same_length.
  destruct (count_tokens_lists key_states layer_idx c) as (-> & -> & -> & ->). done.
Qed.

Lemma same_length_push s c : same_length c → same_length (push_layer s c).
Proof.
  intros (H1 & H2 & H3). unfold same_length, push_layer. simpl.
  rewrite !length_app. simpl. lia.
Qed.

Lemma same_length_write layer_idx s c :
  same_length c → same_length (write_layer layer_idx s c).
Proof.
  intros (H1 & H2 & H3). unfold same_length, write_layer. simpl.
  rewrite !length_insert. lia.
Qed.

Lemma layer_entry_push s c :
  same_length c → layer_entry (push_layer s c) (length (key_cache c)) s.
Proof.
  intros (H1 & H2 & H3). unfold layer_entry, push_layer. simpl.
  split_and!; by apply list_lookup_middle.
Qed.

Lemma layer_entry_push_lt s s' c layer_idx :
  same_length c → layer_idx < length (key_cache c) →
  layer_entry (push_layer s c) layer_idx s' ↔ layer_entry c layer_idx s'.
Proof.
  intros (H1 & H2 & H3) Hlt. unfold layer_entry, push_layer. simpl.
  rewrite !lookup_app_l by lia. done.
Qed.

Lemma first_append_residual_le (ks vs : @tensor pos) nbk nbv :
  length (res_rows (s_k (first_append' ks vs nbk nbv).1)) ≤ length ks.
Proof.
  unfold first_append.
  destruct (force_quant self); [|simpl; lia].
  destruct (residual_length self =? 0)%Z; simpl; [lia|].
  unfold slice_from. rewrite length_drop. lia.
Qed.

(** One update of a layer, first or later, against the residual it
    found: a merge takes at least [residual_length] positions, residual
    and block together, out of full precision. *)
Lemma update_layer_step key_states value_states layer_idx c nb :
  per_head_quant self = false →
  layer_bits self layer_idx = Some nb →
  same_length c →
  layer_idx = length (key_cache c) ∨ (∃ s, layer_entry c layer_idx s) →
  b_rows key_states ≠ [] →
  let c' := (update quantize dequantize self key_states value_states layer_idx c).1 in
  same_length c' ∧ (∃ s', layer_entry c' layer_idx s') ∧
  (residual_length self * (if merges self c layer_idx then 1 else 0)
   + residual_size c' layer_idx
   ≤ residual_size c layer_idx + shape_m2 (b_rows key_states))%Z.
Proof.
  intros Hh Hb Hsl [Hl | [s He]] Hne c'; subst c'.
  - rewrite (update_first_layer _ _ _ _ nb Hh Hb (eq_sym Hl)). simpl.
    set (s := (first_append' _ _ _ _).1).
    assert (He : layer_entry (push_layer s (count_tokens key_states layer_idx c))
                   layer_idx s).
    { replace layer_idx with
        (length (key_cache (count_tokens key_states layer_idx c))) at 2
        by (destruct (count_tokens_lists key_states layer_idx c) as (-> & _); done).
      by apply layer_entry_push, same_length_count_tokens. }
    split; [by apply same_length_push, same_length_count_tokens|].
    split; [by exists s|].
    rewrite (residual_size_entry _ _ _ He).
    unfold merges, residual_size. rewrite (lookup_ge_None_2 _ layer_idx) by lia.
    pose proof (first_append_residual_le (b_rows key_states) (b_rows value_states)
                  (cfg_nbits_key nb) (cfg_nbits_value nb)) as Hle.
    fold s in Hle. unfold shape_m2. lia.
  - rewrite (update_later_layer _ _ _ _ nb s Hh Hb He). simpl.
    set (s' := (later_append' _ _ _ _ _).1).
    assert (He' : layer_entry (write_layer layer_idx s'
                                 (count_tokens key_states layer_idx c)) layer_idx s')
      by (by apply (layer_entry_write _ _ s), layer_entry_count_tokens).
    split; [by apply same_length_write, same_length_count_tokens|].
    split; [by exists s'|].
    rewrite (residual_size_entry _ _ _ He'), (residual_size_entry _ _ _ He),
      (merges_entry _ _ _ He).
    subst s'. unfold later_append.
    destruct (merge_due self (s_k s)) eqn:Hm; simpl.
    + apply merge_due_spec in Hm as [_ Hm].
      unfold shape_m2 in *. simpl.
      destruct (b_rows key_states); [done|simpl; lia].
    + unfold shape_m2. rewrite length_app. lia.
Qed.

Lemma steps_from_length i j flags :
  length (steps_from i flags) = length (steps_from j flags).
Proof.
  revert i j. induction flags as [|b flags IH]; intros i j; [done|].
  destruct b; simpl; [f_equal|]; apply IH.
Qed.

Lemma count_merges_cons (x : call) calls c :
  count_merges quantize dequantize self (x :: calls) c =
  ((if merges self c (c_layer x) then 1 else 0)
   + count_merges quantize dequantize self calls
       (update quantize dequantize self (c_keys x) (c_values x) (c_layer x) c).1)%Z.
Proof.
  unfold count_merges, merge_steps. simpl.
  rewrite length_app, (steps_from_length 2 1).
  destruct (merges self c (c_layer x)); simpl; lia.
Qed.

Lemma presented_nonneg layer_idx (calls : list (@call pos)) :
  (0 ≤ presented layer_idx calls)%Z.
Proof.
  induction calls as [|x calls IH]; simpl; [done|].
  unfold shape_m2. destruct (bool_decide _); lia.
Qed.

Lemma merge_rate layer_idx nb (calls : list (@call pos)) :
  per_head_quant self = false →
  layer_bits self layer_idx = Some nb →
  Forall (λ x, c_layer x = layer_idx ∧ b_rows (c_keys x) ≠ []) calls →
  ∀ c, same_length c →
  layer_idx = length (key_cache c) ∨ (∃ s, layer_entry c layer_idx s) →
  (residual_length self * count_merges quantize dequantize self calls c
   ≤ residual_size c layer_idx + presented layer_idx calls)%Z.
Proof.
  intros Hh Hb Hall. induction Hall as [|x calls [Hx Hne] _ IH]; intros c Hsl Hl.
  - unfold count_merges. simpl.
    assert (0 ≤ residual_size c layer_idx)%Z; [|lia].
    unfold residual_size, shape_m2.
    destruct (key_cache c !! layer_idx) as [[k|]|]; lia.
  - rewrite count_merges_cons. simpl. rewrite Hx, bool_decide_eq_true_2 by done.
    destruct (update_layer_step (c_keys x) (c_values x) layer_idx c nb
                Hh Hb Hsl Hl Hne) as (Hsl' & He' & Hstep).
    specialize (IH _ Hsl' (or_intror He')).
    destruct (merges self c layer_idx); lia.
Qed.

(** The residual of a layer kept in per-layer mode: an update after the
    first that appends [n] positions leaves at most
    [n + max(0, residual_length - 2)] positions in the residual, which for
    a single position and [residual_length ≥ 1] is at most
    [residual_length]; a block appended to the empty placeholder stays
    whole in the residual, whatever its length.  And over any sequence of
    non-empty blocks appended to a layer, each merge accounts for
    [residual_length] appended positions of its own. *)
Lemma layer_residual_bound_and_merge_rate layer_idx c nb (calls : list (@call pos)) :
  per_head_quant self = false →
  layer_bits self layer_idx = Some nb →
  same_length c →
  layer_idx = length (key_cache c) ∨ (∃ s, layer_entry c layer_idx s) →
  Forall (λ x, c_layer x = layer_idx ∧ b_rows (c_keys x) ≠ []) calls →
  (∀ key_states value_states s,
     layer_entry c layer_idx s →
     let c' := (update quantize dequantize self key_states value_states layer_idx c).1 in
     (residual_size c' layer_idx
      ≤ shape_m2 (b_rows key_states) + Z.max 0 (residual_length self - 2))%Z ∧
     (shape_m2 (b_rows key_states) = 1%Z → (1 ≤ residual_length self)%Z →
      (residual_size c' layer_idx ≤ residual_length self)%Z) ∧
     (s_k s = Placeholder →
      residual_size c' layer_idx = shape_m2 (b_rows key_states))) ∧
  (residual_length self * count_merges quantize dequantize self calls c
   ≤ residual_size c layer_idx + presented layer_idx calls)%Z.
Proof.
  intros Hh Hb Hsl Hl Hall. split; [|by eapply merge_rate].
  intros key_states value_states s He c'. subst c'.
  rewrite (update_later_layer _ _ _ _ nb s Hh Hb He). simpl.
  set (s' := (later_append' _ _ _ _ _).1).
  assert (He' : layer_entry (write_layer layer_idx s'
                               (count_tokens key_states layer_idx c)) layer_idx s')
    by (by apply (layer_entry_write _ _ s), layer_entry_count_tokens).
  rewrite (residual_size_entry _ _ _ He'). subst s'. unfold later_append.
  destruct (merge_due self (s_k s)) eqn:Hm; simpl.
  - apply merge_due_spec in Hm as [Ha _].
    unfold shape_m2. simpl. repeat split; try lia.
    intros Hp. by rewrite Hp in Ha.
  - assert (Hn : is_array (s_k s) = false ∨
                 (shape_m2 (res_rows (s_k s)) + 1 < residual_length self)%Z).
    { unfold merge_due in Hm. apply andb_false_iff in Hm as [Hm|Hm]; [by left|right].
      destruct (Z.geb_spec (shape_m2 (res_rows (s_k s)) + 1) (residual_length self));
        [done|lia]. }
    unfold shape_m2 in *. rewrite length_app.
    repeat split.
    + destruct Hn as [Hn|Hn]; [|lia].
      destruct (s_k s); [simpl; lia|done].
    + intros H1 HR. destruct Hn as [Hn|Hn]; [|lia].
      destruct (s_k s); [simpl; lia|done].
    + intros ->. simpl. lia.
Qed.

(** *** Order of the positions *)

Section Order.
Variable approx : @row pos → @row pos → Prop.
Hypothesis approx_preorder : PreOrder approx.
Hypothesis codec_approx :
  ∀ t axis nbits, Forall2 approx (dequantize (quantize t axis nbits)) t.

Local Abbreviation holds' := (holds dequantize approx).
Local Abbreviation tracks' := (tracks dequantize approx).

Lemma first_append_holds (ks vs : @tensor pos) nbk nbv :
  holds' (first_append' ks vs nbk nbv).1 ks vs.
Proof.
  unfold first_append, holds.
  destruct (force_quant self); [destruct (residual_length self =? 0)%Z|]; simpl.
  - exists ks, vs. rewrite !app_nil_r. auto.
  - eexists _, _. split_and!; [|apply codec_approx| |apply codec_approx];
      symmetry; apply slice_to_from.
  - exists ks, vs. rewrite !app_nil_r. auto.
Qed.

Lemma later_append_holds s (hk hv ks vs : @tensor pos) nbk nbv :
  holds' s hk hv →
  holds' (later_append' s ks vs nbk nbv).1 (hk ++ ks) (hv ++ vs).
Proof.
  intros (ok & ov & -> & Hk & -> & Hv). unfold later_append, holds.
  destruct (merge_due self (s_k s)); simpl.
  - exists (ok ++ res_rows (s_k s) ++ ks), (ov ++ res_rows (s_v s) ++ vs).
    rewrite !app_nil_r, <- !app_assoc.
    split_and!; [done| |done|].
    + etrans; [apply codec_approx|]. by apply Forall2_app.
    + etrans; [apply codec_approx|]. by apply Forall2_app.
  - exists ok, ov. by rewrite <- !app_assoc.
Qed.

Lemma tracks_ext c (hk hv hk' hv' : nat → @tensor pos) :
  (∀ l, hk l = hk' l) → (∀ l, hv l = hv' l) →
  tracks' c hk hv → tracks' c hk' hv'.
Proof.
  intros Ek Ev (Hsl & Hin & Hout). split; [done|]. split.
  - intros l Hl. rewrite <- Ek, <- Ev. by apply Hin.
  - intros l Hl. rewrite <- Ek, <- Ev. by apply Hout.
Qed.

Lemma tracks_count_tokens key_states layer_idx c (hk hv : nat → @tensor pos) :
  tracks' c hk hv → tracks' (count_tokens key_states layer_idx c) hk hv.
Proof.
  intros (Hsl & Hin & Hout). unfold tracks.
  destruct (count_tokens_lists key_states layer_idx c) as (E & _). rewrite E.
  split; [by apply same_length_count_tokens|]. split; [|done].
  intros l Hl. destruct (Hin l Hl) as (s & He & Hs).
  exists s. split; [by apply layer_entry_count_tokens|done].
Qed.

(** What a call adds to the history of layer [l]. *)
Lemma tracks_update key_states value_states layer_idx c (hk hv : nat → @tensor pos) :
  per_head_quant self = false →
  tracks' c hk hv →
  tracks' (update quantize dequantize self key_states value_states layer_idx c).1
    (λ l, hk l ++ if bool_decide (layer_idx = l)
                     && succeeded (update quantize dequantize self key_states
                                     value_states layer_idx c).2
                  then b_rows key_states else [])
    (λ l, hv l ++ if bool_decide (layer_idx = l)
                     && succeeded (update quantize dequantize self key_states
                                     value_states layer_idx c).2
                  then b_rows value_states else []).
Proof.
  intros Hh Ht.
  destruct (decide (length (key_cache c) < layer_idx)) as [Hskip|Hle].
  { rewrite update_skipped by done. simpl.
    eapply tracks_ext; [| |exact Ht]; intros l;
      by rewrite andb_false_r, app_nil_r. }
  destruct (layer_bits self layer_idx) as [nb|] eqn:Hb; cycle 1.
  { rewrite update_no_bits by (done || lia). simpl.
    eapply tracks_ext; [| |by apply tracks_count_tokens]; intros l;
      by rewrite andb_false_r, app_nil_r. }
  apply (tracks_count_tokens key_states layer_idx) in Ht.
  assert (Hlen : length (key_cache (count_tokens key_states layer_idx c))
                 = length (key_cache c))
    by (by destruct (count_tokens_lists key_states layer_idx c) as (-> & _)).
  destruct Ht as (Hsl & Hin & Hout).
  destruct (decide (layer_idx = length (key_cache c))) as [Hnew|Hold].
  - rewrite (update_first_layer _ _ _ _ nb Hh Hb (eq_sym Hnew)). simpl.
    set (c0 := count_tokens key_states layer_idx c) in *.
    set (s0 := (first_append' _ _ _ _).1).
    split; [by apply same_length_push|].
    assert (Hpush : length (key_cache (push_layer s0 c0)) = S layer_idx)
      by (unfold push_layer; simpl; rewrite length_app; simpl; lia).
    rewrite Hpush. split.
    + intros l Hl. destruct (decide (l = layer_idx)) as [->|Hne].
      * exists s0. split.
        { assert (Heq : layer_idx = length (key_cache c0)) by lia.
          pose proof (layer_entry_push s0 c0 Hsl) as Hp.
          by rewrite <- Heq in Hp. }
        rewrite bool_decide_eq_true_2 by done. simpl.
        destruct (Hout layer_idx) as [-> ->]; [lia|]. simpl.
        apply first_append_holds.
      * destruct (Hin l) as (s & He & Hs); [lia|].
        exists s. split; [apply layer_entry_push_lt; [done|lia|done]|].
        rewrite bool_decide_eq_false_2 by done. simpl. by rewrite !app_nil_r.
    + intros l Hl. rewrite bool_decide_eq_false_2 by lia. simpl.
      rewrite !app_nil_r. apply Hout. lia.
  - destruct (Hin layer_idx) as (s & He & Hs); [lia|].
    assert (He0 : layer_entry c layer_idx s).
    { revert He. unfold layer_entry.
      by destruct (count_tokens_lists key_states layer_idx c)
        as (-> & -> & -> & ->). }
    rewrite (update_later_layer _ _ _ _ nb s Hh Hb He0). simpl.
    set (c0 := count_tokens key_states layer_idx c) in *.
    set (s' := (later_append' _ _ _ _ _).1).
    split; [by apply same_length_write|].
    assert (Hw : length (key_cache (write_layer layer_idx s' c0))
                 = length (key_cache c0))
      by (unfold write_layer; simpl; by rewrite length_insert).
    rewrite Hw. split.
    + intros l Hl. destruct (decide (l = layer_idx)) as [->|Hne].
      * exists s'. split; [by apply (layer_entry_write _ _ s)|].
        rewrite bool_decide_eq_true_2 by done. simpl.
        by apply later_append_holds.
      * destruct (Hin l Hl) as (s1 & He1 & Hs1).
        exists s1. split; [by apply layer_entry_write_ne|].
        rewrite bool_decide_eq_false_2 by done. simpl. by rewrite !app_nil_r.
    + intros l Hl. rewrite bool_decide_eq_false_2 by lia. simpl.
      rewrite !app_nil_r. by apply Hout.
Qed.

Lemma run_cons (x : call) calls c :
  run quantize dequantize self (x :: calls) c =
  ((run quantize dequantize self calls
      (update quantize dequantize self (c_keys x) (c_values x) (c_layer x) c).1).1,
   (update quantize dequantize self (c_keys x) (c_values x) (c_layer x) c).2
   :: (run quantize dequantize self calls
         (update quantize dequantize self (c_keys x) (c_values x) (c_layer x) c).1).2).
Proof.
  simpl. destruct (update _ _ _ _ _ _ _) as [c1 r]. simpl.
  by destruct (run _ _ _ _ _) as [c2 rs].
Qed.

Lemma tracks_run calls c (hk hv : nat → @tensor pos) :
  per_head_quant self = false →
  tracks' c hk hv →
  tracks' (run quantize dequantize self calls c).1
    (λ l, hk l ++ appended_keys l calls (run quantize dequantize self calls c).2)
    (λ l, hv l ++ appended_values l calls (run quantize dequantize self calls c).2).
Proof.
  intros Hh. revert c hk hv.
  induction calls as [|x calls IH]; intros c hk hv Ht.
  - simpl. eapply tracks_ext; [| |exact Ht]; intros l; by rewrite app_nil_r.
  - rewrite run_cons. simpl.
    apply (tracks_update (c_keys x) (c_values x) (c_layer x)) in Ht; [|done].
    apply IH in Ht.
    eapply tracks_ext; [| |exact Ht]; intros l; simpl; by rewrite <- app_assoc.
Qed.

Lemma tracks_empty : tracks' empty_cache (λ _, []) (λ _, []).
Proof. split; [done|]. split; [simpl; lia|done]. Qed.

End Order.

(** X24: in per-layer mode, an update of a layer after its first returns
    [dequantize(quantized) ++ residual ++ new], keys and values alike,
    whether or not it merges.  And after any sequence of calls on a fresh
    cache, each layer's history [dequantize(quantized) ++ residual] is the
    positions its successful updates appended, in their order, none lost
    or repeated: the residual holds the last of them as they are, the
    quantized tier the older ones up to the codec's loss. *)
Theorem history_in_order (approx : @row pos → @row pos → Prop)
    key_states value_states layer_idx c nb s (calls : list (@call pos)) :
  PreOrder approx →
  (∀ t axis nbits, Forall2 approx (dequantize (quantize t axis nbits)) t) →
  per_head_quant self = false →
  layer_bits self layer_idx = Some nb →
  layer_entry c layer_idx s →
  (update quantize dequantize self key_states value_states layer_idx c).2 =
    inr (dequantize (s_qk s) ++ res_rows (s_k s) ++ b_rows key_states,
         dequantize (s_qv s) ++ res_rows (s_v s) ++ b_rows value_states) ∧
  ∀ l, l < length (key_cache (run quantize dequantize self calls empty_cache).1) →
    ∃ s', layer_entry (run quantize dequantize self calls empty_cache).1 l s' ∧
          holds dequantize approx s'
            (appended_keys l calls (run quantize dequantize self calls empty_cache).2)
            (appended_values l calls (run quantize dequantize self calls empty_cache).2).
Proof.
  intros Hpre Hcodec Hh Hb He. split.
  - rewrite (update_later_layer _ _ _ _ nb s Hh Hb He). simpl.
    unfold later_append. by destruct (merge_due self (s_k s)).
  - pose proof (tracks_run approx Hpre Hcodec calls empty_cache _ _ Hh
                  (tracks_empty approx)) as (_ & Hin & _).
    exact Hin.
Qed.

(** *** The reported sequence length *)

Lemma run_seen_tokens (calls : list (@call pos)) c :
  _seen_tokens (run quantize dequantize self calls c).1
  = (_seen_tokens c + presented 0 calls)%Z.
Proof.
  revert c. induction calls as [|x calls IH]; intros c.
  - simpl. lia.
  - rewrite run_cons. simpl. rewrite IH, update_seen_tokens.
    unfold count_tokens.
    destruct (c_layer x) as [|n]; simpl; lia.
Qed.

Lemma appended_presented (calls : list (@call pos)) (rs : list outcome) :
  Forall2 (λ x r, c_layer x = 0 → succeeded r = true) calls rs →
  shape_m2 (appended_keys 0 calls rs) = presented 0 calls.
Proof.
  induction 1 as [|x r calls rs Hx _ IH]; [done|].
  simpl. unfold shape_m2 in *. rewrite length_app, Nat2Z.inj_add, IH.
  destruct (bool_decide_reflect (c_layer x = 0)) as [E|_]; simpl; [|lia].
  by rewrite (Hx E).
Qed.

(** C4: [get_seq_length] gives 0 for a layer with no entry yet, and for
    the others [_seen_tokens] at layer 0 and [_seen_tokens - 1] elsewhere;
    on a cache built by any sequence of calls, [_seen_tokens] is the
    number of positions the updates of layer 0 were given, which, when
    none of them raised, is the number of positions appended at layer 0. *)
Theorem get_seq_length_spec c layer_idx (calls : list (@call pos)) :
  get_seq_length c layer_idx =
    (if decide (length (key_cache c) ≤ layer_idx) then 0%Z
     else if decide (layer_idx = 0) then _seen_tokens c
     else (_seen_tokens c - 1)%Z) ∧
  _seen_tokens (run quantize dequantize self calls empty_cache).1 = presented 0 calls ∧
  (Forall2 (λ x r, c_layer x = 0 → succeeded r = true)
     calls (run quantize dequantize self calls empty_cache).2 →
   _seen_tokens (run quantize dequantize self calls empty_cache).1 =
     shape_m2 (appended_keys 0 calls
                 (run quantize dequantize self calls empty_cache).2)).
Proof.
  split; [|split].
  - unfold get_seq_length.
    destruct (Nat.leb_spec (length (key_cache c)) layer_idx);
      destruct (decide (length (key_cache c) ≤ layer_idx)); try lia; try done.
    destruct (Nat.eqb_spec layer_idx 0); destruct (decide (layer_idx = 0)); done.
  - rewrite run_seen_tokens. simpl. lia.
  - intros Hok. rewrite run_seen_tokens, (appended_presented _ _ Hok). simpl. lia.
Qed.

End Properties.

(** ** Backend A *)

Lemma quanto_init_accepts cfg :
  FlexibleQuantoQuantizedCache_init cfg = inr () ↔
  nbits cfg ∈ [2; 4; 8]%Z ∧ axis_key cfg ∈ [0; -1]%Z ∧ axis_value cfg ∈ [0; -1]%Z.
Proof.
  unfold FlexibleQuantoQuantizedCache_init.
  repeat case_bool_decide; simpl; split; try done; intros (? & ? & ?); done.
Qed.

(** C9, where the code departs from it: the constructor of the quanto
    cache checks the attribute [nbits] only.  The configuration
    [FlexibleQuantizedCacheConfig(backend="quanto", nbits=4, nbits_key=3)]
    is accepted, [get_qtype(3)] gives no type, and the first update hands
    [quantize_weight] that missing type for the keys without raising. *)
Theorem quanto_accepts_unsupported_key_bits
    {pos blob : Type}
    (quantize_weight : @tensor pos → option qtype → Z → Z → blob)
    (dequantize : blob → @tensor pos) (key_states value_states : @block pos) :
  ∃ cfg,
    FlexibleQuantizedCacheConfig quanto 4 3 0 0 0 false 64 128 false
      false None None false None None = inr cfg ∧
    nbits_key cfg = 3%Z ∧
    FlexibleQuantoQuantizedCache_init cfg = inr () ∧
    get_qtype (nbits_key cfg) = None ∧
    update (FlexibleQuantoQuantizedCache_quantize quantize_weight cfg) dequantize cfg
      key_states value_states 0 empty_cache =
      (Cache (shape_m2 (b_rows key_states))
         [Layer Placeholder] [Layer Placeholder]
         [Layer (quantize_weight (b_rows key_states) None 0%Z 64%Z)]
         [Layer (quantize_weight (b_rows value_states) (Some qint4) 0%Z 64%Z)],
       inr (b_rows key_states, b_rows value_states)).
Proof. eexists. split; [reflexivity|]. by split_and!. Qed.

(** ** The theorems at concrete inputs *)

Lemma update_skipped_layer_raises_witness :
  update round_quantize round_dequantize (scenario_config false)
    (Block 1 [[7%Z]]) (Block 1 [[7%Z]]) 2 empty_cache
  = (empty_cache, inl SequentialAccessError).
Proof.
  apply (update_skipped_layer_raises round_quantize round_dequantize
           (scenario_config false) (Block 1 [[7%Z]]) (Block 1 [[7%Z]]) 2 empty_cache).
  simpl. lia.
Defined.

Lemma update_head_mismatch_raises_witness :
  ∃ c', update round_quantize round_dequantize two_heads_config
          (Block 3 [[1; 10; 100]; [2; 20; 200]]%Z)
          (Block 3 [[1; 10; 100]; [2; 20; 200]]%Z) 0 empty_cache
        = (c', inl ConfigError) ∧
        key_cache c' = [] ∧ value_cache c' = [] ∧
        _quantized_key_cache c' = [] ∧ _quantized_value_cache c' = [].
Proof.
  apply (update_head_mismatch_raises round_quantize round_dequantize two_heads_config
           (Block 3 [[1; 10; 100]; [2; 20; 200]]%Z)
           (Block 3 [[1; 10; 100]; [2; 20; 200]]%Z) 0 empty_cache
           [(0, Bits 4 4); (1, Bits 2 2)]).
  - reflexivity.
  - simpl. lia.
  - reflexivity.
  - reflexivity.
  - simpl. lia.
Defined.

Lemma update_counts_tokens_first_witness :
  update round_quantize round_dequantize two_heads_config
    (Block 3 [[1; 10; 100]; [2; 20; 200]]%Z)
    (Block 3 [[1; 10; 100]; [2; 20; 200]]%Z) 0 empty_cache
  = (Cache 2 [] [] [] [], inl ConfigError) ∧
  _seen_tokens (Cache (pos:=Z) (blob:=list (list Z)) 2 [] [] [] []) = (0 + 2)%Z.
Proof.
  split; [reflexivity|].
  apply (update_counts_tokens_first round_quantize round_dequantize two_heads_config
           (Block 3 [[1; 10; 100]; [2; 20; 200]]%Z)
           (Block 3 [[1; 10; 100]; [2; 20; 200]]%Z) empty_cache
           (Cache 2 [] [] [] []) (inl ConfigError)).
  reflexivity.
Defined.

Lemma first_update_quantizes_block_witness :
  update round_quantize round_dequantize (scenario_config false)
    (Block 1 [[5]; [6]]%Z) (Block 1 [[7]; [9]]%Z) 0 empty_cache
  = (Cache 2 [Layer Placeholder] [Layer Placeholder]
       [Layer [[1]; [1]]%Z] [Layer [[1]; [2]]%Z],
     inr ([[5]; [6]]%Z, [[7]; [9]]%Z)).
Proof.
  exact (first_update_quantizes_block round_quantize round_dequantize
           (scenario_config false) (Block 1 [[5]; [6]]%Z) (Block 1 [[7]; [9]]%Z)
           0 empty_cache (Bits 4 4) eq_refl eq_refl eq_refl eq_refl).
Defined.

(** C2 as stated fails: after the first update without [force_quant] the
    residual is the empty placeholder, not the incoming block, and the
    quantized tier already holds the quantized block. *)
Lemma first_update_residual_is_not_block :
  let c' := (update round_quantize round_dequantize (scenario_config false)
               (Block 1 [[5]; [6]]%Z) (Block 1 [[7]; [9]]%Z) 0 empty_cache).1 in
  key_cache c' = [Layer Placeholder] ∧
  _quantized_key_cache c' = [Layer (round_quantize [[5]; [6]]%Z 0 4)] ∧
  ¬ (∃ s, layer_entry c' 0 s ∧ res_rows (s_k s) = [[5]; [6]]%Z).
Proof.
  split; [reflexivity|]. split; [reflexivity|].
  intros (s & (_ & _ & Hk & _) & Hres).
  assert (E : Some (Layer (@Placeholder Z)) = Some (Layer (s_k s))) by exact Hk.
  injection E as E. by rewrite <- E in Hres.
Qed.

Lemma first_update_force_quant_witness :
  update round_quantize round_dequantize (scenario_config true)
    (Block 1 [[1]; [2]; [3]; [4]; [5]; [6]]%Z)
    (Block 1 [[1]; [2]; [3]; [4]; [5]; [6]]%Z) 0 empty_cache
  = (Cache 6 [Layer (Arr [[5]; [6]]%Z)] [Layer (Arr [[5]; [6]]%Z)]
       [Layer [[0]; [0]; [0]; [1]]%Z] [Layer [[0]; [0]; [0]; [1]]%Z],
     inr ([[0]; [0]; [0]; [4]; [5]; [6]]%Z, [[0]; [0]; [0]; [4]; [5]; [6]]%Z)) ∧
  length (A:=list Z) [[5]; [6]]%Z = 2.
Proof.
  refine (first_update_force_quant round_quantize round_dequantize
            (scenario_config true)
            (Block 1 [[1]; [2]; [3]; [4]; [5]; [6]]%Z)
            (Block 1 [[1]; [2]; [3]; [4]; [5]; [6]]%Z)
            0 empty_cache (Bits 4 4) eq_refl eq_refl eq_refl eq_refl _).
  right. vm_compute. split; [reflexivity|discriminate].
Defined.

(** C6 as stated fails for [residual_length == 0]: the whole block is
    quantized at once and nothing of it stays as residual. *)
Lemma force_quant_zero_residual_keeps_nothing :
  let c' := (update round_quantize round_dequantize zero_residual_config
               (Block 1 [[1]; [2]; [3]]%Z) (Block 1 [[1]; [2]; [3]]%Z)
               0 empty_cache).1 in
  key_cache c' = [Layer Placeholder] ∧
  _quantized_key_cache c' = [Layer (round_quantize [[1]; [2]; [3]]%Z 0 4)] ∧
  ¬ (∃ s, layer_entry c' 0 s ∧ res_rows (s_k s) = [[1]; [2]; [3]]%Z).
Proof.
  split; [reflexivity|]. split; [reflexivity|].
  intros (s & (_ & _ & Hk & _) & Hres).
  assert (E : Some (Layer (@Placeholder Z)) = Some (Layer (s_k s))) by exact Hk.
  injection E as E. by rewrite <- E in Hres.
Qed.

(** C1 as stated fails: with [residual_length = 4] and the default
    configuration, the ten single-position steps at layer 0 do not merge
    after steps 4 and 8; after step 4 the residual holds three positions
    and the quantized tier is still that of step 1. *)
Lemma scenario_merges_not_after_4_and_8 :
  merge_steps round_quantize round_dequantize (scenario_config false)
    (single_steps Z.of_nat 10) empty_cache ≠ [4; 8] ∧
  (run round_quantize round_dequantize (scenario_config false)
     (single_steps Z.of_nat 4) empty_cache).1
  = Cache 4 [Layer (Arr [[2]; [3]; [4]]%Z)] [Layer (Arr [[2]; [3]; [4]]%Z)]
      [Layer (round_quantize [[1%Z]] 0 4)] [Layer (round_quantize [[1%Z]] 0 4)].
Proof. split; [vm_compute; discriminate|reflexivity]. Qed.

(** C5 as stated fails: a block of six positions appended after the first
    update stays whole in the residual, beyond [residual_length = 4]. *)
Lemma residual_exceeds_residual_length :
  let c' := (run round_quantize round_dequantize (scenario_config false)
               [Call (Block 1 [[1%Z]]) (Block 1 [[1%Z]]) 0;
                Call (Block 1 [[2]; [3]; [4]; [5]; [6]; [7]]%Z)
                     (Block 1 [[2]; [3]; [4]; [5]; [6]; [7]]%Z) 0]
               empty_cache).1 in
  key_cache c' = [Layer (Arr [[2]; [3]; [4]; [5]; [6]; [7]]%Z)] ∧
  ¬ (residual_size c' 0 ≤ residual_length (scenario_config false))%Z.
Proof. split; [reflexivity|]. vm_compute. intros H. by apply H. Qed.

Lemma close_preorder : PreOrder close.
Proof.
  assert (PreOrder (λ a b : Z, a `div` 4 = b `div` 4)%Z) as HR.
  { split; [intros a; reflexivity|intros a b d Hab Hbd; congruence]. }
  change (PreOrder (Forall2 (λ a b : Z, a `div` 4 = b `div` 4)%Z)). apply _.
Qed.

Lemma round_codec_close (t : list (list Z)) (axis nbits : Z) :
  Forall2 close (round_dequantize (round_quantize t axis nbits)) t.
Proof.
  unfold round_dequantize, round_quantize.
  induction t as [|r t IH]; simpl; constructor; [|exact IH].
  clear IH. induction r as [|z r IH]; simpl; constructor; [|exact IH].
  apply Z.div_mul. lia.
Qed.

Lemma history_in_order_witness :
  let calls := single_steps Z.of_nat 6 in
  let final := run round_quantize round_dequantize (scenario_config false)
                 calls empty_cache in
  appended_keys 0 calls final.2 = [[1]; [2]; [3]; [4]; [5]; [6]]%Z ∧
  ∃ s', layer_entry final.1 0 s' ∧
        holds round_dequantize close s'
          (appended_keys 0 calls final.2) (appended_values 0 calls final.2).
Proof.
  split; [reflexivity|].
  refine (proj2
    (history_in_order round_quantize round_dequantize (scenario_config false)
       close (Block 1 [[5%Z]]) (Block 1 [[5%Z]]) 0
       (run round_quantize round_dequantize (scenario_config false)
          (single_steps Z.of_nat 4) empty_cache).1
       (Bits 4 4)
       (Stored [[0]]%Z [[0]]%Z (Arr [[2]; [3]; [4]]%Z) (Arr [[2]; [3]; [4]]%Z))
       (single_steps Z.of_nat 6)
       close_preorder round_codec_close eq_refl eq_refl _) 0 _).
  - repeat split.
  - vm_compute. lia.
Defined.

Lemma get_seq_length_spec_witness :
  let final := run round_quantize round_dequantize (scenario_config false)
                 (single_steps Z.of_nat 10) empty_cache in
  get_seq_length final.1 0 = _seen_tokens final.1 ∧
  _seen_tokens final.1 = 10%Z ∧
  get_seq_length final.1 1 = 0%Z.
Proof.
  pose proof (get_seq_length_spec round_quantize round_dequantize
                (scenario_config false)
                (run round_quantize round_dequantize (scenario_config false)
                   (single_steps Z.of_nat 10) empty_cache).1 0
                (single_steps Z.of_nat 10)) as (H0 & Hs & _).
  split; [exact H0|]. split; [exact Hs|reflexivity].
Defined.

(** With [force_quant], a first block whose length is a multiple of
    [residual_length] has [tokens_to_keep = 0]: the slice [:-0] is empty
    and the slice [-0:] is the whole block, so nothing is quantized and the
    residual holds all eight positions. *)
Example force_quant_exact_multiple :
  update round_quantize round_dequantize (scenario_config true)
    (Block 1 [[1]; [2]; [3]; [4]; [5]; [6]; [7]; [8]]%Z)
    (Block 1 [[1]; [2]; [3]; [4]; [5]; [6]; [7]; [8]]%Z) 0 empty_cache
  = (Cache 8 [Layer (Arr [[1]; [2]; [3]; [4]; [5]; [6]; [7]; [8]]%Z)]
       [Layer (Arr [[1]; [2]; [3]; [4]; [5]; [6]; [7]; [8]]%Z)]
       [Layer (round_quantize [] 0 4)] [Layer (round_quantize [] 0 4)],
     inr ([[1]; [2]; [3]; [4]; [5]; [6]; [7]; [8]]%Z,
          [[1]; [2]; [3]; [4]; [5]; [6]; [7]; [8]]%Z)).
Proof. reflexivity. Qed.

(** Per-head mode, two heads: the first update quantizes each head's
    slice with the head's own bit widths and returns the block. *)
Example per_head_first_update :
  update round_quantize round_dequantize two_heads_config
    (Block 2 [[1; 10]; [2; 20]]%Z) (Block 2 [[1; 10]; [2; 20]]%Z) 0 empty_cache
  = (Cache 2 [Heads [Placeholder; Placeholder]] [Heads [Placeholder; Placeholder]]
       [Heads [round_quantize [[1]; [2]]%Z 0 4; round_quantize [[10]; [20]]%Z 0 2]]
       [Heads [round_quantize [[1]; [2]]%Z 0 4; round_quantize [[10]; [20]]%Z 0 2]],
     inr ([[1; 10]; [2; 20]]%Z, [[1; 10]; [2; 20]]%Z)).
Proof. reflexivity. Qed.

(** ** Beyond the two tiers of one layer *)

Section Effects_facts.
Context {pos blob : Type}.
Variable P : @cache pos blob → @cache pos blob → Prop.
Hypothesis P_refl : Reflexive P.
Hypothesis P_trans : Transitive P.

Lemma always_ret {A} (a : A) : always P (ret a).
Proof. intros c. apply P_refl. Qed.

Lemma always_raise {A} (e : exn) : always P (raise (A:=A) e).
Proof. intros c. apply P_refl. Qed.

Lemma always_get : always P get.
Proof. intros c. apply P_refl. Qed.

Lemma always_lift {A} (e : exn) (o : option A) : always P (lift e o).
Proof. destruct o; [apply always_ret|apply always_raise]. Qed.

Lemma always_lift_exn {A} (r : exn + A) : always P (lift_exn r).
Proof. destruct r; [apply always_raise|apply always_ret]. Qed.

Lemma always_modify (f : @cache pos blob → @cache pos blob) :
  (∀ c, P c (f c)) → always P (modify f).
Proof. intros Hf c. apply Hf. Qed.

Lemma always_bind {A B} (m : M A) (k : A → M B) :
  always P m → (∀ a, always P (k a)) → always P (bind m k).
Proof.
  intros Hm Hk c. unfold bind. specialize (Hm c).
  destruct (m c) as [c1 [e|a]]; [exact Hm|].
  eapply P_trans; [exact Hm|apply Hk].
Qed.

Lemma always_read_layer layer_idx : always P (read_layer layer_idx).
Proof.
  unfold read_layer.
  repeat (apply always_bind; [first [apply always_get|apply always_lift_exn]|intros ?]).
  apply always_ret.
Qed.

Lemma always_read_head layer_idx head_idx : always P (read_head layer_idx head_idx).
Proof.
  unfold read_head.
  repeat (apply always_bind; [first [apply always_get|apply always_lift_exn]|intros ?]).
  apply always_ret.
Qed.

Variable quantize : @tensor pos → Z → Z → blob.
Variable dequantize : blob → @tensor pos.
Variable self : cache_config.

Lemma always_first_heads key_states value_states layer_idx items ks vs :
  (∀ s c, P c (push_head layer_idx s c)) →
  always P (first_heads quantize dequantize self key_states value_states
              layer_idx items ks vs).
Proof.
  intros Hp. revert ks vs.
  induction items as [|[head_idx config] items IH]; intros ks vs; simpl.
  - apply always_ret.
  - apply always_bind; [apply always_lift|intros kh].
    apply always_bind; [apply always_lift|intros vh].
    destruct (first_append _ _ _ kh vh _ _) as [s [k v]].
    apply always_bind; [apply always_modify, Hp|intros _]. apply IH.
Qed.

Lemma always_later_heads key_states value_states layer_idx items ks vs :
  (∀ head_idx s c, P c (write_head layer_idx head_idx s c)) →
  always P (later_heads quantize dequantize self key_states value_states
              layer_idx items ks vs).
Proof.
  intros Hp. revert ks vs.
  induction items as [|[head_idx config] items IH]; intros ks vs; simpl.
  - apply always_ret.
  - apply always_bind; [apply always_read_head|intros s].
    apply always_bind; [apply always_lift|intros kh].
    apply always_bind; [apply always_lift|intros vh].
    apply always_bind.
    { destruct (merge_due self (s_k s)); [|apply always_ret].
      apply always_bind; [apply always_lift|intros k].
      apply always_bind; [apply always_lift|intros v]. apply always_ret. }
    intros s'. apply always_bind; [apply always_modify, Hp|intros _]. apply IH.
Qed.

Lemma unchanged_ret {A} (a : A) : unchanged (ret (pos:=pos) (blob:=blob) a).
Proof. done. Qed.

Lemma unchanged_lift {A} (e : exn) (o : option A) :
  unchanged (lift (pos:=pos) (blob:=blob) e o).
Proof. by destruct o. Qed.

Lemma unchanged_read_layer layer_idx :
  unchanged (read_layer (pos:=pos) (blob:=blob) layer_idx).
Proof.
  intros c. unfold read_layer, bind, get, lift_exn, raise, ret.
  repeat (match goal with
          | |- context [layer_of ?o] => destruct (layer_of o)
          end; simpl; try done).
Qed.

(** [bind] at one cache. *)
Lemma at_bind {A B} (m : M A) (k : A → M B) c :
  P c (m c).1 → (∀ a, always P (k a)) → P c (bind m k c).1.
Proof.
  intros Hm Hk. unfold bind.
  destruct (m c) as [c1 [e|a]]; [exact Hm|].
  eapply P_trans; [exact Hm|apply Hk].
Qed.

Lemma at_bind_unchanged {A B} (m : M A) (k : A → M B) c :
  unchanged m → (∀ a, P c (k a c).1) → P c (bind m k c).1.
Proof.
  intros Hm Hk. unfold bind. specialize (Hm c).
  destruct (m c) as [c1 [e|a]]; simpl in Hm; subst c1; [apply P_refl|apply Hk].
Qed.

(** A relation every mutation of [update] respects holds between the cache
    a call finds and the one it leaves.  The two mutations that create a
    layer only run on a cache with [layer_idx] layers. *)
Lemma always_update key_states value_states layer_idx :
  (∀ c, P c (count_tokens key_states layer_idx c)) →
  (∀ s c, length (key_cache c) = layer_idx → P c (push_layer s c)) →
  (∀ s c, P c (write_layer layer_idx s c)) →
  (∀ c, length (key_cache c) = layer_idx → P c (push_empty_heads c)) →
  (∀ s c, P c (push_head layer_idx s c)) →
  (∀ head_idx s c, P c (write_head layer_idx head_idx s c)) →
  always P (update quantize dequantize self key_states value_states layer_idx).
Proof.
  intros Hcount Hpush Hwrite Hempty Hhead Hwhead. unfold update.
  apply always_bind; [apply always_modify, Hcount|intros _].
  intros c. unfold bind at 1, get at 1.
  destruct (length (key_cache c) <? layer_idx); [apply always_raise|].
  destruct (negb (per_head_quant self)).
  - apply at_bind_unchanged.
    { destruct (negb (per_layer_quant self));
        [apply unchanged_ret|apply unchanged_lift]. }
    intros nb. destruct (Nat.eqb_spec (length (key_cache c)) layer_idx) as [E|E].
    + destruct (first_append _ _ _ _ _ _ _) as [s out]. by apply Hpush.
    + apply at_bind_unchanged; [apply unchanged_read_layer|intros s].
      destruct (later_append _ _ _ _ _ _ _ _) as [s' out]. apply Hwrite.
  - destruct (negb (b_heads key_states =? b_heads value_states));
      [apply always_raise|].
    apply at_bind_unchanged; [apply unchanged_lift|intros table].
    destruct (negb (b_heads key_states =? length table)); [apply always_raise|].
    apply at_bind.
    + destruct (Nat.eqb_spec (length (key_cache c)) layer_idx) as [E|E].
      * apply at_bind; [by apply Hempty|intros _]. by apply always_first_heads.
      * by apply always_later_heads.
    + intros [ks vs].
      apply always_bind; [apply always_lift|intros k].
      apply always_bind; [apply always_lift|intros v]. apply always_ret.
Qed.

End Effects_facts.

Section Layers.
Context {pos blob : Type}.
Variable quantize : @tensor pos → Z → Z → blob.
Variable dequantize : blob → @tensor pos.
Variable self : cache_config.

Implicit Types (c : @cache pos blob) (s : @stored pos blob).

Lemma frame_refl layer_idx : Reflexive (frame (pos:=pos) (blob:=blob) layer_idx).
Proof. intros c l _. auto. Qed.

Lemma frame_trans layer_idx : Transitive (frame (pos:=pos) (blob:=blob) layer_idx).
Proof.
  intros c1 c2 c3 H12 H23 l Hl.
  destruct (H12 l Hl) as (A1 & A2 & A3 & A4).
  destruct (H23 l Hl) as (B1 & B2 & B3 & B4).
  split_and!; intros x Hx; auto.
Qed.

Lemma frame_count_tokens (key_states : @block pos) l layer_idx c :
  frame layer_idx c (count_tokens key_states l c).
Proof.
  intros l' _.
  destruct (count_tokens_lists key_states l c) as (-> & -> & -> & ->). auto.
Qed.

Lemma frame_push_layer layer_idx s c : frame layer_idx c (push_layer s c).
Proof. intros l _. simpl. split_and!; intros x; apply lookup_app_l_Some. Qed.

Lemma frame_push_empty_heads layer_idx c : frame layer_idx c (push_empty_heads c).
Proof. intros l _. simpl. split_and!; intros x; apply lookup_app_l_Some. Qed.

Lemma frame_write_layer layer_idx s c : frame layer_idx c (write_layer layer_idx s c).
Proof.
  intros l Hl. simpl.
  split_and!; intros x; by rewrite list_lookup_insert_ne.
Qed.

Lemma frame_push_head layer_idx s c : frame layer_idx c (push_head layer_idx s c).
Proof.
  intros l Hl. simpl.
  split_and!; intros x; by rewrite list_lookup_alter_ne.
Qed.

Lemma frame_write_head layer_idx head_idx s c :
  frame layer_idx c (write_head layer_idx head_idx s c).
Proof.
  intros l Hl. simpl.
  split_and!; intros x; by rewrite list_lookup_alter_ne.
Qed.

(** X1: a call of [update] for one layer, in either mode and whether it
    returns or raises, leaves the slots of every other layer in the four
    lists as they were. *)
Theorem update_leaves_other_layers (key_states value_states : @block pos)
    layer_idx c :
  frame layer_idx c
    (update quantize dequantize self key_states value_states layer_idx c).1.
Proof.
  apply (always_update (frame layer_idx) (frame_refl layer_idx)
           (frame_trans layer_idx)).
  - intros c0. apply frame_count_tokens.
  - intros s c0 _. apply frame_push_layer.
  - intros s c0. apply frame_write_layer.
  - intros c0 _. apply frame_push_empty_heads.
  - intros s c0. apply frame_push_head.
  - intros h s c0. apply frame_write_head.
Qed.

Lemma same_sizes_refl : Reflexive (same_sizes (pos:=pos) (blob:=blob)).
Proof. intros c. by split_and!. Qed.

Lemma same_sizes_trans : Transitive (same_sizes (pos:=pos) (blob:=blob)).
Proof.
  intros c1 c2 c3 (A1 & A2 & A3 & A4) (B1 & B2 & B3 & B4).
  split_and!; congruence.
Qed.

Lemma same_sizes_count_tokens (key_states : @block pos) l c :
  same_sizes c (count_tokens key_states l c).
Proof.
  unfold same_sizes.
  destruct (count_tokens_lists key_states l c) as (-> & -> & -> & ->). done.
Qed.

Lemma same_sizes_write_layer layer_idx s c :
  same_sizes c (write_layer layer_idx s c).
Proof. unfold same_sizes. simpl. by rewrite !length_insert. Qed.

Lemma same_sizes_push_head layer_idx s c : same_sizes c (push_head layer_idx s c).
Proof. unfold same_sizes. simpl. by rewrite !length_alter. Qed.

Lemma same_sizes_write_head layer_idx head_idx s c :
  same_sizes c (write_head layer_idx head_idx s c).
Proof. unfold same_sizes. simpl. by rewrite !length_alter. Qed.

Lemma grows_at_refl layer_idx : Reflexive (grows_at (pos:=pos) (blob:=blob) layer_idx).
Proof. intros c. left. apply same_sizes_refl. Qed.

Lemma grows_at_trans layer_idx :
  Transitive (grows_at (pos:=pos) (blob:=blob) layer_idx).
Proof.
  intros c1 c2 c3 [H12|H12] [H23|H23].
  - left. by eapply same_sizes_trans.
  - right. destruct H12 as (A1 & A2 & A3 & A4).
    destruct H23 as (B0 & B1 & B2 & B3 & B4). split_and!; congruence.
  - right. destruct H23 as (A1 & A2 & A3 & A4).
    destruct H12 as (B0 & B1 & B2 & B3 & B4). split_and!; congruence.
  - destruct H12 as (B0 & B1 & _). destruct H23 as (C0 & _). lia.
Qed.

Lemma update_grows_at (key_states value_states : @block pos) layer_idx c :
  grows_at layer_idx c
    (update quantize dequantize self key_states value_states layer_idx c).1.
Proof.
  apply (always_update (grows_at layer_idx) (grows_at_refl layer_idx)
           (grows_at_trans layer_idx)).
  - intros c0. left. apply same_sizes_count_tokens.
  - intros s c0 E. right. simpl. rewrite !length_app. simpl. split_and!; lia.
  - intros s c0. left. apply same_sizes_write_layer.
  - intros c0 E. right. simpl. rewrite !length_app. simpl. split_and!; lia.
  - intros s c0. left. apply same_sizes_push_head.
  - intros h s c0. left. apply same_sizes_write_head.
Qed.

Lemma update_same_length (key_states value_states : @block pos) layer_idx c :
  same_length c →
  same_length
    (update quantize dequantize self key_states value_states layer_idx c).1.
Proof.
  intros (H1 & H2 & H3).
  destruct (update_grows_at key_states value_states layer_idx c)
    as [(A1 & A2 & A3 & A4)|(_ & A1 & A2 & A3 & A4)];
    unfold same_length; split_and!; lia.
Qed.

(** X2: a call of [update] during which the backend's [_quantize] and
    [_dequantize] return, in either mode and whether the call itself
    returns or raises (a skipped layer, a missing entry of a table, a head
    count that does not match, an index out of range), never removes a
    layer: either the four lists keep their lengths, or the call is for
    the next layer to create and each of the four lists gets exactly one
    slot more. *)
Theorem update_creates_at_most_one_layer (key_states value_states : @block pos)
    layer_idx c :
  grows_at layer_idx c
    (update quantize dequantize self key_states value_states layer_idx c).1.
Proof. apply update_grows_at. Qed.

(** X3: after any sequence of calls on a fresh cache during which the
    backend's [_quantize] and [_dequantize] return, in either mode and
    whatever else raised on the way, the four lists have the same length,
    and there are at most as many layers as there were calls. *)
Theorem run_keeps_lists_aligned (calls : list (@call pos)) :
  same_length (run quantize dequantize self calls empty_cache).1 ∧
  length (key_cache (run quantize dequantize self calls empty_cache).1)
  ≤ length calls.
Proof.
  assert (∀ c, same_length c →
            same_length (run quantize dequantize self calls c).1 ∧
            length (key_cache (run quantize dequantize self calls c).1)
            ≤ length (key_cache c) + length calls) as H.
  { induction calls as [|x calls IH]; intros c Hc.
    - simpl. split; [done|lia].
    - rewrite run_cons. simpl.
      destruct (IH _ (update_same_length (c_keys x) (c_values x) (c_layer x) c Hc))
        as [Hs Hl].
      split; [done|].
      destruct (update_grows_at (c_keys x) (c_values x) (c_layer x) c)
        as [(A1 & _)|(_ & A1 & _)]; lia. }
  destruct (H empty_cache) as [Hs Hl]; [by split_and!|]. split; [done|].
  simpl in Hl. lia.
Qed.

End Layers.

Section Counter.
Context {pos blob : Type}.
Variable quantize : @tensor pos → Z → Z → blob.
Variable dequantize : blob → @tensor pos.
Variable self : cache_config.

Implicit Types (c : @cache pos blob) (s : @stored pos blob).

(** X4: a call of [update] for a layer other than 0 leaves [_seen_tokens]
    as it was, in either mode and whether it returns or raises; so
    [get_seq_length] of a layer changes only with updates of layer 0 or
    with the creation of that layer. *)
Theorem update_of_other_layers_keeps_counter
    (key_states value_states : @block pos) layer_idx c :
  layer_idx ≠ 0 →
  _seen_tokens
    (update quantize dequantize self key_states value_states layer_idx c).1
  = _seen_tokens c.
Proof.
  intros Hne. rewrite update_seen_tokens. unfold count_tokens.
  by destruct layer_idx.
Qed.

(** *** No two merges in a row *)

(** X5: in per-layer mode, the update that follows a merge of a layer
    never merges, whatever [residual_length] is: the merge leaves the
    empty placeholder, which the condition of lines 206-209 excludes. *)
Theorem no_merge_right_after_merge (key_states value_states : @block pos)
    layer_idx c nb s :
  per_head_quant self = false →
  layer_bits self layer_idx = Some nb →
  layer_entry c layer_idx s →
  merges self c layer_idx = true →
  merges self
    (update quantize dequantize self key_states value_states layer_idx c).1
    layer_idx = false.
Proof.
  intros Hh Hb He Hm.
  rewrite (merges_entry _ _ _ _ He) in Hm.
  rewrite (update_later_layer _ _ _ _ _ _ _ nb s Hh Hb He). simpl.
  erewrite merges_entry;
    [|by apply (layer_entry_write _ _ s), layer_entry_count_tokens].
  unfold later_append. by rewrite Hm.
Qed.

(** *** [force_quant] and a block that fills whole groups *)

(** X6: with [force_quant] and [residual_length] not 0, a first block
    whose length is a multiple of [residual_length] has
    [tokens_to_keep = 0]; the slices [:-0] and [-0:] then quantize the
    empty tensor and keep the whole block as residual. *)
Theorem force_quant_whole_groups_stay_residual
    (key_states value_states : @block pos) layer_idx c nb :
  per_head_quant self = false →
  force_quant self = true →
  layer_bits self layer_idx = Some nb →
  length (key_cache c) = layer_idx →
  residual_length self ≠ 0%Z →
  (shape_m2 (b_rows key_states) `mod` residual_length self = 0)%Z →
  update quantize dequantize self key_states value_states layer_idx c =
    (push_layer
       (Stored (quantize [] (axis_key self) (cfg_nbits_key nb))
               (quantize [] (axis_value self) (cfg_nbits_value nb))
               (Arr (b_rows key_states)) (Arr (b_rows value_states)))
       (count_tokens key_states layer_idx c),
     inr (dequantize (quantize [] (axis_key self) (cfg_nbits_key nb))
            ++ b_rows key_states,
          dequantize (quantize [] (axis_value self) (cfg_nbits_value nb))
            ++ b_rows value_states)).
Proof.
  intros Hh Hf Hb Hlen HR Hmod.
  rewrite (update_first_layer _ _ _ _ _ _ _ nb Hh Hb Hlen).
  unfold first_append. rewrite Hf, Hmod.
  destruct (Z.eqb_spec (residual_length self) 0); [done|]. simpl.
  unfold slice_to, slice_from, slice_index. simpl.
  by rewrite !take_0, !drop_0.
Qed.

End Counter.

Section Reported_length.
Context {pos blob : Type}.
Variable quantize : @tensor pos → Z → Z → blob.
Variable dequantize : blob → @tensor pos.
Variable self : cache_config.
Hypothesis per_layer_mode : per_head_quant self = false.
Hypothesis codec_length :
  ∀ t axis nbits, length (dequantize (quantize t axis nbits)) = length t.

Implicit Types (c : @cache pos blob) (s : @stored pos blob).

Local Abbreviation any := (λ _ _ : @row pos, True).

Lemma any_preorder : PreOrder any.
Proof. by split. Qed.

Lemma codec_any t axis nbits :
  Forall2 any (dequantize (quantize t axis nbits)) t.
Proof. apply Forall2_true; [done|apply codec_length]. Qed.

Lemma update_layer_succeeds (key_states value_states : @block pos)
    layer_idx nb c hk hv :
  layer_bits self layer_idx = Some nb →
  layer_idx ≤ length (key_cache c) →
  tracks dequantize any c hk hv →
  succeeded
    (update quantize dequantize self key_states value_states layer_idx c).2
  = true.
Proof.
  intros Hb Hle (_ & Hin & _).
  destruct (decide (layer_idx = length (key_cache c))) as [E|E].
  - by rewrite (update_first_layer _ _ _ _ _ _ _ nb per_layer_mode Hb (eq_sym E)).
  - destruct (Hin layer_idx) as (s & He & _); [lia|].
    by rewrite (update_later_layer _ _ _ _ _ _ _ nb s per_layer_mode Hb He).
Qed.

Lemma run_layer0_succeeds nb (calls : list (@call pos)) :
  layer_bits self 0 = Some nb →
  ∀ c hk hv, tracks dequantize any c hk hv →
  Forall2 (λ x r, c_layer x = 0 → succeeded r = true)
    calls (run quantize dequantize self calls c).2.
Proof.
  intros Hb. induction calls as [|x calls IH]; intros c hk hv Ht.
  - constructor.
  - rewrite run_cons. simpl. constructor.
    + intros E. rewrite E.
      apply (update_layer_succeeds _ _ _ nb c hk hv Hb); [lia|done].
    + eapply IH.
      apply (tracks_update quantize dequantize self any any_preorder codec_any
               (c_keys x) (c_values x) (c_layer x) c hk hv per_layer_mode Ht).
Qed.

(** X7: in per-layer mode, with a codec that keeps the number of
    positions and bit widths configured for layer 0, the length
    [get_seq_length(0)] reports after any sequence of calls on a fresh
    cache is the length of what layer 0 holds,
    [dequantize(quantized) ++ residual]. *)
Theorem reported_length_is_stored_length nb (calls : list (@call pos)) s :
  layer_bits self 0 = Some nb →
  layer_entry (run quantize dequantize self calls empty_cache).1 0 s →
  get_seq_length (run quantize dequantize self calls empty_cache).1 0
  = shape_m2 (dequantize (s_qk s) ++ res_rows (s_k s)).
Proof.
  intros Hb He.
  pose proof (tracks_run quantize dequantize self any any_preorder codec_any
                calls empty_cache _ _ per_layer_mode (tracks_empty dequantize any))
    as (_ & Hin & _).
  pose proof (layer_entry_lt _ _ _ He) as Hlt.
  destruct (Hin 0 Hlt) as (s' & He' & ok & ov & Hk & Hok & _).
  assert (s_qk s' = s_qk s ∧ s_k s' = s_k s) as [Eq Ek].
  { destruct He as (A1 & _ & A3 & _), He' as (B1 & _ & B3 & _).
    rewrite A1 in B1. rewrite A3 in B3. by simplify_eq. }
  rewrite Eq, Ek in *. simpl in Hk.
  unfold get_seq_length.
  destruct (Nat.leb_spec (length (key_cache
              (run quantize dequantize self calls empty_cache).1)) 0); [lia|].
  simpl. rewrite run_seen_tokens. simpl.
  rewrite <- (appended_presented calls
                (run quantize dequantize self calls empty_cache).2)
    by (eapply (run_layer0_succeeds nb calls Hb), (tracks_empty dequantize any)).
  rewrite Hk. unfold shape_m2. rewrite !length_app.
  by rewrite (Forall2_length _ _ _ Hok).
Qed.

End Reported_length.

Section Period.
Context {pos blob : Type}.
Variable quantize : @tensor pos → Z → Z → blob.
Variable dequantize : blob → @tensor pos.
Variable self : cache_config.
Hypothesis per_layer_mode : per_head_quant self = false.
Hypothesis long_residual : (2 ≤ residual_length self)%Z.

Implicit Types (c : @cache pos blob) (s : @stored pos blob).

Lemma mod_succ_cases (j R : Z) :
  (2 ≤ R)%Z →
  ((j + 1) `mod` R = 0 ∧ j `mod` R = R - 1)%Z ∨
  ((j + 1) `mod` R = j `mod` R + 1 ∧ j `mod` R + 1 < R)%Z.
Proof.
  intros HR.
  pose proof (Z.mod_pos_bound j R ltac:(lia)) as Hb.
  pose proof (Z.div_mod j R ltac:(lia)) as Hd.
  destruct (decide (j `mod` R + 1 = R)%Z) as [E|E].
  - left. split; [|lia].
    symmetry. apply (Z.mod_unique_pos _ _ (j `div` R + 1)); lia.
  - right. split; [|lia].
    symmetry. apply (Z.mod_unique_pos _ _ (j `div` R)); lia.
Qed.

Lemma steps_from_elem i flags k :
  k ∈ steps_from i flags ↔ ∃ idx, k = i + idx ∧ flags !! idx = Some true.
Proof.
  revert i. induction flags as [|b flags IH]; intros i; simpl.
  - split; [intros H; by apply elem_of_nil in H|intros (idx & _ & H); done].
  - rewrite elem_of_app, IH. split.
    + intros [H|(idx & -> & H)].
      * destruct b; [|by apply elem_of_nil in H].
        apply list_elem_of_singleton in H as ->. exists 0. split; [lia|done].
      * exists (S idx). split; [lia|done].
    + intros ([|idx] & -> & H); simpl in H.
      * left. injection H as ->. apply list_elem_of_singleton. lia.
      * right. exists idx. split; [lia|done].
Qed.

(** The residual of a layer that has taken [j] single positions since its
    first update, or since a state that counts as [j] of them. *)
Lemma single_position_trace nb (calls : list (@call pos)) :
  layer_bits self 0 = Some nb →
  Forall (λ x, c_layer x = 0 ∧ length (b_rows (c_keys x)) = 1) calls →
  ∀ j c s,
    layer_entry c 0 s →
    ((Z.of_nat j `mod` residual_length self = 0)%Z ∧ s_k s = Placeholder) ∨
    ((Z.of_nat j `mod` residual_length self ≠ 0)%Z ∧ is_array (s_k s) = true ∧
     shape_m2 (res_rows (s_k s)) = (Z.of_nat j `mod` residual_length self)%Z) →
    merge_trace quantize dequantize self calls c
    = (λ i, bool_decide (Z.of_nat (S i) `mod` residual_length self = 0)%Z)
        <$> seq j (length calls).
Proof.
  intros Hb Hall. induction Hall as [|x calls [Hx H1] _ IH]; intros j c s He Hj.
  - done.
  - simpl. rewrite Hx.
    rewrite (merges_entry _ _ _ _ He).
    rewrite (update_later_layer _ _ _ _ _ _ _ nb s per_layer_mode Hb He). simpl.
    set (s' := (later_append _ _ _ s _ _ _ _).1).
    assert (He' : layer_entry
                    (write_layer 0 s' (count_tokens (c_keys x) 0 c)) 0 s')
      by (by apply (layer_entry_write _ _ s), layer_entry_count_tokens).
    pose proof (mod_succ_cases (Z.of_nat j) _ long_residual) as Hcases.
    pose proof (Z.mod_pos_bound (Z.of_nat j) (residual_length self)
                  ltac:(lia)) as Hbound.
    replace (Z.of_nat (S j)) with (Z.of_nat j + 1)%Z by lia.
    assert (merge_due self (s_k s)
            = bool_decide ((Z.of_nat j + 1) `mod` residual_length self = 0)%Z
            ∧ (((Z.of_nat (S j) `mod` residual_length self = 0)%Z ∧
                s_k s' = Placeholder) ∨
               ((Z.of_nat (S j) `mod` residual_length self ≠ 0)%Z ∧
                is_array (s_k s') = true ∧
                shape_m2 (res_rows (s_k s'))
                = (Z.of_nat (S j) `mod` residual_length self)%Z)))
      as [Hflag Hnext].
    { replace (Z.of_nat (S j)) with (Z.of_nat j + 1)%Z by lia.
      subst s'. unfold later_append, merge_due.
      destruct Hj as [[Hz Hp]|(Hnz & Ha & Hlen)].
      - rewrite Hp. simpl. split.
        + rewrite bool_decide_eq_false_2; [done|]. lia.
        + right. unfold shape_m2. simpl. rewrite H1. split_and!; [lia|done|lia].
      - rewrite Ha. simpl.
        destruct (Z.geb_spec (shape_m2 (res_rows (s_k s)) + 1)
                    (residual_length self)) as [Hge|Hlt]; simpl.
        + split; [rewrite bool_decide_eq_true_2; [done|lia]|].
          left. split; [lia|done].
        + split; [rewrite bool_decide_eq_false_2; [done|lia]|].
          right. unfold shape_m2 in *. rewrite length_app, H1.
          split_and!; [lia|done|lia]. }
    rewrite Hflag. f_equal. by apply (IH (S j) _ s').
Qed.

(** X8: in per-layer mode with [residual_length ≥ 2], when a fresh cache
    is given one position per step at layer 0, step [k] merges exactly
    when [k ≥ 2] and [k - 1] is a multiple of [residual_length]; with
    [force_quant], exactly when [k ≥ 2] and [k] is a multiple of it. *)
Theorem single_position_merge_steps nb (p : nat → pos) (n k : nat) :
  layer_bits self 0 = Some nb →
  k ∈ merge_steps quantize dequantize self (single_steps p n) empty_cache
  ↔ 2 ≤ k ≤ n ∧
    ((Z.of_nat k - (if force_quant self then 0 else 1))
       `mod` residual_length self = 0)%Z.
Proof.
  intros Hb. unfold merge_steps. rewrite steps_from_elem.
  destruct n as [|n].
  { simpl. split; [intros (idx & _ & H); done|lia]. }
  unfold single_steps. simpl.
  set (x := Block 1 [[p 1]]).
  rewrite (update_first_layer quantize dequantize self x x 0 empty_cache nb
             per_layer_mode Hb eq_refl). simpl.
  set (s0 := (first_append quantize dequantize self [[p 1]] [[p 1]] _ _).1).
  set (j0 := if force_quant self then 1 else 0).
  assert (He : layer_entry (push_layer s0 (count_tokens x 0 empty_cache)) 0 s0)
    by (apply (layer_entry_push s0 (count_tokens x 0 empty_cache)); by split_and!).
  rewrite (single_position_trace nb _ Hb) with (j := j0) (s := s0);
    [| |exact He|].
  - rewrite length_fmap, length_seq. split.
    + intros ([|idx] & -> & H); simpl in H; [done|].
      rewrite list_lookup_fmap in H.
      destruct (seq j0 n !! idx) as [i|] eqn:Hi; [|done].
      apply lookup_seq in Hi as [-> Hidx]. simpl in H. injection H as H.
      apply bool_decide_eq_true in H.
      split; [lia|]. subst j0.
      destruct (force_quant self); rewrite <- H; f_equal; lia.
    + intros [[Hk Hn] Hmod]. exists (k - 1). split; [lia|].
      destruct k as [|[|k]]; [lia..|]. simpl.
      rewrite list_lookup_fmap, lookup_seq_lt by lia. simpl. f_equal.
      apply bool_decide_eq_true_2. subst j0.
      destruct (force_quant self); rewrite <- Hmod; f_equal; lia.
  - apply Forall_fmap, Forall_forall. intros i _. done.
  - subst s0 j0. unfold first_append.
    destruct (force_quant self); simpl.
    + destruct (Z.eqb_spec (residual_length self) 0); [lia|]. simpl.
      right. unfold shape_m2, slice_from, slice_index. simpl.
      change (Z.of_nat 1) with 1%Z. rewrite !(Z.mod_small 1) by lia. simpl.
      split_and!; [lia|done|done].
    + left. by rewrite Z.mod_0_l by lia.
Qed.

End Period.

Section Short_residual.
Context {pos blob : Type}.
Variable quantize : @tensor pos → Z → Z → blob.
Variable dequantize : blob → @tensor pos.
Variable self : cache_config.
Hypothesis per_layer_mode : per_head_quant self = false.
Hypothesis short_residual : (residual_length self ≤ 1)%Z.

Implicit Types (c : @cache pos blob) (s : @stored pos blob).

Lemma alternating_trace nb (calls : list (@call pos)) :
  layer_bits self 0 = Some nb →
  Forall (λ x, c_layer x = 0) calls →
  ∀ j c s,
    layer_entry c 0 s →
    (Nat.odd j = false ∧ s_k s = Placeholder) ∨
    (Nat.odd j = true ∧ is_array (s_k s) = true) →
    merge_trace quantize dequantize self calls c
    = Nat.odd <$> seq j (length calls).
Proof.
  intros Hb Hall. induction Hall as [|x calls Hx _ IH]; intros j c s He Hj.
  - done.
  - simpl. rewrite Hx.
    rewrite (merges_entry _ _ _ _ He).
    rewrite (update_later_layer _ _ _ _ _ _ _ nb s per_layer_mode Hb He). simpl.
    set (s' := (later_append _ _ _ s _ _ _ _).1).
    assert (He' : layer_entry
                    (write_layer 0 s' (count_tokens (c_keys x) 0 c)) 0 s')
      by (by apply (layer_entry_write _ _ s), layer_entry_count_tokens).
    assert (merge_due self (s_k s) = Nat.odd j
            ∧ ((Nat.odd (S j) = false ∧ s_k s' = Placeholder) ∨
               (Nat.odd (S j) = true ∧ is_array (s_k s') = true)))
      as [Hflag Hnext].
    { subst s'. unfold later_append, merge_due. rewrite Nat.odd_succ.
      rewrite <- Nat.negb_odd.
      destruct Hj as [[Hodd Hp]|[Hodd Ha]]; rewrite Hodd.
      - rewrite Hp. simpl. split; [done|]. by right.
      - rewrite Ha. simpl.
        destruct (Z.geb_spec (shape_m2 (res_rows (s_k s)) + 1)
                    (residual_length self)) as [Hge|Hlt]; simpl.
        + split; [done|]. by left.
        + unfold shape_m2 in Hlt. lia. }
    rewrite Hflag. f_equal. by apply (IH (S j) _ s').
Qed.

(** X9: in per-layer mode without [force_quant] and with
    [residual_length] 0 or 1 (or below), a fresh cache given one block per
    step at layer 0 merges at every second step from the third on: steps
    3, 5, 7, ...; the steps between leave the block in the residual. *)
Theorem short_residual_merges_every_other_step nb
    (calls : list (@call pos)) (k : nat) :
  layer_bits self 0 = Some nb →
  force_quant self = false →
  Forall (λ x, c_layer x = 0) calls →
  k ∈ merge_steps quantize dequantize self calls empty_cache
  ↔ 3 ≤ k ≤ length calls ∧ Nat.odd k = true.
Proof.
  intros Hb Hf Hall. unfold merge_steps. rewrite steps_from_elem.
  destruct Hall as [|x calls Hx Hall].
  { simpl. split; [intros (idx & _ & H); done|lia]. }
  simpl. rewrite Hx.
  rewrite (update_first_layer quantize dequantize self (c_keys x) (c_values x)
             0 empty_cache nb per_layer_mode Hb eq_refl). simpl.
  set (s0 := (first_append quantize dequantize self _ _ _ _).1).
  assert (He : layer_entry
                 (push_layer s0 (count_tokens (c_keys x) 0 empty_cache)) 0 s0)
    by (apply (layer_entry_push s0 (count_tokens (c_keys x) 0 empty_cache));
        by split_and!).
  rewrite (alternating_trace nb _ Hb Hall 0 _ s0 He);
    [|left; split; [done|]; subst s0; unfold first_append; by rewrite Hf].
  split.
  - intros ([|idx] & -> & H); simpl in H; [done|].
    rewrite list_lookup_fmap in H.
    destruct (seq 0 (length calls) !! idx) as [i|] eqn:Hi; [|done].
    apply lookup_seq in Hi as [-> Hidx]. simpl in H. injection H as H.
    destruct idx as [|idx]; [done|].
    split; [lia|]. exact H.
  - intros [[Hk Hn] Hodd]. exists (k - 1). split; [lia|].
    destruct k as [|[|k]]; [lia..|]. simpl.
    rewrite list_lookup_fmap, lookup_seq_lt by lia. simpl. f_equal.
    exact Hodd.
Qed.

End Short_residual.

(** ** The configuration and the three backends *)

(** X10: a configuration that [FlexibleQuantizedCacheConfig] accepts never
    has per-layer and per-head mode on together; its key and value bit
    widths are the ones given, or [nbits] for one left at 0, so a width of
    0 survives only when [nbits] is 0 too; and a table given directly is
    the one kept, whatever the path says. *)
Theorem accepted_config_is_consistent
    (b : backend_name) (n nk nv ak av : Z) (asy : bool) (g r : Z)
    (fq plq : bool) (plc plc_path : option (gmap nat bits))
    (phq : bool) (phc phc_path : option (gmap nat (list (nat * bits)))) cfg :
  FlexibleQuantizedCacheConfig b n nk nv ak av asy g r fq
    plq plc plc_path phq phc phc_path = inr cfg →
  per_layer_quant cfg && per_head_quant cfg = false ∧
  (n ≠ 0%Z → nbits_key cfg ≠ 0%Z ∧ nbits_value cfg ≠ 0%Z) ∧
  (nk ≠ 0%Z → nbits_key cfg = nk) ∧
  (nv ≠ 0%Z → nbits_value cfg = nv) ∧
  (∀ m, plq = true → plc = Some m → per_layer_config cfg = m) ∧
  (∀ m, phq = true → phc = Some m → per_head_config cfg = m).
Proof.
  unfold FlexibleQuantizedCacheConfig. intros H.
  destruct (phq && plq) eqn:Hboth; [done|].
  destruct (if plq then _ else _) as [m1|] eqn:H1; [|done].
  destruct (if phq then _ else _) as [m2|] eqn:H2; [|done].
  injection H as <-. simpl.
  split_and!.
  - by rewrite andb_comm.
  - intros Hn. split.
    + destruct (Z.eqb_spec nk 0); done.
    + destruct (Z.eqb_spec nv 0); done.
  - intros Hk. by destruct (Z.eqb_spec nk 0).
  - intros Hv. by destruct (Z.eqb_spec nv 0).
  - intros m -> ->. by injection H1.
  - intros m -> ->. by injection H2.
Qed.

(** X11: the constructor of the quanto cache accepts a configuration
    exactly when [get_qtype] has a type for its [nbits] and both axes are
    0 or -1; for every other bit width [get_qtype] returns nothing. *)
Theorem quanto_accepts_iff_qtype cfg :
  (FlexibleQuantoQuantizedCache_init cfg = inr () ↔
   is_Some (get_qtype (nbits cfg)) ∧
   axis_key cfg ∈ [0; -1]%Z ∧ axis_value cfg ∈ [0; -1]%Z) ∧
  (∀ n, get_qtype n = None ↔ n ∉ [2; 4; 8]%Z).
Proof.
  assert (∀ n, get_qtype n = None ↔ n ∉ [2; 4; 8]%Z) as Hq.
  { intros n. unfold get_qtype. rewrite !elem_of_cons, elem_of_nil.
    destruct (Z.eqb_spec n 2); [split; [done|tauto]|].
    destruct (Z.eqb_spec n 4); [split; [done|tauto]|].
    destruct (Z.eqb_spec n 8); [split; [done|tauto]|].
    split; [tauto|done]. }
  split; [|exact Hq].
  rewrite quanto_init_accepts.
  assert (is_Some (get_qtype (nbits cfg)) ↔ nbits cfg ∈ [2; 4; 8]%Z) as ->;
    [|done].
  rewrite <- not_eq_None_Some, Hq.
  split; [apply dec_stable|auto].
Qed.

Lemma hqq_init_accepts cfg :
  FlexibleHQQQuantizedCache_init cfg = inr () ↔
  nbits cfg ∈ [1; 2; 3; 4; 8]%Z ∧
  axis_key cfg ∈ [0; 1]%Z ∧ axis_value cfg ∈ [0; 1]%Z.
Proof.
  unfold FlexibleHQQQuantizedCache_init.
  repeat case_bool_decide; simpl; split; try done; intros (? & ? & ?); done.
Qed.

Lemma vanilla_init_accepts cfg :
  FlexibleVanillaQuantizedCache_init cfg = inr () ↔
  axis_key cfg ∈ [0; 1]%Z ∧ axis_value cfg ∈ [0; 1]%Z.
Proof.
  unfold FlexibleVanillaQuantizedCache_init.
  repeat case_bool_decide; simpl; split; try done; intros (? & ?); done.
Qed.

(** X12: the three constructors against one another.  The vanilla cache
    checks the axes only, so it accepts whatever the HQQ cache accepts,
    and any [nbits]; a configuration both the quanto and the HQQ cache
    accept has [nbits] 2, 4 or 8 and both axes 0; and none of them looks
    at [nbits_key] or [nbits_value]. *)
Theorem backends_compared cfg :
  (FlexibleHQQQuantizedCache_init cfg = inr () →
   FlexibleVanillaQuantizedCache_init cfg = inr ()) ∧
  (FlexibleQuantoQuantizedCache_init cfg = inr () →
   FlexibleHQQQuantizedCache_init cfg = inr () →
   nbits cfg ∈ [2; 4; 8]%Z ∧ axis_key cfg = 0%Z ∧ axis_value cfg = 0%Z) ∧
  (∀ nk nv,
     let cfg' :=
       CacheConfig (backend cfg) (nbits cfg) nk nv (axis_key cfg)
         (axis_value cfg) (asym cfg) (q_group_size cfg) (residual_length cfg)
         (force_quant cfg) (per_layer_quant cfg) (per_layer_config cfg)
         (per_head_quant cfg) (per_head_config cfg) in
     FlexibleQuantoQuantizedCache_init cfg' = FlexibleQuantoQuantizedCache_init cfg ∧
     FlexibleHQQQuantizedCache_init cfg' = FlexibleHQQQuantizedCache_init cfg ∧
     FlexibleVanillaQuantizedCache_init cfg' = FlexibleVanillaQuantizedCache_init cfg).
Proof.
  split_and!.
  - rewrite hqq_init_accepts, vanilla_init_accepts. tauto.
  - rewrite quanto_init_accepts, hqq_init_accepts.
    rewrite !elem_of_cons, !elem_of_nil. lia.
  - done.
Qed.

(** ** The quantizers the vanilla cache keeps *)

Section Vanilla_facts.
Context {tensor blob quantizer dtype : Type}.
Variable VanillaQuantizer : Z → bool → dtype → quantizer.
Variable quantizer_quantize : quantizer → tensor → Z → Z → blob.
Variable compute_dtype : dtype.
Variable self : cache_config.

Local Abbreviation quantize_once :=
  (FlexibleVanillaQuantizedCache_quantize VanillaQuantizer quantizer_quantize
     compute_dtype self).
Local Abbreviation fresh nbits :=
  (VanillaQuantizer nbits (asym self) compute_dtype).

Lemma quantize_once_spec (qs : gmap (Z * Z) quantizer) (t : tensor)
    (axis nbits : Z) :
  (∀ n a q, qs !! (n, a) = Some q → q = fresh n) →
  (quantize_once qs t axis nbits).2
    = inr (quantizer_quantize (fresh nbits) t (q_group_size self) axis) ∧
  (∀ n a q, (quantize_once qs t axis nbits).1 !! (n, a) = Some q → q = fresh n) ∧
  dom (quantize_once qs t axis nbits).1 = {[ (nbits, axis) ]} ∪ dom qs ∧
  (is_Some (qs !! (nbits, axis)) → (quantize_once qs t axis nbits).1 = qs).
Proof.
  intros Hqs. unfold FlexibleVanillaQuantizedCache_quantize. simpl.
  destruct (qs !! (nbits, axis)) as [q|] eqn:Hq.
  - rewrite Hq. rewrite (Hqs _ _ _ Hq). split_and!; [done|done| |done].
    apply elem_of_dom_2 in Hq.
    symmetry. apply subseteq_union_1_L. by apply singleton_subseteq_l.
  - rewrite lookup_insert_eq. split_and!; [done| | |by intros [? ?]].
    + intros n a q. rewrite lookup_insert. case_decide as E.
      * injection E as <- <-. by intros [= <-].
      * apply Hqs.
    + by rewrite dom_insert_L.
Qed.

Lemma quantize_all_cons (t : tensor) (axis nbits : Z)
    (calls : list (tensor * Z * Z)) (qs : gmap (Z * Z) quantizer) :
  quantize_all VanillaQuantizer quantizer_quantize compute_dtype self
    ((t, axis, nbits) :: calls) qs
  = ((quantize_all VanillaQuantizer quantizer_quantize compute_dtype self calls
        (quantize_once qs t axis nbits).1).1,
     (quantize_once qs t axis nbits).2
     :: (quantize_all VanillaQuantizer quantizer_quantize compute_dtype self calls
           (quantize_once qs t axis nbits).1).2).
Proof.
  cbn [quantize_all]. destruct (quantize_once qs t axis nbits) as [q1 r].
  cbn [fst snd].
  by destruct (quantize_all VanillaQuantizer quantizer_quantize compute_dtype
                 self calls q1) as [q2 rs].
Qed.

Lemma quantize_all_spec (calls : list (tensor * Z * Z))
    (qs : gmap (Z * Z) quantizer) :
  (∀ n a q, qs !! (n, a) = Some q → q = fresh n) →
  (quantize_all VanillaQuantizer quantizer_quantize compute_dtype self calls qs).2
    = (λ '(t, axis, nbits),
         inr (quantizer_quantize (fresh nbits) t (q_group_size self) axis))
      <$> calls ∧
  dom (quantize_all VanillaQuantizer quantizer_quantize compute_dtype self
         calls qs).1
    = list_to_set ((λ '(t, axis, nbits), (nbits, axis)) <$> calls) ∪ dom qs.
Proof.
  revert qs. induction calls as [|[[t axis] nbits] calls IH]; intros qs Hqs.
  - simpl. split; [done|by rewrite union_empty_l_L].
  - rewrite quantize_all_cons. cbn [fst snd].
    destruct (quantize_once_spec qs t axis nbits Hqs) as (Hr & Hqs' & Hdom & _).
    destruct (IH _ Hqs') as [IHr IHdom].
    rewrite Hr, IHr, IHdom, Hdom. split; [done|].
    rewrite fmap_cons, list_to_set_cons.
    by rewrite (assoc_L (∪)), (comm_L (∪) (list_to_set _)).
Qed.

(** X13: over any sequence of calls of [_quantize] starting from the
    empty dict, the read of the dict at line 460 never raises [KeyError],
    and the quantizer each call uses is one built with the call's own
    [nbits], [self.asym] and [self.compute_dtype], whatever pairs were
    asked for before; it is given the tensor, [self.q_group_size] and the
    call's axis. *)
Theorem vanilla_quantizers_are_transparent (calls : list (tensor * Z * Z)) :
  (quantize_all VanillaQuantizer quantizer_quantize compute_dtype self calls ∅).2
  = (λ '(t, axis, nbits),
       inr (quantizer_quantize (VanillaQuantizer nbits (asym self) compute_dtype)
              t (q_group_size self) axis))
    <$> calls.
Proof. apply quantize_all_spec. intros n a q H. by rewrite lookup_empty in H. Qed.

(** X14: after any sequence of calls of [_quantize] starting from the
    empty dict, the dict holds exactly one quantizer for each distinct
    pair [(nbits, axis)] that was asked for; and a call for a pair the
    dict already has leaves the dict as it is. *)
Theorem vanilla_keeps_one_quantizer_per_pair (calls : list (tensor * Z * Z))
    (t : tensor) (axis nbits : Z) :
  let qs := (quantize_all VanillaQuantizer quantizer_quantize compute_dtype self
               calls ∅).1 in
  dom qs = list_to_set ((λ '(t, axis, nbits), (nbits, axis)) <$> calls) ∧
  ((nbits, axis) ∈ dom qs → (quantize_once qs t axis nbits).1 = qs).
Proof.
  intros qs. split.
  - subst qs.
    destruct (quantize_all_spec calls ∅) as [_ ->];
      [intros n a q H; by rewrite lookup_empty in H|].
    by rewrite dom_empty_L, union_empty_r_L.
  - intros Hin. apply elem_of_dom in Hin.
    unfold FlexibleVanillaQuantizedCache_quantize. simpl.
    by destruct Hin as [q ->].
Qed.

End Vanilla_facts.

(** ** The search driver *)

Lemma int_of_digit_char (d : nat) :
  d < 10 → int_of_char (digit_char d) = Some (Z.of_nat d).
Proof. intros H. do 10 (destruct d as [|d]; [reflexivity|]). lia. Qed.

Lemma int_of_char_digit (c : ascii) (z : Z) :
  int_of_char c = Some z → (0 ≤ z ≤ 9)%Z.
Proof.
  unfold int_of_char.
  destruct (Nat.leb_spec 48 (nat_of_ascii c)); simpl; [|done].
  destruct (Nat.leb_spec (nat_of_ascii c) 57); simpl; [|done].
  intros [= <-]. lia.
Qed.

(** X15: the names of the templates parse to the widths they spell: for
    one-digit widths [k] and [v], [parse_quant_config] gives [k] and [v]
    for the name [KkVv], and [d] for both for the name [KVd]. *)
Theorem parse_quant_config_of_name (k v : nat) :
  k < 10 → v < 10 →
  parse_quant_config (quant_name k v) = inr (Bits (Z.of_nat k) (Z.of_nat v)) ∧
  parse_quant_config (quant_name_both k) = inr (Bits (Z.of_nat k) (Z.of_nat k)).
Proof.
  intros Hk Hv. unfold parse_quant_config, quant_name, quant_name_both.
  cbn [String.length String.get Nat.eqb].
  by rewrite !(int_of_digit_char k Hk), !(int_of_digit_char v Hv).
Qed.

(** X16: [parse_quant_config] looks at two characters at most.  Of a name
    of four characters or more it reads the second and the fourth, as
    digits, and nothing else: neither the letters nor what follows the
    fourth character, so that the value width of [K8V16] is read as 1.
    The widths it returns are between 0 and 9. *)
Theorem parse_quant_config_reads_two_digits :
  (∀ (a c1 b c3 : ascii) (rest : string),
     parse_quant_config (String a (String c1 (String b (String c3 rest))))
     = parse_quant_config
         (String "K" (String c1 (String "V" (String c3 EmptyString))))) ∧
  (∀ (quant_config : string) (q : bits),
     parse_quant_config quant_config = inr q →
     (0 ≤ cfg_nbits_key q ≤ 9)%Z ∧ (0 ≤ cfg_nbits_value q ≤ 9)%Z).
Proof.
  split.
  - intros a c1 b c3 rest. unfold parse_quant_config.
    cbn [String.length String.get Nat.eqb]. reflexivity.
  - intros s q. unfold parse_quant_config.
    destruct (String.length s =? 3).
    + destruct (String.get 2 s) as [c|]; [|done].
      destruct (int_of_char c) as [z|] eqn:Hz; [|done].
      intros [= <-]. simpl. by pose proof (int_of_char_digit _ _ Hz).
    + destruct (String.get 1 s) as [c1|]; [|done].
      destruct (int_of_char c1) as [z1|] eqn:Hz1; [|done].
      destruct (String.get 3 s) as [c3|]; [|done].
      destruct (int_of_char c3) as [z3|] eqn:Hz3; [|done].
      intros [= <-]. simpl.
      pose proof (int_of_char_digit _ _ Hz1).
      by pose proof (int_of_char_digit _ _ Hz3).
Qed.

Lemma group_inside (group special_layer : list nat) :
  forallb (λ other_layer, bool_decide (other_layer ∈ special_layer)) group = true
  ↔ ∀ other_layer, other_layer ∈ group → other_layer ∈ special_layer.
Proof.
  rewrite forallb_forall. split.
  - intros H x Hx. apply (proj1 (list_elem_of_In _ _)) in Hx.
    exact (proj1 (bool_decide_eq_true _) (H x Hx)).
  - intros H x Hx. apply (proj2 (list_elem_of_In _ _)) in Hx.
    exact (proj2 (bool_decide_eq_true _) (H x Hx)).
Qed.

Lemma scan_special_layers_spec (group : list nat) (layer : nat)
    (specials : list (list nat * list string)) (t : list string) :
  (scan_special_layers group layer specials t = inl PyValueError ∧
   ∃ special_layer names other_layer,
     (special_layer, names) ∈ specials ∧ layer ∈ special_layer ∧
     other_layer ∈ group ∧ other_layer ∉ special_layer) ∨
  ((∃ t', scan_special_layers group layer specials t = inr t') ∧
   (∀ special_layer names,
      (special_layer, names) ∈ specials → layer ∈ special_layer →
      ∀ other_layer, other_layer ∈ group → other_layer ∈ special_layer) ∧
   ((∀ special_layer names,
       (special_layer, names) ∈ specials → layer ∉ special_layer) →
    scan_special_layers group layer specials t = inr t)).
Proof.
  revert t. induction specials as [|[sp names] specials IH]; intros t; simpl.
  - right. split; [by eexists|]. split; [|done].
    intros sp names H. by apply elem_of_nil in H.
  - case_bool_decide as Hin.
    + destruct (forallb _ group) eqn:Hall.
      * pose proof (proj1 (group_inside _ _) Hall) as Hall0.
        destruct (IH names) as [(He & sp' & n' & o & H1 & H2 & H3 & H4)
                               |((t' & Ht') & Hall' & _)].
        -- left. split; [done|]. exists sp', n', o.
           split_and!; [by apply elem_of_cons; right|done..].
        -- right. split; [by eexists|]. split.
           ++ intros sp' n' H. apply elem_of_cons in H as [[= -> ->]|H];
                [by intros _|by eapply Hall'].
           ++ intros Hnone. exfalso. apply (Hnone sp names); [|done].
              apply elem_of_cons. by left.
      * left. split; [done|].
        assert (¬ ∀ o, o ∈ group → o ∈ sp) as Hn.
        { intros H. pose proof (proj2 (group_inside _ _) H). congruence. }
        assert (Exists (λ o, o ∉ sp) group) as Hex.
        { apply not_Forall_Exists; [apply _|].
          intros HF. apply Hn. by apply Forall_forall. }
        apply Exists_exists in Hex as (o & Ho & Hno).
        exists sp, names, o. split_and!; [by apply elem_of_cons; left|done..].
    + destruct (IH t) as [(He & sp' & n' & o & H1 & H2 & H3 & H4)
                         |((t' & Ht') & Hall' & Hsame)].
      * left. split; [done|]. exists sp', n', o.
        split_and!; [by apply elem_of_cons; right|done..].
      * right. split; [by eexists|]. split.
        -- intros sp' n' H. apply elem_of_cons in H as [[= -> ->]|H];
             [done|by eapply Hall'].
        -- intros Hnone. apply Hsame. intros sp' n' H.
           apply (Hnone sp' n'), elem_of_cons. by right.
Qed.

Lemma scan_layers_spec (group layers : list nat)
    (specials : list (list nat * list string)) (t : list string) :
  (scan_layers group layers specials t = inl PyValueError ∧
   ∃ layer special_layer names other_layer,
     layer ∈ layers ∧ (special_layer, names) ∈ specials ∧
     layer ∈ special_layer ∧ other_layer ∈ group ∧ other_layer ∉ special_layer) ∨
  ((∃ t', scan_layers group layers specials t = inr t') ∧
   ((∀ layer special_layer names,
       layer ∈ layers → (special_layer, names) ∈ specials →
       layer ∉ special_layer) →
    scan_layers group layers specials t = inr t)).
Proof.
  revert t. induction layers as [|layer layers IH]; intros t; simpl.
  - right. split; [by eexists|done].
  - destruct (scan_special_layers_spec group layer specials t)
      as [(He & sp & names & o & H1 & H2 & H3 & H4)
         |((t' & Ht') & _ & Hsame)].
    + left. rewrite He. split; [done|]. exists layer, sp, names, o.
      split_and!; [by apply elem_of_cons; left|done..].
    + rewrite Ht'.
      destruct (IH t') as [(He & l & sp & names & o & H0 & H1 & H2 & H3 & H4)
                          |((t'' & Ht'') & Hsame')].
      * left. split; [done|]. exists l, sp, names, o.
        split_and!; [by apply elem_of_cons; right|done..].
      * right. split; [by eexists|].
        intros Hnone.
        assert (t' = t) as ->.
        { rewrite Hsame in Ht'; [by injection Ht'|].
          intros sp names H. apply (Hnone layer sp names); [|done].
          apply elem_of_cons. by left. }
        apply Hsame'. intros l sp names Hl. apply Hnone.
        apply elem_of_cons. by right.
Qed.

(** X17: the check [prepare_layer_grouping_config] makes of one group.  It
    raises [ValueError], and nothing else, exactly when a special-layer
    key holds one layer of the group and not another; a group no key
    touches gets the standard template, without [KV2] under
    [debug_constraint]. *)
Theorem group_template_check (specials : list (list nat * list string))
    (debug : bool) (group : list nat) :
  (∀ e, group_template specials debug group = inl e →
        e = PyValueError ∧
        ∃ layer special_layer names other_layer,
          layer ∈ group ∧ (special_layer, names) ∈ specials ∧
          layer ∈ special_layer ∧ other_layer ∈ group ∧
          other_layer ∉ special_layer) ∧
  ((∃ layer special_layer names other_layer,
      layer ∈ group ∧ (special_layer, names) ∈ specials ∧
      layer ∈ special_layer ∧ other_layer ∈ group ∧
      other_layer ∉ special_layer) →
   group_template specials debug group = inl PyValueError) ∧
  ((∀ layer special_layer names,
      layer ∈ group → (special_layer, names) ∈ specials →
      layer ∉ special_layer) →
   group_template specials debug group
   = inr (if debug
          then filter (λ i, i ≠ "KV2") STANDARD_KV_QUANT_CONFIG
          else STANDARD_KV_QUANT_CONFIG)).
Proof.
  unfold group_template.
  destruct (scan_layers_spec group group specials STANDARD_KV_QUANT_CONFIG)
    as [(He & Hex)|((t' & Ht') & Hsame)].
  - rewrite He. split_and!.
    + intros e [= <-]. done.
    + done.
    + intros Hnone. exfalso.
      destruct Hex as (l & sp & names & o & H0 & H1 & H2 & _).
      by apply (Hnone l sp names).
  - split_and!.
    + rewrite Ht'. done.
    + intros (l & sp & names & o & H0 & H1 & H2 & H3 & H4). exfalso.
      clear Hsame. revert Ht'. generalize STANDARD_KV_QUANT_CONFIG.
      assert (∀ layers t0,
                l ∈ layers → ∀ t1, scan_layers group layers specials t0 ≠ inr t1)
        as Hfail; [|intros t0; by apply Hfail].
      induction layers as [|l' layers IH]; intros t0 Hl t1; simpl.
      { by apply elem_of_nil in Hl. }
      destruct (scan_special_layers_spec group l' specials t0)
        as [(He & _)|((t2 & Ht2) & Hall & _)]; [by rewrite He|].
      rewrite Ht2. apply elem_of_cons in Hl as [<-|Hl]; [|by apply IH].
      exfalso. apply H4. by eapply Hall.
    + intros Hnone. by rewrite (Hsame Hnone).
Qed.

Lemma foldl_insert_lookup (q : bits) (layers : list nat) (m : gmap nat bits)
    (layer : nat) :
  foldl (λ m layer, <[layer := q]> m) m layers !! layer
  = if bool_decide (layer ∈ layers) then Some q else m !! layer.
Proof.
  revert m. induction layers as [|l layers IH]; intros m; simpl; [done|].
  rewrite IH. rewrite lookup_insert.
  destruct (decide (layer ∈ layers)) as [Hin|Hin].
  - rewrite !bool_decide_eq_true_2; [done| |done]. apply elem_of_cons. by right.
  - rewrite (bool_decide_eq_false_2 (layer ∈ layers)) by done.
    destruct (decide (l = layer)) as [E|E].
    + subst l. rewrite bool_decide_eq_true_2; [done|]. apply elem_of_cons. by left.
    + rewrite bool_decide_eq_false_2; [done|].
      intros H. apply elem_of_cons in H as [->|H]; done.
Qed.

(** What the loop of [build_per_layer_config] adds to the dict from group
    [i] on: every entry comes from the name chosen for a group holding the
    layer, and every layer of the groups gone through has an entry. *)
Lemma build_groups_spec (g : globals) (config_list : list nat) :
  ∀ (i : nat) (m0 : gmap nat bits) (t0 : Z) (m : gmap nat bits) (t : Z),
  build_groups g i config_list m0 t0 = inr (m, t) →
  (∀ layer q, m !! layer = Some q →
     m0 !! layer = Some q ∨
     ∃ j config layers name,
       config_list !! j = Some config ∧
       current_layer_grouping g !! (i + j) = Some layers ∧ layer ∈ layers ∧
       current_grouping_quant_template g !! (i + j) ≫= (.!! config) = Some name ∧
       parse_quant_config name = inr q) ∧
  (∀ layer,
     is_Some (m !! layer) ↔
     is_Some (m0 !! layer) ∨
     ∃ j layers, j < length config_list ∧
       current_layer_grouping g !! (i + j) = Some layers ∧ layer ∈ layers).
Proof.
  induction config_list as [|config config_list IH]; intros i m0 t0 m t; simpl.
  - intros [= <- <-]. split; [by left|].
    intros layer. split; [by left|]. intros [H|(j & _ & Hj & _)]; [done|lia].
  - destruct (current_layer_grouping g !! i) as [layers|] eqn:Hl; [|done].
    destruct (current_grouping_quant_template g !! i ≫= (.!! config))
      as [name|] eqn:Hn; [|done].
    destruct (parse_quant_config name) as [e|q0] eqn:Hp; [done|].
    intros H. destruct (IH _ _ _ _ _ H) as [Hfrom Hdom]. split.
    + intros layer q Hq. destruct (Hfrom layer q Hq) as [H0|H0].
      * rewrite foldl_insert_lookup in H0. case_bool_decide as Hin.
        -- injection H0 as <-. right. exists 0, config, layers, name.
           rewrite Nat.add_0_r. done.
        -- by left.
      * destruct H0 as (j & c & ls & n & H1 & H2 & H3 & H4 & H5).
        right. exists (S j), c, ls, n.
        replace (i + S j) with (S i + j) by lia. done.
    + intros layer. rewrite Hdom, foldl_insert_lookup. split.
      * intros [H0|(j & ls & H1 & H2 & H3)].
        -- case_bool_decide as Hin; [|by left].
           right. exists 0, layers. rewrite Nat.add_0_r. split_and!; [lia|done..].
        -- right. exists (S j), ls.
           replace (i + S j) with (S i + j) by lia. split_and!; [lia|done..].
      * intros [H0|(j & ls & H1 & H2 & H3)].
        -- left. by case_bool_decide.
        -- destruct j as [|j].
           ++ rewrite Nat.add_0_r, Hl in H2. injection H2 as <-.
              left. by rewrite bool_decide_eq_true_2.
           ++ right. exists j, ls.
              replace (S i + j) with (i + S j) by lia. split_and!; [lia|done..].
Qed.

Lemma build_per_layer_config_inr (g : globals) (config_list : list nat)
    (m : gmap nat bits) (t : Z) :
  build_per_layer_config g config_list = inr (m, t) →
  build_groups g 0 config_list ∅ 0 = inr (m, t).
Proof.
  unfold build_per_layer_config.
  destruct (build_groups g 0 config_list ∅ 0) as [e|[m' t']]; [done|].
  by destruct (current_tot_layers g * 2 =? 0)%Z.
Qed.

(** X18: the dict [build_per_layer_config] returns has an entry exactly
    for the layers of the groups the list of choices reaches, and each
    entry is the parse of the name chosen, in the group's template, for a
    group that holds the layer. *)
Theorem build_per_layer_config_entries (g : globals) (config_list : list nat)
    (m : gmap nat bits) (t : Z) :
  build_per_layer_config g config_list = inr (m, t) →
  (∀ layer,
     is_Some (m !! layer) ↔
     ∃ j layers, j < length config_list ∧
       current_layer_grouping g !! j = Some layers ∧ layer ∈ layers) ∧
  (∀ layer q, m !! layer = Some q →
     ∃ j config layers name,
       config_list !! j = Some config ∧
       current_layer_grouping g !! j = Some layers ∧ layer ∈ layers ∧
       current_grouping_quant_template g !! j ≫= (.!! config) = Some name ∧
       parse_quant_config name = inr q).
Proof.
  intros H. apply build_per_layer_config_inr in H.
  destruct (build_groups_spec _ _ _ _ _ _ _ H) as [Hfrom Hdom]. split.
  - intros layer. rewrite Hdom, lookup_empty. split.
    + intros [[? ?]|H0]; [done|exact H0].
    + intros H0. by right.
  - intros layer q Hq. destruct (Hfrom layer q Hq) as [H0|H0]; [|exact H0].
    by rewrite lookup_empty in H0.
Qed.

Lemma build_groups_succeeds (g : globals) (config_list : list nat) :
  ∀ (i : nat) (m0 : gmap nat bits) (t0 : Z),
  (∀ j config,
     config_list !! j = Some config →
     is_Some (current_layer_grouping g !! (i + j)) ∧
     ∃ name q,
       current_grouping_quant_template g !! (i + j) ≫= (.!! config) = Some name ∧
       parse_quant_config name = inr q) →
  ∃ m t, build_groups g i config_list m0 t0 = inr (m, t).
Proof.
  induction config_list as [|config config_list IH]; intros i m0 t0 Hall; simpl.
  - by eexists _, _.
  - destruct (Hall 0 config eq_refl) as [[layers Hl] (name & q & Hn & Hp)].
    rewrite Nat.add_0_r in Hl, Hn. rewrite Hl, Hn, Hp.
    apply IH. intros j c Hj.
    replace (S i + j) with (i + S j) by lia. by apply Hall.
Qed.

(** X19: [build_per_layer_config] returns, without raising, whenever
    [current_tot_layers] is not 0 and each choice of the list is within
    its group's template, there being a group and a template for it, and
    names a configuration that parses: what [objective] gives it after
    [prepare_layer_grouping_config] has passed. *)
Theorem build_per_layer_config_succeeds (g : globals) (config_list : list nat) :
  current_tot_layers g ≠ 0%Z →
  (∀ j config,
     config_list !! j = Some config →
     is_Some (current_layer_grouping g !! j) ∧
     ∃ name q,
       current_grouping_quant_template g !! j ≫= (.!! config) = Some name ∧
       parse_quant_config name = inr q) →
  ∃ m t, build_per_layer_config g config_list = inr (m, t).
Proof.
  intros Htot Hall. unfold build_per_layer_config.
  destruct (build_groups_succeeds g config_list 0 ∅ 0 Hall) as (m & t & ->).
  exists m, t. destruct (Z.eqb_spec (current_tot_layers g * 2) 0); [lia|done].
Qed.

Section Driver_and_cache.
Context {pos blob : Type}.
Variable quantize : @tensor pos → Z → Z → blob.
Variable dequantize : blob → @tensor pos.
Variable self : cache_config.

Implicit Types (c : @cache pos blob).

Lemma read_layer_raises layer_idx c c' (e : exn) :
  read_layer layer_idx c = (c', inl e) → e = IndexError ∨ e = TypeError.
Proof.
  unfold read_layer, bind, get, lift_exn, raise, ret.
  repeat (match goal with
          | |- context [layer_of ?o] =>
              let H := fresh in
              destruct (layer_of o) eqn:H;
              [unfold layer_of in H;
               repeat (match type of H with
                       | context [match ?x with _ => _ end] => destruct x
                       end);
               intros; simplify_eq; auto|]
          end).
  done.
Qed.

Lemma update_with_bits_no_key_error (key_states value_states : @block pos)
    layer_idx c nb :
  per_head_quant self = false →
  layer_bits self layer_idx = Some nb →
  (update quantize dequantize self key_states value_states layer_idx c).2
  ≠ inl KeyError.
Proof.
  intros Hh Hb.
  assert (∀ nb0 : bits,
            ((if length (key_cache (count_tokens key_states layer_idx c))
                =? layer_idx
             then let '(s, out) :=
                    first_append quantize dequantize self (b_rows key_states)
                      (b_rows value_states) (cfg_nbits_key nb0)
                      (cfg_nbits_value nb0) in
                  bind (modify (push_layer s)) (λ _, ret out)
             else bind (read_layer layer_idx) (λ s,
                    let '(s', out) :=
                      later_append quantize dequantize self s
                        (b_rows key_states) (b_rows value_states)
                        (cfg_nbits_key nb0) (cfg_nbits_value nb0) in
                    bind (modify (write_layer layer_idx s')) (λ _, ret out)))
              (count_tokens key_states layer_idx c)).2 ≠ inl KeyError)
    as Hrest.
  { intros nb0.
    destruct (length (key_cache (count_tokens key_states layer_idx c))
              =? layer_idx).
    - by destruct (first_append _ _ _ _ _ _ _) as [s out].
    - unfold bind at 1.
      destruct (read_layer layer_idx (count_tokens key_states layer_idx c))
        as [c1 [e|s]] eqn:Hr.
      + simpl. destruct (read_layer_raises _ _ _ _ Hr) as [-> | ->]; done.
      + by destruct (later_append _ _ _ _ _ _ _ _) as [s' out]. }
  unfold update. unfold bind at 1, modify at 1. cbn [fst snd].
  unfold bind at 1, get at 1.
  destruct (length (key_cache (count_tokens key_states layer_idx c)) <? layer_idx);
    [done|].
  rewrite Hh. cbn [negb]. unfold bind at 1. unfold layer_bits in Hb.
  destruct (per_layer_quant self); cbn [negb] in *.
  - rewrite Hb. apply Hrest.
  - apply Hrest.
Qed.

(** X20: the dict [build_per_layer_config] returns, used as
    [per_layer_config] of a cache in per-layer mode: an update of a layer
    that is not skipped raises [KeyError] exactly when no group the list
    of choices reaches holds that layer. *)
Theorem update_with_built_config (g : globals) (config_list : list nat)
    (m : gmap nat bits) (t : Z) (key_states value_states : @block pos)
    layer_idx c :
  build_per_layer_config g config_list = inr (m, t) →
  per_head_quant self = false →
  per_layer_quant self = true →
  per_layer_config self = m →
  layer_idx ≤ length (key_cache c) →
  (update quantize dequantize self key_states value_states layer_idx c).2
  = inl KeyError
  ↔ ¬ ∃ j layers, j < length config_list ∧
        current_layer_grouping g !! j = Some layers ∧ layer_idx ∈ layers.
Proof.
  intros Hbuild Hh Hpl Hm Hle.
  apply build_per_layer_config_inr in Hbuild.
  destruct (build_groups_spec _ _ _ _ _ _ _ Hbuild) as [_ Hdom].
  specialize (Hdom layer_idx). rewrite lookup_empty in Hdom. simpl in Hdom.
  assert (layer_bits self layer_idx = m !! layer_idx) as Hbits
    by (unfold layer_bits; by rewrite Hpl, Hm).
  destruct (m !! layer_idx) as [nb|] eqn:Hlook.
  - split.
    + intros He. exfalso.
      by apply (update_with_bits_no_key_error key_states value_states
                  layer_idx c nb Hh Hbits).
    + intros Hno. exfalso. apply Hno.
      destruct (proj1 Hdom (mk_is_Some _ _ eq_refl)) as [[? ?]|H]; done.
  - split.
    + intros _ Hex.
      destruct (proj2 Hdom (or_intror Hex)) as [? ?]. done.
    + intros _. by rewrite update_no_bits.
Qed.

End Driver_and_cache.

(** X21: [prepare_layer_grouping_config] on the tables of the module, from
    the module's initial state and with or without [debug_constraint]: it
    raises [ValueError] for Qwen2.5-32B-Instruct with the scheme
    per-channel-asym, whose special-layer key starting at layer 5 holds
    part of a group only, and passes for the eleven other pairs of a
    model and a scheme. *)
Theorem prepare_on_the_tables (model_name quant_scheme : string) (debug : bool) :
  model_name ∈ table_models →
  quant_scheme ∈ table_schemes →
  (prepare_layer_grouping_config model_name quant_scheme
     (initial_globals debug)).2
  = if bool_decide (model_name = "Qwen2.5-32B-Instruct" ∧
                    quant_scheme = "per-channel-asym")
    then inl PyValueError else inr ().
Proof.
  unfold table_models, table_schemes.
  rewrite !elem_of_cons, !elem_of_nil. intros Hm Hs.
  destruct_or!; try done; subst; destruct debug; vm_compute; reflexivity.
Qed.

Lemma cover_check (xs : list nat) (tot : Z) :
  forallb (λ l, l <? Z.to_nat tot) xs = true →
  forallb (λ l, bool_decide (l ∈ xs)) (seq 0 (Z.to_nat tot)) = true →
  ∀ layer, layer ∈ xs ↔ (Z.of_nat layer < tot)%Z.
Proof.
  rewrite !forallb_forall. intros Hlt Hin layer. split.
  - intros H. apply (proj1 (list_elem_of_In _ _)) in H.
    apply Hlt, Nat.ltb_lt in H. lia.
  - intros H. apply (bool_decide_eq_true_1 (layer ∈ xs)), Hin, in_seq. lia.
Qed.

(** X22: the groupings of the module's tables.  For every model and
    scheme the groups hold exactly the layers below the model's
    [TOT_LAYER], so a list of choices as long as the grouping gives every
    layer a configuration; and no layer is in two groups, except in the
    per-channel-asym groupings of Qwen2.5-14B-Instruct and
    Qwen2.5-32B-Instruct. *)
Theorem tables_cover_the_layers (model_name quant_scheme : string) :
  model_name ∈ table_models →
  quant_scheme ∈ table_schemes →
  ∃ groups tot,
    LAYER_GROUPING_CONFIG !! model_name ≫= (.!! quant_scheme) = Some groups ∧
    TOT_LAYER !! model_name = Some tot ∧
    (∀ layer : nat, layer ∈ concat groups ↔ (Z.of_nat layer < tot)%Z) ∧
    (NoDup (concat groups) ↔
     ¬ (quant_scheme = "per-channel-asym" ∧
        (model_name = "Qwen2.5-14B-Instruct" ∨
         model_name = "Qwen2.5-32B-Instruct"))).
Proof.
  unfold table_models, table_schemes.
  rewrite !elem_of_cons, !elem_of_nil. intros Hm Hs.
  destruct_or!; try done; subst;
    (eexists _, _;
     split; [vm_compute; reflexivity|];
     split; [vm_compute; reflexivity|];
     split; [apply cover_check; vm_compute; reflexivity|];
     first
       [ split; [intros _ [Hs [Hm|Hm]]; discriminate|intros _];
         refine (bool_decide_unpack _ _); vm_compute; exact I
       | split; [intros Hnd; exfalso;
                 pose proof (bool_decide_pack _ Hnd) as Hb;
                 vm_compute in Hb; exact Hb
                |intros Hno; exfalso; apply Hno; auto] ]).
Qed.


Section Per_head.
Context {pos blob : Type}.
Variable quantize : @tensor pos → Z → Z → blob.
Variable dequantize : blob → @tensor pos.
Variable self : cache_config.

Implicit Types (c : @cache pos blob) (b : @block pos).

(** The slice of a head of a well-formed block: at each position, the
    slab of the head. *)
Lemma head_slice_spec b head_idx :
  head_idx < b_heads b →
  Forall (λ r, length r = b_heads b) (b_rows b) →
  head_slice head_idx b
  = Some ((λ r : row, take 1 (drop head_idx r)) <$> b_rows b).
Proof.
  intros Hlt Hwf. unfold head_slice. rewrite decide_True by done.
  apply mapM_Some, Forall2_fmap_r, Forall_Forall2_diag.
  eapply Forall_impl; [exact Hwf|]. unfold row. intros r Hr. simpl in Hr |- *.
  destruct (lookup_lt_is_Some_2 r head_idx) as [p Hp]; [lia|].
  rewrite Hp. simpl. by rewrite (drop_S _ _ _ Hp).
Qed.

Lemma stack_cons (t t' : @tensor pos) ts :
  stack (t :: t' :: ts)
  = match stack (t' :: ts) with
    | Some u =>
        if decide (length t = length u) then Some (zip_with app t u) else None
    | None => None
    end.
Proof. reflexivity. Qed.

Lemma take_drop_step (r : @row pos) a n :
  take 1 (drop a r) ++ take (S n) (drop (S a) r) = take (S (S n)) (drop a r).
Proof.
  destruct (r !! a) as [p|] eqn:Hp.
  - by rewrite (drop_S _ _ _ Hp).
  - apply lookup_ge_None in Hp. by rewrite !drop_ge by lia.
Qed.

(** Stacking the slices of consecutive heads gives back the slabs of
    these heads, side by side. *)
Lemma stack_head_slices (rows : @tensor pos) a n :
  stack ((λ h, (λ r : row, take 1 (drop h r)) <$> rows) <$> seq a (S n))
  = Some ((λ r : row, take (S n) (drop a r)) <$> rows).
Proof.
  revert a. induction n as [|n IH]; intros a; [done|].
  specialize (IH (S a)).
  change (seq (S a) (S n)) with (S a :: seq (S (S a)) n) in IH.
  rewrite fmap_cons in IH.
  change (seq a (S (S n))) with (a :: S a :: seq (S (S a)) n).
  rewrite !fmap_cons, stack_cons. unfold tensor, row in *. rewrite IH.
  rewrite decide_True by by rewrite !length_fmap.
  f_equal. rewrite zip_with_fmap_l, zip_with_fmap_r, zip_with_diag.
  apply list_fmap_ext. intros i r _. apply take_drop_step.
Qed.

Lemma first_heads_no_force b b' layer_idx items ks vs c :
  force_quant self = false →
  b_heads b' = b_heads b →
  Forall (λ r, length r = b_heads b) (b_rows b) →
  Forall (λ r, length r = b_heads b') (b_rows b') →
  Forall (λ it : nat * bits, it.1 < b_heads b) items →
  first_heads quantize dequantize self b b' layer_idx items ks vs c
  = (foldl (λ c it,
        push_head layer_idx
          (Stored
             (quantize ((λ r : row, take 1 (drop it.1 r)) <$> b_rows b)
                (axis_key self) (cfg_nbits_key it.2))
             (quantize ((λ r : row, take 1 (drop it.1 r)) <$> b_rows b')
                (axis_value self) (cfg_nbits_value it.2))
             Placeholder Placeholder) c) c items,
     inr (ks ++ ((λ it, (λ r : row, take 1 (drop it.1 r)) <$> b_rows b) <$> items),
          vs ++ ((λ it, (λ r : row, take 1 (drop it.1 r)) <$> b_rows b') <$> items))).
Proof.
  intros Hfq Hh Hwf Hwf' Hitems. revert ks vs c.
  induction Hitems as [|[head_idx config] items Hlt _ IH]; intros ks vs c.
  - simpl. by rewrite !app_nil_r.
  - cbn [first_heads]. simpl in Hlt.
    rewrite (head_slice_spec b head_idx) by done.
    rewrite (head_slice_spec b' head_idx) by (done || lia).
    unfold first_append. rewrite Hfq.
    unfold bind at 1, lift at 1, ret at 1. cbn [fst snd].
    unfold bind at 1, lift at 1, ret at 1. cbn [fst snd].
    unfold bind at 1, modify at 1. cbn [fst snd].
    rewrite IH. cbn [foldl fmap list_fmap fst snd].
    by rewrite <- !(assoc_L (++)).
Qed.

Lemma foldl_push_head layer_idx (g : nat * bits → @stored pos blob) items c
    xk xv xqk xqv :
  key_cache c !! layer_idx = Some (Heads xk) →
  value_cache c !! layer_idx = Some (Heads xv) →
  _quantized_key_cache c !! layer_idx = Some (Heads xqk) →
  _quantized_value_cache c !! layer_idx = Some (Heads xqv) →
  let c' := foldl (λ c it, push_head layer_idx (g it) c) c items in
  key_cache c' !! layer_idx = Some (Heads (xk ++ ((λ it, s_k (g it)) <$> items))) ∧
  value_cache c' !! layer_idx = Some (Heads (xv ++ ((λ it, s_v (g it)) <$> items))) ∧
  _quantized_key_cache c' !! layer_idx
  = Some (Heads (xqk ++ ((λ it, s_qk (g it)) <$> items))) ∧
  _quantized_value_cache c' !! layer_idx
  = Some (Heads (xqv ++ ((λ it, s_qv (g it)) <$> items))).
Proof.
  revert c xk xv xqk xqv.
  induction items as [|it items IH]; intros c xk xv xqk xqv Hk Hv Hqk Hqv.
  - simpl. by rewrite !app_nil_r.
  - cbn [foldl fmap list_fmap].
    rewrite !(cons_middle _ _ ((λ it, _) <$> items)), !(assoc_L (++)).
    apply IH; unfold push_head; cbn [key_cache value_cache _quantized_key_cache
      _quantized_value_cache]; rewrite list_lookup_alter, decide_True by done;
      [rewrite Hk|rewrite Hv|rewrite Hqk|rewrite Hqv]; done.
Qed.

(** X23: the first per-head update of a layer, without [force_quant], on
    well-formed blocks with at least one head and a head table whose keys
    are [0, 1, ..., heads - 1] in this order.  It returns the two blocks as
    given, and stores for each head the quantized slice of the head, at
    the bit widths of the head's entry, with a placeholder as residual. *)
Theorem per_head_first_update_spec b b' layer_idx table c :
  per_head_quant self = true →
  force_quant self = false →
  length (key_cache c) = layer_idx →
  length (value_cache c) = layer_idx →
  length (_quantized_key_cache c) = layer_idx →
  length (_quantized_value_cache c) = layer_idx →
  per_head_config self !! layer_idx = Some table →
  table.*1 = seq 0 (b_heads b) →
  1 ≤ b_heads b →
  b_heads b' = b_heads b →
  Forall (λ r, length r = b_heads b) (b_rows b) →
  Forall (λ r, length r = b_heads b') (b_rows b') →
  let r := update quantize dequantize self b b' layer_idx c in
  r.2 = inr (b_rows b, b_rows b') ∧
  _quantized_key_cache r.1 !! layer_idx
  = Some (Heads ((λ it : nat * bits,
        quantize ((λ r : row, take 1 (drop it.1 r)) <$> b_rows b)
          (axis_key self) (cfg_nbits_key it.2)) <$> table)) ∧
  _quantized_value_cache r.1 !! layer_idx
  = Some (Heads ((λ it : nat * bits,
        quantize ((λ r : row, take 1 (drop it.1 r)) <$> b_rows b')
          (axis_value self) (cfg_nbits_value it.2)) <$> table)) ∧
  key_cache r.1 !! layer_idx = Some (Heads (replicate (b_heads b) Placeholder)) ∧
  value_cache r.1 !! layer_idx = Some (Heads (replicate (b_heads b) Placeholder)).
Proof.
  intros Hph Hfq Lk Lv Lqk Lqv Htab Hkeys Hone Hh Hwf Hwf'.
  assert (Hlen : length table = b_heads b).
  { by rewrite <- (length_fmap fst), Hkeys, length_seq. }
  assert (Hitems : Forall (λ it : nat * bits, it.1 < b_heads b) table).
  { apply Forall_fmap with (f := fst) (P := λ h, h < b_heads b).
    rewrite Hkeys. apply Forall_forall. intros h Hin.
    apply elem_of_seq in Hin. lia. }
  set (c0 := count_tokens b layer_idx c).
  assert (Lk0 : length (key_cache c0) = layer_idx).
  { unfold c0, count_tokens. by destruct (layer_idx =? 0). }
  assert (Lv0 : length (value_cache c0) = layer_idx).
  { unfold c0, count_tokens. by destruct (layer_idx =? 0). }
  assert (Lqk0 : length (_quantized_key_cache c0) = layer_idx).
  { unfold c0, count_tokens. by destruct (layer_idx =? 0). }
  assert (Lqv0 : length (_quantized_value_cache c0) = layer_idx).
  { unfold c0, count_tokens. by destruct (layer_idx =? 0). }
  assert (Hslices : ∀ x : @block pos,
    Forall (λ r, length r = b_heads b) (b_rows x) →
    stack ((λ it : nat * bits, (λ r : row, take 1 (drop it.1 r)) <$> b_rows x)
             <$> table) = Some (b_rows x)).
  { intros x Hx.
    transitivity
      (stack ((λ h, (λ r : row, take 1 (drop h r)) <$> b_rows x) <$> table.*1)).
    { f_equal. by rewrite <- list_fmap_compose. }
    rewrite Hkeys. destruct (b_heads b) as [|n] eqn:E; [lia|].
    rewrite stack_head_slices. f_equal.
    rewrite <- (list_fmap_id (b_rows x)) at 2.
    apply Forall_fmap_ext. eapply Forall_impl; [exact Hx|].
    intros r Hr. simpl in Hr |- *. rewrite drop_0. apply take_ge. lia. }
  pose proof (foldl_push_head layer_idx
    (λ it, Stored
       (quantize ((λ r : row, take 1 (drop it.1 r)) <$> b_rows b)
          (axis_key self) (cfg_nbits_key it.2))
       (quantize ((λ r : row, take 1 (drop it.1 r)) <$> b_rows b')
          (axis_value self) (cfg_nbits_value it.2))
       Placeholder Placeholder) table (push_empty_heads c0) [] [] [] []) as Hst.
  cbn zeta in Hst.
  destruct Hst as (Sk & Sv & Sqk & Sqv);
    try (unfold push_empty_heads; cbn [key_cache value_cache
           _quantized_key_cache _quantized_value_cache];
         by apply list_lookup_middle).
  assert (Hupd : update quantize dequantize self b b' layer_idx c
    = (foldl (λ c it,
         push_head layer_idx
           (Stored
              (quantize ((λ r : row, take 1 (drop it.1 r)) <$> b_rows b)
                 (axis_key self) (cfg_nbits_key it.2))
              (quantize ((λ r : row, take 1 (drop it.1 r)) <$> b_rows b')
                 (axis_value self) (cfg_nbits_value it.2))
              Placeholder Placeholder) c) (push_empty_heads c0) table,
       inr (b_rows b, b_rows b'))).
  { unfold update.
    unfold bind at 1, modify at 1. cbn [fst snd]. fold c0.
    unfold bind at 1, get at 1. cbn [fst snd].
    rewrite (proj2 (Nat.ltb_ge _ _)) by lia.
    rewrite Hph. cbn [negb].
    rewrite Hh, Nat.eqb_refl. cbn [negb].
    rewrite Htab. unfold bind at 1, lift at 1, ret at 1. cbn [fst snd].
    rewrite Hlen, Nat.eqb_refl. cbn [negb].
    rewrite Lk0, Nat.eqb_refl.
    unfold bind at 1. unfold bind at 1, modify at 1. cbn [fst snd].
    rewrite (first_heads_no_force b b' layer_idx table [] [] _ Hfq Hh Hwf Hwf' Hitems).
    cbn [fst snd app].
    rewrite (Hslices b Hwf).
    rewrite (Hslices b') by (by rewrite <- Hh).
    reflexivity. }
  cbn zeta. rewrite Hupd. cbn [fst snd].
  split; [done|].
  rewrite Sk, Sv, Sqk, Sqv. cbn [app s_k s_v s_qk s_qv].
  split_and!; try done.
  - by rewrite <- Hlen, (const_fmap _ table Placeholder).
  - by rewrite <- Hlen, (const_fmap _ table Placeholder).
Qed.

End Per_head.


(** ** The further theorems at concrete inputs *)

Lemma round_codec_length (t : list (list Z)) (axis nbits : Z) :
  length (round_dequantize (round_quantize t axis nbits)) = length t.
Proof. unfold round_dequantize, round_quantize. by rewrite !length_map. Qed.

Lemma update_of_other_layers_keeps_counter_witness :
  _seen_tokens
    (update round_quantize round_dequantize (scenario_config false)
       (Block 1 [[7%Z]]) (Block 1 [[7%Z]]) 1
       (Cache 3 [Layer Placeholder] [Layer Placeholder]
          [Layer [[1%Z]]] [Layer [[1%Z]]])).1
  = 3%Z.
Proof.
  apply (update_of_other_layers_keeps_counter round_quantize round_dequantize
           (scenario_config false) (Block 1 [[7%Z]]) (Block 1 [[7%Z]]) 1
           (Cache 3 [Layer Placeholder] [Layer Placeholder]
              [Layer [[1%Z]]] [Layer [[1%Z]]])).
  lia.
Defined.

Lemma no_merge_right_after_merge_witness :
  let c4 := (run round_quantize round_dequantize (scenario_config false)
               (single_steps Z.of_nat 4) empty_cache).1 in
  merges (scenario_config false) c4 0 = true ∧
  merges (scenario_config false)
    (update round_quantize round_dequantize (scenario_config false)
       (Block 1 [[5%Z]]) (Block 1 [[5%Z]]) 0 c4).1 0 = false.
Proof.
  split; [reflexivity|].
  refine (no_merge_right_after_merge round_quantize round_dequantize
            (scenario_config false) (Block 1 [[5%Z]]) (Block 1 [[5%Z]]) 0
            (run round_quantize round_dequantize (scenario_config false)
               (single_steps Z.of_nat 4) empty_cache).1
            (Bits 4 4)
            (Stored [[0]]%Z [[0]]%Z (Arr [[2]; [3]; [4]]%Z) (Arr [[2]; [3]; [4]]%Z))
            eq_refl eq_refl _ eq_refl).
  repeat split.
Defined.

Lemma force_quant_whole_groups_stay_residual_witness :
  update round_quantize round_dequantize (scenario_config true)
    (Block 1 [[1]; [2]; [3]; [4]]%Z) (Block 1 [[1]; [2]; [3]; [4]]%Z) 0 empty_cache
  = (Cache 4 [Layer (Arr [[1]; [2]; [3]; [4]]%Z)] [Layer (Arr [[1]; [2]; [3]; [4]]%Z)]
       [Layer []] [Layer []],
     inr ([[1]; [2]; [3]; [4]]%Z, [[1]; [2]; [3]; [4]]%Z)).
Proof.
  refine (force_quant_whole_groups_stay_residual round_quantize round_dequantize
            (scenario_config true)
            (Block 1 [[1]; [2]; [3]; [4]]%Z) (Block 1 [[1]; [2]; [3]; [4]]%Z)
            0 empty_cache (Bits 4 4) eq_refl eq_refl eq_refl eq_refl _ eq_refl).
  simpl. lia.
Defined.

Lemma reported_length_is_stored_length_witness :
  get_seq_length
    (run round_quantize round_dequantize (scenario_config false)
       (single_steps Z.of_nat 6) empty_cache).1 0
  = shape_m2 (round_dequantize [[0]; [0]; [0]; [1]; [1]]%Z ++ [[6%Z]]).
Proof.
  refine (reported_length_is_stored_length round_quantize round_dequantize
            (scenario_config false) eq_refl round_codec_length (Bits 4 4)
            (single_steps Z.of_nat 6)
            (Stored [[0]; [0]; [0]; [1]; [1]]%Z [[0]; [0]; [0]; [1]; [1]]%Z
                    (Arr [[6%Z]]) (Arr [[6%Z]]))
            eq_refl _).
  repeat split.
Defined.

Lemma single_position_merge_steps_witness :
  5 ∈ merge_steps round_quantize round_dequantize (scenario_config false)
        (single_steps Z.of_nat 10) empty_cache
  ↔ 2 ≤ 5 ≤ 10 ∧ ((Z.of_nat 5 - 1) `mod` 4 = 0)%Z.
Proof.
  refine (single_position_merge_steps round_quantize round_dequantize
            (scenario_config false) eq_refl _ (Bits 4 4) Z.of_nat 10 5 eq_refl).
  simpl. lia.
Defined.

Lemma short_residual_merges_every_other_step_witness :
  5 ∈ merge_steps round_quantize round_dequantize short_residual_config
        (single_steps Z.of_nat 6) empty_cache
  ↔ 3 ≤ 5 ≤ length (single_steps Z.of_nat 6) ∧ Nat.odd 5 = true.
Proof.
  refine (short_residual_merges_every_other_step round_quantize round_dequantize
            short_residual_config eq_refl _ (Bits 4 4)
            (single_steps Z.of_nat 6) 5 eq_refl eq_refl _).
  - simpl. lia.
  - repeat constructor.
Defined.

Lemma accepted_config_is_consistent_witness :
  nbits_key (CacheConfig quanto 4 4 2 0 0 false 64 4 false false ∅ false ∅) = 4%Z ∧
  nbits_value (CacheConfig quanto 4 4 2 0 0 false 64 4 false false ∅ false ∅) = 2%Z.
Proof.
  pose proof (accepted_config_is_consistent quanto 4 0 2 0 0 false 64 4 false
                false None None false None None
                (CacheConfig quanto 4 4 2 0 0 false 64 4 false false ∅ false ∅)
                eq_refl) as (_ & _ & _ & Hv & _).
  split; [reflexivity|]. apply Hv. lia.
Defined.

Lemma parse_quant_config_of_name_witness :
  parse_quant_config "K4V2" = inr (Bits 4 2) ∧
  parse_quant_config "KV4" = inr (Bits 4 4).
Proof. apply (parse_quant_config_of_name 4 2); lia. Defined.

Lemma build_per_layer_config_entries_witness :
  is_Some (llama_per_layer_config !! 7) ↔
  ∃ j layers, j < length [1; 0] ∧
    current_layer_grouping llama_globals !! j = Some layers ∧ 7 ∈ layers.
Proof.
  refine (proj1 (build_per_layer_config_entries llama_globals [1; 0]
                   llama_per_layer_config 172 _) 7).
  vm_compute. reflexivity.
Defined.

Lemma build_per_layer_config_succeeds_witness :
  ∃ m t, build_per_layer_config llama_globals [1; 0] = inr (m, t).
Proof.
  apply (build_per_layer_config_succeeds llama_globals [1; 0]).
  - intros H. vm_compute in H. discriminate H.
  - intros j config H.
    destruct j as [|[|j]]; [| |discriminate H]; injection H as <-;
      (split; [eexists; vm_compute; reflexivity|]);
      eexists _, _; split; vm_compute; reflexivity.
Defined.

Lemma update_with_built_config_witness :
  (update round_quantize round_dequantize llama_cache_config
     (Block 1 [[7%Z]]) (Block 1 [[7%Z]]) 0 empty_cache).2 = inl KeyError
  ↔ ¬ ∃ j layers, j < length [1; 0] ∧
        current_layer_grouping llama_globals !! j = Some layers ∧ 0 ∈ layers.
Proof.
  refine (update_with_built_config round_quantize round_dequantize
            llama_cache_config llama_globals [1; 0] llama_per_layer_config 172
            (Block 1 [[7%Z]]) (Block 1 [[7%Z]]) 0 empty_cache
            _ eq_refl eq_refl eq_refl _).
  - vm_compute. reflexivity.
  - simpl. lia.
Defined.

Lemma prepare_on_the_tables_witness :
  (prepare_layer_grouping_config "Qwen2.5-32B-Instruct" "per-channel-asym"
     (initial_globals false)).2
  = inl PyValueError.
Proof.
  apply (prepare_on_the_tables "Qwen2.5-32B-Instruct" "per-channel-asym" false);
    repeat constructor.
Defined.

Lemma tables_cover_the_layers_witness :
  ∃ groups tot,
    LAYER_GROUPING_CONFIG !! "Qwen2.5-14B-Instruct" ≫= (.!! "per-channel-asym")
    = Some groups ∧
    TOT_LAYER !! "Qwen2.5-14B-Instruct" = Some tot ∧
    (∀ layer : nat, layer ∈ concat groups ↔ (Z.of_nat layer < tot)%Z) ∧
    (NoDup (concat groups) ↔
     ¬ ("per-channel-asym" = "per-channel-asym" ∧
        ("Qwen2.5-14B-Instruct" = "Qwen2.5-14B-Instruct" ∨
         "Qwen2.5-14B-Instruct" = "Qwen2.5-32B-Instruct"))).
Proof.
  apply (tables_cover_the_layers "Qwen2.5-14B-Instruct" "per-channel-asym");
    repeat constructor.
Defined.

Lemma per_head_first_update_spec_witness :
  (update round_quantize round_dequantize two_heads_config
     (Block 2 [[1; 10]; [2; 20]]%Z) (Block 2 [[3; 30]; [4; 40]]%Z) 0 empty_cache).2
  = inr ([[1; 10]; [2; 20]]%Z, [[3; 30]; [4; 40]]%Z).
Proof.
  refine (proj1
    (per_head_first_update_spec round_quantize round_dequantize two_heads_config
       (Block 2 [[1; 10]; [2; 20]]%Z) (Block 2 [[3; 30]; [4; 40]]%Z) 0
       [(0, Bits 4 4); (1, Bits 2 2)] empty_cache
       eq_refl eq_refl eq_refl eq_refl eq_refl eq_refl eq_refl eq_refl
       _ eq_refl _ _)).
  - simpl. lia.
  - repeat constructor.
  - repeat constructor.
Defined.


(** ** The entries of a head, update after update *)

Section Head_entries.
Context {pos blob : Type}.
Variable quantize : @tensor pos → Z → Z → blob.
Variable dequantize : blob → @tensor pos.
Variable self : cache_config.

Implicit Types (c : @cache pos blob) (s : @stored pos blob) (b : @block pos).

Local Abbreviation slice h b := ((λ r : row, take 1 (drop h r)) <$> b_rows b).

Lemma head_of_inr {A} head_idx (o : option (slot A)) (x : A) :
  head_of head_idx o = inr x ↔ ∃ xs, o = Some (Heads xs) ∧ xs !! head_idx = Some x.
Proof.
  unfold head_of. split.
  - destruct o as [[y|xs]|]; [done| |done].
    destruct (xs !! head_idx) as [z|] eqn:E; [|done].
    intros [= ->]. by exists xs.
  - intros (xs & -> & ->). done.
Qed.

Lemma read_head_entry c layer_idx head_idx s :
  head_entry c layer_idx head_idx s →
  read_head layer_idx head_idx c = (c, inr s).
Proof.
  intros (H1 & H2 & H3 & H4).
  unfold read_head, bind, get, lift_exn, ret. rewrite H1, H2, H3, H4. simpl.
  by destruct s.
Qed.

Lemma head_entry_count_tokens b l c layer_idx head_idx s :
  head_entry c layer_idx head_idx s ↔
  head_entry (count_tokens b l c) layer_idx head_idx s.
Proof.
  unfold head_entry.
  destruct (count_tokens_lists b l c) as (-> & -> & -> & ->). done.
Qed.

Lemma head_entry_lt c layer_idx head_idx s :
  head_entry c layer_idx head_idx s → layer_idx < length (key_cache c).
Proof.
  intros (_ & _ & H & _). apply head_of_inr in H as (ks & Hl & _).
  by eapply lookup_lt_Some.
Qed.

Lemma head_of_write {A} head_idx (x y : A) layer_idx (xs : list (slot A)) :
  head_of head_idx (xs !! layer_idx) = inr y →
  head_of head_idx (alter (slot_set head_idx x) layer_idx xs !! layer_idx) = inr x.
Proof.
  rewrite head_of_inr. intros (ys & Hl & Hh).
  rewrite list_lookup_alter_eq, Hl. simpl.
  by rewrite list_lookup_insert_eq by (by eapply lookup_lt_Some).
Qed.

Lemma head_of_write_ne {A} head_idx h (x : A) layer_idx (xs : list (slot A)) :
  h ≠ head_idx →
  head_of h (alter (slot_set head_idx x) layer_idx xs !! layer_idx)
  = head_of h (xs !! layer_idx).
Proof.
  intros Hne. rewrite list_lookup_alter_eq.
  destruct (xs !! layer_idx) as [[y|ys]|]; simpl; [done| |done].
  by rewrite list_lookup_insert_ne.
Qed.

Lemma head_entry_write c layer_idx head_idx s s' :
  head_entry c layer_idx head_idx s →
  head_entry (write_head layer_idx head_idx s' c) layer_idx head_idx s'.
Proof.
  intros (H1 & H2 & H3 & H4). unfold head_entry, write_head. simpl.
  split_and!; by eapply head_of_write.
Qed.

Lemma head_entry_write_ne c layer_idx head_idx h s s' :
  h ≠ head_idx →
  head_entry (write_head layer_idx head_idx s' c) layer_idx h s ↔
  head_entry c layer_idx h s.
Proof.
  intros Hne. unfold head_entry, write_head. simpl.
  by rewrite !head_of_write_ne.
Qed.

Lemma head_merges_entry c layer_idx head_idx s :
  head_entry c layer_idx head_idx s →
  head_merges self c layer_idx head_idx = merge_due self (s_k s).
Proof.
  intros (_ & _ & H & _). apply head_of_inr in H as (ks & Hl & Hh).
  unfold head_merges, head_residual. by rewrite Hl, Hh.
Qed.

Lemma head_residual_size_entry c layer_idx head_idx s :
  head_entry c layer_idx head_idx s →
  head_residual_size c layer_idx head_idx = shape_m2 (res_rows (s_k s)).
Proof.
  intros (_ & _ & H & _). apply head_of_inr in H as (ks & Hl & Hh).
  unfold head_residual_size, head_residual. by rewrite Hl, Hh.
Qed.

(** The choice lines 259-269 make for a head, the list of histories
    holding the head's own at [head_idx]: it is that of a layer. *)
Lemma head_merge_choice s (kh vh : @tensor pos) nbk nbv (ks vs : list (@tensor pos))
    head_idx c :
  length ks = head_idx → length vs = head_idx →
  (if merge_due self (s_k s) then
     bind (lift IndexError
             ((ks ++ [dequantize (s_qk s) ++ res_rows (s_k s) ++ kh]) !! head_idx))
       (λ k,
          bind (lift IndexError
                  ((vs ++ [dequantize (s_qv s) ++ res_rows (s_v s) ++ vh])
                     !! head_idx))
            (λ v,
               ret (Stored (quantize k (axis_key self) nbk)
                           (quantize v (axis_value self) nbv)
                           Placeholder Placeholder)))
   else
     ret (Stored (s_qk s) (s_qv s)
                 (Arr (res_rows (s_k s) ++ kh))
                 (Arr (res_rows (s_v s) ++ vh)))) c
  = (c, inr (later_append quantize dequantize self s kh vh nbk nbv).1).
Proof.
  intros Hk Hv. unfold later_append.
  destruct (merge_due self (s_k s)); [|done].
  rewrite (list_lookup_middle ks [] _ head_idx (eq_sym Hk)).
  rewrite (list_lookup_middle vs [] _ head_idx (eq_sym Hv)). done.
Qed.

Lemma in_order_cons (it : nat * bits) (items : list (nat * bits)) i :
  (it :: items).*1 = seq i (length (it :: items)) →
  it.1 = i ∧ items.*1 = seq (S i) (length items).
Proof. simpl. intros [= H1 H2]. done. Qed.

(** The loop of a later per-head update over a head table in head order:
    each head goes the way a layer does, on the head's slices. *)
Lemma later_heads_in_order b b' layer_idx (ss : nat → @stored pos blob) :
  well_formed b → well_formed b' → b_heads b' = b_heads b →
  ∀ (items : list (nat * bits)) i (ks vs : list (@tensor pos)) c,
    items.*1 = seq i (length items) →
    i + length items ≤ b_heads b →
    length ks = i → length vs = i →
    (∀ h, i ≤ h < i + length items → head_entry c layer_idx h (ss h)) →
    ∃ c',
      later_heads quantize dequantize self b b' layer_idx items ks vs c
      = (c',
         inr (ks ++ ((λ it : nat * bits,
                        dequantize (s_qk (ss it.1)) ++ res_rows (s_k (ss it.1))
                          ++ slice it.1 b) <$> items),
              vs ++ ((λ it : nat * bits,
                        dequantize (s_qv (ss it.1)) ++ res_rows (s_v (ss it.1))
                          ++ slice it.1 b') <$> items))) ∧
      (∀ j h nb, items !! j = Some (h, nb) →
         head_entry c' layer_idx h
           (later_append quantize dequantize self (ss h) (slice h b) (slice h b')
              (cfg_nbits_key nb) (cfg_nbits_value nb)).1) ∧
      (∀ h s, ¬ (i ≤ h < i + length items) →
         head_entry c layer_idx h s → head_entry c' layer_idx h s).
Proof.
  intros Hwf Hwf' Hh items.
  induction items as [|[h0 config] items IH]; intros i ks vs c Hkeys Hle Hk Hv Hss.
  - exists c. simpl. rewrite !app_nil_r. split; [done|]. split; [|done].
    intros j h nb Hj. done.
  - apply in_order_cons in Hkeys as [Hh0 Hkeys]. simpl in Hh0. subst h0.
    simpl in Hle.
    cbn [later_heads].
    unfold bind at 1. rewrite (read_head_entry c layer_idx i (ss i))
      by (apply Hss; simpl; lia).
    rewrite (head_slice_spec b i) by (done || lia).
    rewrite (head_slice_spec b' i) by (done || lia).
    unfold bind at 1, lift at 1, ret at 1. cbn [fst snd].
    unfold bind at 1, lift at 1, ret at 1. cbn [fst snd].
    unfold bind at 1.
    rewrite (head_merge_choice (ss i) (slice i b) (slice i b')
               (cfg_nbits_key config) (cfg_nbits_value config) ks vs i c Hk Hv).
    set (s' := (later_append quantize dequantize self (ss i) (slice i b)
                  (slice i b') (cfg_nbits_key config) (cfg_nbits_value config)).1).
    unfold bind at 1, modify at 1. cbn [fst snd].
    destruct (IH (S i)
                (ks ++ [dequantize (s_qk (ss i)) ++ res_rows (s_k (ss i)) ++ slice i b])
                (vs ++ [dequantize (s_qv (ss i)) ++ res_rows (s_v (ss i)) ++ slice i b'])
                (write_head layer_idx i s' c))
      as (c' & Heq & Hin & Hout).
    + done.
    + lia.
    + rewrite length_app. simpl. lia.
    + rewrite length_app. simpl. lia.
    + intros h Hrange. apply head_entry_write_ne; [lia|]. apply Hss. simpl. lia.
    + exists c'. split; [|split].
      * rewrite Heq. cbn [fmap list_fmap fst snd].
        by rewrite <- !(assoc_L (++)).
      * intros [|j] h nb Hj; simpl in Hj.
        -- injection Hj as <- <-. apply Hout; [lia|].
           apply (head_entry_write _ _ _ (ss i)). apply Hss. simpl. lia.
        -- by apply (Hin j).
      * intros h s Hrange He. apply Hout; [simpl in Hrange; lia|].
        apply head_entry_write_ne; [simpl in Hrange; lia|done].
Qed.

End Head_entries.


Section Head_updates.
Context {pos blob : Type}.
Variable quantize : @tensor pos → Z → Z → blob.
Variable dequantize : blob → @tensor pos.
Variable self : cache_config.

Implicit Types (c : @cache pos blob) (s : @stored pos blob) (b : @block pos).

Local Abbreviation slice h b := ((λ r : row, take 1 (drop h r)) <$> b_rows b).

Lemma fits_length (table : list (nat * bits)) b b' :
  fits table b b' → length table = b_heads b.
Proof. intros (Hkeys & _). by rewrite <- (length_fmap fst), Hkeys, length_seq. Qed.

Lemma fits_lookup (table : list (nat * bits)) b b' h :
  fits table b b' → h < b_heads b → ∃ nb, table !! h = Some (h, nb).
Proof.
  intros (Hkeys & _) Hlt.
  assert (table.*1 !! h = Some h) as Hl
    by (rewrite Hkeys; by apply lookup_seq_lt).
  rewrite list_lookup_fmap in Hl.
  destruct (table !! h) as [[h' nb]|]; [|done].
  simpl in Hl. injection Hl as ->. by exists nb.
Qed.

Lemma fits_lookup_lt (table : list (nat * bits)) b b' j h nb :
  fits table b b' → table !! j = Some (h, nb) → j = h ∧ h < b_heads b.
Proof.
  intros (Hkeys & _) Hj.
  assert (table.*1 !! j = Some h) as Hl by (by rewrite list_lookup_fmap, Hj).
  rewrite Hkeys in Hl. apply lookup_seq in Hl. lia.
Qed.

(** A later update of a layer kept in per-head mode, the head table in
    head order: what it returns and what it leaves for each head. *)
Lemma update_later_heads b b' layer_idx c table (ss : nat → @stored pos blob) :
  per_head_quant self = true →
  per_head_config self !! layer_idx = Some table →
  fits table b b' →
  layer_idx < length (key_cache c) →
  (∀ h, h < b_heads b → head_entry c layer_idx h (ss h)) →
  ∃ c',
    update quantize dequantize self b b' layer_idx c
    = (c',
       match stack ((λ it : nat * bits,
                       dequantize (s_qk (ss it.1)) ++ res_rows (s_k (ss it.1))
                         ++ slice it.1 b) <$> table) with
       | Some k =>
           match stack ((λ it : nat * bits,
                           dequantize (s_qv (ss it.1)) ++ res_rows (s_v (ss it.1))
                             ++ slice it.1 b') <$> table) with
           | Some v => inr (k, v)
           | None => inl RuntimeError
           end
       | None => inl RuntimeError
       end) ∧
    (∀ h nb, table !! h = Some (h, nb) →
       head_entry c' layer_idx h
         (later_append quantize dequantize self (ss h) (slice h b) (slice h b')
            (cfg_nbits_key nb) (cfg_nbits_value nb)).1).
Proof.
  intros Hph Htab Hfits Hlt Hss.
  pose proof (fits_length _ _ _ Hfits) as Hlen.
  destruct Hfits as (Hkeys & Hh & Hwf & Hwf').
  set (c0 := count_tokens b layer_idx c).
  assert (Lk0 : length (key_cache c0) = length (key_cache c))
    by (unfold c0, count_tokens; by destruct (layer_idx =? 0)).
  destruct (later_heads_in_order quantize dequantize self b b' layer_idx ss
              Hwf Hwf' Hh table 0 [] [] c0)
    as (c' & Heq & Hin & _).
  - by rewrite Hlen.
  - lia.
  - done.
  - done.
  - intros h Hr. apply head_entry_count_tokens. apply Hss. lia.
  - exists c'. split.
    + unfold update.
      unfold bind at 1, modify at 1. cbn [fst snd]. fold c0.
      unfold bind at 1, get at 1. cbn [fst snd].
      rewrite (proj2 (Nat.ltb_ge _ _)) by lia.
      rewrite Hph. cbn [negb].
      rewrite Hh, Nat.eqb_refl. cbn [negb].
      rewrite Htab. unfold bind at 1, lift at 1, ret at 1. cbn [fst snd].
      rewrite Hlen, Nat.eqb_refl. cbn [negb].
      rewrite (proj2 (Nat.eqb_neq _ _)) by lia.
      unfold bind at 1. rewrite Heq. cbn [fst snd app].
      unfold bind, lift, ret, raise.
      destruct (stack _); [|done]. by destruct (stack _).
    + intros h nb Ht. by apply (Hin h).
Qed.

Lemma first_heads_state b b' layer_idx (items : list (nat * bits))
    (ks vs : list (@tensor pos)) c :
  b_heads b' = b_heads b → well_formed b → well_formed b' →
  Forall (λ it : nat * bits, it.1 < b_heads b) items →
  (first_heads quantize dequantize self b b' layer_idx items ks vs c).1
  = foldl (λ c it,
       push_head layer_idx
         (first_append quantize dequantize self (slice it.1 b) (slice it.1 b')
            (cfg_nbits_key it.2) (cfg_nbits_value it.2)).1 c) c items.
Proof.
  intros Hh Hwf Hwf' Hitems. revert ks vs c.
  induction Hitems as [|[head_idx config] items Hlt _ IH]; intros ks vs c.
  - done.
  - cbn [first_heads foldl fst snd]. simpl in Hlt.
    rewrite (head_slice_spec b head_idx) by done.
    rewrite (head_slice_spec b' head_idx) by (done || lia).
    unfold bind at 1, lift at 1, ret at 1. cbn [fst snd].
    unfold bind at 1, lift at 1, ret at 1. cbn [fst snd].
    destruct (first_append _ _ _ _ _ _ _) as [s0 [k0 v0]].
    unfold bind at 1, modify at 1. cbn [fst snd].
    apply IH.
Qed.

(** The first update of a layer kept in per-head mode, the head table in
    head order: what it leaves for each head. *)
Lemma update_first_heads b b' layer_idx c table :
  per_head_quant self = true →
  per_head_config self !! layer_idx = Some table →
  fits table b b' →
  same_length c →
  layer_idx = length (key_cache c) →
  ∀ h nb, table !! h = Some (h, nb) →
    head_entry (update quantize dequantize self b b' layer_idx c).1 layer_idx h
      (first_append quantize dequantize self (slice h b) (slice h b')
         (cfg_nbits_key nb) (cfg_nbits_value nb)).1.
Proof.
  intros Hph Htab Hfits (L1 & L2 & L3) Hl h nb Ht.
  pose proof (fits_length _ _ _ Hfits) as Hlen.
  assert (Hitems : Forall (λ it : nat * bits, it.1 < b_heads b) table).
  { apply Forall_lookup. intros j [h' nb'] Hj.
    by destruct (fits_lookup_lt _ _ _ _ _ _ Hfits Hj). }
  destruct Hfits as (Hkeys & Hh & Hwf & Hwf').
  set (c0 := count_tokens b layer_idx c).
  destruct (count_tokens_lists b layer_idx c) as (E1 & E2 & E3 & E4).
  fold c0 in E1, E2, E3, E4.
  set (g := λ it : nat * bits,
         (first_append quantize dequantize self (slice it.1 b) (slice it.1 b')
            (cfg_nbits_key it.2) (cfg_nbits_value it.2)).1).
  assert (Hupd : (update quantize dequantize self b b' layer_idx c).1
                 = foldl (λ c it, push_head layer_idx (g it) c)
                     (push_empty_heads c0) table).
  { unfold update.
    unfold bind at 1, modify at 1. cbn [fst snd]. fold c0.
    unfold bind at 1, get at 1. cbn [fst snd].
    rewrite E1, <- Hl, Nat.ltb_irrefl.
    rewrite Hph. cbn [negb].
    rewrite Hh, Nat.eqb_refl. cbn [negb].
    rewrite Htab. unfold bind at 1, lift at 1, ret at 1. cbn [fst snd].
    rewrite Hlen, Nat.eqb_refl. cbn [negb].
    rewrite Nat.eqb_refl.
    unfold bind at 1. unfold bind at 1, modify at 1. cbn [fst snd].
    pose proof (first_heads_state b b' layer_idx table [] [] (push_empty_heads c0)
                  Hh Hwf Hwf' Hitems) as Hst.
    fold g in Hst.
    destruct (first_heads _ _ _ _ _ _ _ _ _ _) as [c1 [e|[ks vs]]];
      simpl in Hst; subst c1; [done|].
    unfold bind, lift, ret, raise. cbn [fst snd].
    destruct (stack ks); [|done]. by destruct (stack vs). }
  rewrite Hupd.
  pose proof (foldl_push_head layer_idx g table (push_empty_heads c0) [] [] [] [])
    as Hst.
  cbn zeta in Hst.
  destruct Hst as (Sk & Sv & Sqk & Sqv);
    try (unfold push_empty_heads; cbn [key_cache value_cache
           _quantized_key_cache _quantized_value_cache];
         apply list_lookup_middle; congruence).
  unfold head_entry. rewrite Sk, Sv, Sqk, Sqv. cbn [app head_of].
  rewrite !list_lookup_fmap, Ht. done.
Qed.

End Head_updates.


Section Head_steps.
Context {pos blob : Type}.
Variable quantize : @tensor pos → Z → Z → blob.
Variable dequantize : blob → @tensor pos.
Variable self : cache_config.

Implicit Types (c : @cache pos blob) (s : @stored pos blob) (b : @block pos).

Local Abbreviation slice h b := ((λ r : row, take 1 (drop h r)) <$> b_rows b).

(** One [stored] for each head, for heads that each have one. *)
Lemma heads_choice c layer_idx (s0 : @stored pos blob) (heads : nat) :
  (∀ h, h < heads → ∃ s, head_entry c layer_idx h s) →
  ∃ ss : nat → @stored pos blob, ∀ h, h < heads → head_entry c layer_idx h (ss h).
Proof.
  induction heads as [|heads IH]; intros Hall.
  - exists (λ _, s0). intros h Hlt. lia.
  - destruct IH as [ss Hss]; [intros h Hlt; apply Hall; lia|].
    destruct (Hall heads) as [s1 Hs1]; [lia|].
    exists (λ h, if decide (h = heads) then s1 else ss h).
    intros h Hlt. destruct (decide (h = heads)) as [->|Hne]; [done|].
    apply Hss. lia.
Qed.

(** What a later append leaves in the residual. *)
Lemma later_append_residual s (ks vs : @tensor pos) nbk nbv :
  let s' := (later_append quantize dequantize self s ks vs nbk nbv).1 in
  (shape_m2 (res_rows (s_k s'))
   ≤ shape_m2 ks + Z.max 0 (residual_length self - 2))%Z ∧
  (shape_m2 ks = 1%Z → (1 ≤ residual_length self)%Z →
   (shape_m2 (res_rows (s_k s')) ≤ residual_length self)%Z) ∧
  (s_k s = Placeholder → shape_m2 (res_rows (s_k s')) = shape_m2 ks).
Proof.
  cbn zeta. unfold later_append.
  destruct (merge_due self (s_k s)) eqn:Hm; simpl.
  - apply merge_due_spec in Hm as [Ha _].
    unfold shape_m2. simpl. repeat split; try lia.
    intros Hp. by rewrite Hp in Ha.
  - assert (Hn : is_array (s_k s) = false ∨
                 (shape_m2 (res_rows (s_k s)) + 1 < residual_length self)%Z).
    { unfold merge_due in Hm. apply andb_false_iff in Hm as [Hm|Hm]; [by left|right].
      destruct (Z.geb_spec (shape_m2 (res_rows (s_k s)) + 1) (residual_length self));
        [done|lia]. }
    unfold shape_m2 in *. rewrite length_app.
    repeat split.
    + destruct Hn as [Hn|Hn]; [|lia].
      destruct (s_k s); [simpl; lia|done].
    + intros H1 HR. destruct Hn as [Hn|Hn]; [|lia].
      destruct (s_k s); [simpl; lia|done].
    + intros ->. simpl. lia.
Qed.

(** What a later append takes out of full precision when it merges. *)
Lemma later_append_step s (ks vs : @tensor pos) nbk nbv :
  ks ≠ [] →
  (residual_length self * (if merge_due self (s_k s) then 1 else 0)
   + shape_m2 (res_rows
                 (s_k (later_append quantize dequantize self s ks vs nbk nbv).1))
   ≤ shape_m2 (res_rows (s_k s)) + shape_m2 ks)%Z.
Proof.
  intros Hne. unfold later_append.
  destruct (merge_due self (s_k s)) eqn:Hm; simpl.
  - apply merge_due_spec in Hm as [_ Hm].
    unfold shape_m2 in *. simpl. destruct ks; [done|simpl; lia].
  - unfold shape_m2. rewrite length_app. lia.
Qed.

Lemma head_absent c layer_idx head_idx :
  length (key_cache c) ≤ layer_idx →
  head_merges self c layer_idx head_idx = false ∧
  head_residual_size c layer_idx head_idx = 0%Z.
Proof.
  intros Hle. unfold head_merges, head_residual_size, head_residual.
  by rewrite (lookup_ge_None_2 _ layer_idx) by lia.
Qed.

(** One update of a layer kept in per-head mode, first or later, against
    the residual it found for a head. *)
Lemma update_heads_step b b' layer_idx c table head_idx :
  per_head_quant self = true →
  per_head_config self !! layer_idx = Some table →
  fits table b b' →
  head_idx < length table →
  same_length c →
  layer_idx = length (key_cache c) ∨
  (∀ h, h < length table → ∃ s, head_entry c layer_idx h s) →
  b_rows b ≠ [] →
  let c' := (update quantize dequantize self b b' layer_idx c).1 in
  same_length c' ∧
  (∀ h, h < length table → ∃ s, head_entry c' layer_idx h s) ∧
  (residual_length self * (if head_merges self c layer_idx head_idx then 1 else 0)
   + head_residual_size c' layer_idx head_idx
   ≤ head_residual_size c layer_idx head_idx + shape_m2 (b_rows b))%Z.
Proof.
  intros Hph Htab Hfits Hlt Hsl Hstate Hne c'. subst c'.
  pose proof (fits_length _ _ _ Hfits) as Hlen.
  split; [by apply update_same_length|].
  assert (Hslice : ∀ h, shape_m2 (slice h b) = shape_m2 (b_rows b))
    by (intros h; unfold shape_m2; by rewrite length_fmap).
  destruct Hstate as [Hl|Hready].
  - assert (Hentries : ∀ h nb, table !! h = Some (h, nb) →
              head_entry (update quantize dequantize self b b' layer_idx c).1
                layer_idx h
                (first_append quantize dequantize self (slice h b) (slice h b')
                   (cfg_nbits_key nb) (cfg_nbits_value nb)).1)
      by (by apply update_first_heads).
    split.
    + intros h Hh. destruct (fits_lookup _ _ _ h Hfits) as [nb Hnb]; [lia|].
      eexists. by apply (Hentries h nb).
    + destruct (fits_lookup _ _ _ head_idx Hfits) as [nb Hnb]; [lia|].
      rewrite (head_residual_size_entry _ _ _ _ (Hentries head_idx nb Hnb)).
      destruct (head_absent c layer_idx head_idx) as [-> ->]; [lia|].
      pose proof (first_append_residual_le quantize dequantize self
                    (slice head_idx b) (slice head_idx b')
                    (cfg_nbits_key nb) (cfg_nbits_value nb)) as Hle.
      specialize (Hslice head_idx). unfold shape_m2 in *. lia.
  - destruct (Hready head_idx Hlt) as [s0 Hs0].
    destruct (heads_choice c layer_idx s0 (length table) Hready) as [ss Hss].
    destruct (update_later_heads quantize dequantize self b b' layer_idx c table ss
                Hph Htab Hfits (head_entry_lt _ _ _ _ Hs0))
      as (c' & Heq & Hentries).
    { intros h Hh. apply Hss. lia. }
    rewrite Heq. cbn [fst].
    split.
    + intros h Hh. destruct (fits_lookup _ _ _ h Hfits) as [nb Hnb]; [lia|].
      eexists. by apply (Hentries h nb).
    + destruct (fits_lookup _ _ _ head_idx Hfits) as [nb Hnb]; [lia|].
      rewrite (head_residual_size_entry _ _ _ _ (Hentries head_idx nb Hnb)).
      rewrite (head_residual_size_entry _ _ _ _ (Hss head_idx Hlt)).
      rewrite (head_merges_entry _ _ _ _ _ (Hss head_idx Hlt)).
      rewrite <- (Hslice head_idx).
      apply later_append_step.
      destruct (b_rows b); [done|discriminate].
Qed.

Lemma head_count_merges_cons head_idx (x : @call pos) calls c :
  head_count_merges quantize dequantize self head_idx (x :: calls) c =
  ((if head_merges self c (c_layer x) head_idx then 1 else 0)
   + head_count_merges quantize dequantize self head_idx calls
       (update quantize dequantize self (c_keys x) (c_values x) (c_layer x) c).1)%Z.
Proof.
  unfold head_count_merges, head_merge_steps. simpl.
  rewrite length_app, (steps_from_length 2 1).
  destruct (head_merges self c (c_layer x) head_idx); simpl; lia.
Qed.

Lemma head_residual_size_nonneg c layer_idx head_idx :
  (0 ≤ head_residual_size c layer_idx head_idx)%Z.
Proof.
  unfold head_residual_size, shape_m2.
  destruct (head_residual c layer_idx head_idx); lia.
Qed.

Lemma head_merge_rate layer_idx table head_idx (calls : list (@call pos)) :
  per_head_quant self = true →
  per_head_config self !! layer_idx = Some table →
  head_idx < length table →
  Forall (λ x, c_layer x = layer_idx ∧ fits table (c_keys x) (c_values x) ∧
               b_rows (c_keys x) ≠ []) calls →
  ∀ c, same_length c →
  layer_idx = length (key_cache c) ∨
  (∀ h, h < length table → ∃ s, head_entry c layer_idx h s) →
  (residual_length self * head_count_merges quantize dequantize self head_idx calls c
   ≤ head_residual_size c layer_idx head_idx + presented layer_idx calls)%Z.
Proof.
  intros Hph Htab Hlt Hall.
  induction Hall as [|x calls (Hx & Hfits & Hne) _ IH]; intros c Hsl Hstate.
  - unfold head_count_merges. simpl.
    pose proof (head_residual_size_nonneg c layer_idx head_idx). lia.
  - rewrite head_count_merges_cons. simpl.
    rewrite Hx, bool_decide_eq_true_2 by done.
    destruct (update_heads_step (c_keys x) (c_values x) layer_idx c table head_idx
                Hph Htab Hfits Hlt Hsl Hstate Hne) as (Hsl' & Hready' & Hstep).
    specialize (IH _ Hsl' (or_intror Hready')).
    destruct (head_merges self c layer_idx head_idx); lia.
Qed.

End Head_steps.


(** ** Every entry, of a layer or of a head *)

Section Every_entry.
Context {pos blob : Type}.
Variable quantize : @tensor pos → Z → Z → blob.
Variable dequantize : blob → @tensor pos.
Variable self : cache_config.

Implicit Types (c : @cache pos blob) (s : @stored pos blob) (b : @block pos).

Local Abbreviation slice h b := ((λ r : row, take 1 (drop h r)) <$> b_rows b).

Lemma head_entry_inj c layer_idx head_idx s s' :
  head_entry c layer_idx head_idx s → head_entry c layer_idx head_idx s' → s = s'.
Proof.
  intros (A1 & A2 & A3 & A4) (B1 & B2 & B3 & B4).
  destruct s, s'. simpl in *. congruence.
Qed.

(** A later update of a layer kept in per-head mode, the head table in
    head order, at one head: the head's entry goes the way that of a
    layer does, on the head's slices and with the head's bit widths. *)
Lemma update_head_later b b' layer_idx head_idx c table nb s :
  per_head_quant self = true →
  per_head_config self !! layer_idx = Some table →
  fits table b b' →
  table !! head_idx = Some (head_idx, nb) →
  (∀ h, h < b_heads b → ∃ s', head_entry c layer_idx h s') →
  head_entry c layer_idx head_idx s →
  head_entry (update quantize dequantize self b b' layer_idx c).1 layer_idx head_idx
    (later_append quantize dequantize self s (slice head_idx b) (slice head_idx b')
       (cfg_nbits_key nb) (cfg_nbits_value nb)).1.
Proof.
  intros Hph Htab Hfits Hnb Hready He.
  destruct (fits_lookup_lt _ _ _ _ _ _ Hfits Hnb) as [_ Hlt].
  destruct (heads_choice c layer_idx s (b_heads b) Hready) as [ss Hss].
  destruct (update_later_heads quantize dequantize self b b' layer_idx c table ss
              Hph Htab Hfits (head_entry_lt _ _ _ _ He) Hss)
    as (c' & Heq & Hentries).
  rewrite Heq. cbn [fst].
  rewrite (head_entry_inj _ _ _ _ _ He (Hss head_idx Hlt)).
  by apply Hentries.
Qed.

(** C1, as the code has it, for the entry of a layer and, the head table
    being in head order, for the entry of a head: on an update after the
    first, a merge (both quantized tiers replaced by the quantized full
    history of the entry, both residuals reset to the empty placeholder)
    happens exactly when the key residual found is an array, not the empty
    placeholder, and its length plus one reaches [residual_length];
    otherwise the tiers are kept and the new positions go onto the
    residual.  With [residual_length = 4] and one position per step at
    layer 0 for 10 steps, the merges are at steps 5 and 9 without
    [force_quant] (step 1 quantizes the first block), and at steps 4 and 8
    with it. *)
Theorem merge_timing (p : nat → pos) :
  (∀ key_states value_states layer_idx c nb s,
     per_head_quant self = false →
     layer_bits self layer_idx = Some nb →
     layer_entry c layer_idx s →
     let history_k := dequantize (s_qk s) ++ res_rows (s_k s) ++ b_rows key_states in
     let history_v := dequantize (s_qv s) ++ res_rows (s_v s) ++ b_rows value_states in
     (merges self c layer_idx = true ↔
      is_array (s_k s) = true ∧
      (residual_length self ≤ shape_m2 (res_rows (s_k s)) + 1)%Z) ∧
     (∃ c', update quantize dequantize self key_states value_states layer_idx c
            = (c', inr (history_k, history_v)) ∧
        layer_entry c' layer_idx
          (if merges self c layer_idx
           then Stored (quantize history_k (axis_key self) (cfg_nbits_key nb))
                       (quantize history_v (axis_value self) (cfg_nbits_value nb))
                       Placeholder Placeholder
           else Stored (s_qk s) (s_qv s)
                       (Arr (res_rows (s_k s) ++ b_rows key_states))
                       (Arr (res_rows (s_v s) ++ b_rows value_states))))) ∧
  (∀ key_states value_states layer_idx head_idx c table nb s new_k new_v,
     per_head_quant self = true →
     per_head_config self !! layer_idx = Some table →
     fits table key_states value_states →
     table !! head_idx = Some (head_idx, nb) →
     (∀ h, h < b_heads key_states → ∃ s', head_entry c layer_idx h s') →
     head_entry c layer_idx head_idx s →
     head_slice head_idx key_states = Some new_k →
     head_slice head_idx value_states = Some new_v →
     let history_k := dequantize (s_qk s) ++ res_rows (s_k s) ++ new_k in
     let history_v := dequantize (s_qv s) ++ res_rows (s_v s) ++ new_v in
     (head_merges self c layer_idx head_idx = true ↔
      is_array (s_k s) = true ∧
      (residual_length self ≤ shape_m2 (res_rows (s_k s)) + 1)%Z) ∧
     head_entry
       (update quantize dequantize self key_states value_states layer_idx c).1
       layer_idx head_idx
       (if head_merges self c layer_idx head_idx
        then Stored (quantize history_k (axis_key self) (cfg_nbits_key nb))
                    (quantize history_v (axis_value self) (cfg_nbits_value nb))
                    Placeholder Placeholder
        else Stored (s_qk s) (s_qv s)
                    (Arr (res_rows (s_k s) ++ new_k))
                    (Arr (res_rows (s_v s) ++ new_v)))) ∧
  merge_steps quantize dequantize (scenario_config false)
    (single_steps p 10) empty_cache = [5; 9] ∧
  merge_steps quantize dequantize (scenario_config true)
    (single_steps p 10) empty_cache = [4; 8].
Proof.
  split; [|split].
  - intros key_states value_states layer_idx c nb s Hh Hb He.
    destruct (layer_merge_timing quantize dequantize self key_states value_states
                layer_idx c nb s p Hh Hb He) as (H1 & H2 & _).
    by split.
  - intros key_states value_states layer_idx head_idx c table nb s new_k new_v
      Hph Htab Hfits Hnb Hready He Hk Hv history_k history_v.
    rewrite (head_merges_entry self _ _ _ _ He).
    split; [apply merge_due_spec|].
    pose proof (update_head_later key_states value_states layer_idx head_idx c
                  table nb s Hph Htab Hfits Hnb Hready He) as He'.
    destruct (fits_lookup_lt _ _ _ _ _ _ Hfits Hnb) as [_ Hlt].
    destruct Hfits as (_ & Hh & Hwf & Hwf').
    rewrite (head_slice_spec key_states head_idx Hlt Hwf) in Hk.
    rewrite (head_slice_spec value_states head_idx) in Hv by (done || lia).
    injection Hk as <-. injection Hv as <-.
    unfold later_append in He'. fold history_k history_v in He'.
    by destruct (merge_due self (s_k s)).
  - split; vm_compute; reflexivity.
Qed.

(** C5, as the code has it, for the entry of a layer and, the head table
    being in head order, for the entry of a head: an update after the
    first that appends [n] positions leaves at most
    [n + max(0, residual_length - 2)] positions in the residual, which for
    a single position and [residual_length ≥ 1] is at most
    [residual_length]; a block appended to the empty placeholder stays
    whole in the residual, whatever its length.  And over any sequence of
    non-empty blocks appended to a layer, each merge of an entry accounts
    for [residual_length] appended positions of its own: re-quantization
    happens at most once per [residual_length] appended positions. *)
Theorem residual_bound_and_merge_rate :
  (∀ layer_idx c nb (calls : list (@call pos)),
     per_head_quant self = false →
     layer_bits self layer_idx = Some nb →
     same_length c →
     layer_idx = length (key_cache c) ∨ (∃ s, layer_entry c layer_idx s) →
     Forall (λ x, c_layer x = layer_idx ∧ b_rows (c_keys x) ≠ []) calls →
     (∀ key_states value_states s,
        layer_entry c layer_idx s →
        let c' := (update quantize dequantize self key_states value_states
                     layer_idx c).1 in
        (residual_size c' layer_idx
         ≤ shape_m2 (b_rows key_states) + Z.max 0 (residual_length self - 2))%Z ∧
        (shape_m2 (b_rows key_states) = 1%Z → (1 ≤ residual_length self)%Z →
         (residual_size c' layer_idx ≤ residual_length self)%Z) ∧
        (s_k s = Placeholder →
         residual_size c' layer_idx = shape_m2 (b_rows key_states))) ∧
     (residual_length self * count_merges quantize dequantize self calls c
      ≤ residual_size c layer_idx + presented layer_idx calls)%Z) ∧
  (∀ layer_idx head_idx c table (calls : list (@call pos)),
     per_head_quant self = true →
     per_head_config self !! layer_idx = Some table →
     head_idx < length table →
     same_length c →
     layer_idx = length (key_cache c) ∨
     (∀ h, h < length table → ∃ s, head_entry c layer_idx h s) →
     Forall (λ x, c_layer x = layer_idx ∧ fits table (c_keys x) (c_values x) ∧
                  b_rows (c_keys x) ≠ []) calls →
     (∀ key_states value_states s,
        fits table key_states value_states →
        (∀ h, h < length table → ∃ s', head_entry c layer_idx h s') →
        head_entry c layer_idx head_idx s →
        let c' := (update quantize dequantize self key_states value_states
                     layer_idx c).1 in
        (head_residual_size c' layer_idx head_idx
         ≤ shape_m2 (b_rows key_states) + Z.max 0 (residual_length self - 2))%Z ∧
        (shape_m2 (b_rows key_states) = 1%Z → (1 ≤ residual_length self)%Z →
         (head_residual_size c' layer_idx head_idx ≤ residual_length self)%Z) ∧
        (s_k s = Placeholder →
         head_residual_size c' layer_idx head_idx = shape_m2 (b_rows key_states))) ∧
     (residual_length self
      * head_count_merges quantize dequantize self head_idx calls c
      ≤ head_residual_size c layer_idx head_idx + presented layer_idx calls)%Z).
Proof.
  split.
  - intros layer_idx c nb calls Hh Hb Hsl Hl Hall.
    by apply (layer_residual_bound_and_merge_rate quantize dequantize self
                layer_idx c nb calls).
  - intros layer_idx head_idx c table calls Hph Htab Hlt Hsl Hstate Hall.
    split; [|by eapply head_merge_rate].
    intros key_states value_states s Hfits Hready He c'. subst c'.
    pose proof (fits_length _ _ _ Hfits) as Hlen.
    destruct (fits_lookup _ _ _ head_idx Hfits) as [nb Hnb]; [lia|].
    rewrite Hlen in Hready.
    pose proof (update_head_later key_states value_states layer_idx head_idx c
                  table nb s Hph Htab Hfits Hnb Hready He) as He'.
    rewrite (head_residual_size_entry _ _ _ _ He').
    replace (shape_m2 (b_rows key_states))
      with (shape_m2 (slice head_idx key_states))
      by (unfold shape_m2; by rewrite length_fmap).
    apply later_append_residual.
Qed.

(** X25: a later update of a layer kept in per-head mode, the head table
    being in head order, each head having its entry.  It leaves for each
    head what a later update of a layer leaves, computed on the head's
    slices with the head's bit widths; and it returns the heads'
    histories [dequantize(quantized) ++ residual ++ new], stacked side by
    side, or raises [RuntimeError] when they do not stack: there is no
    head, or the histories do not have one length. *)
Theorem per_head_later_update_spec b b' layer_idx c table (ss : nat → @stored pos blob) :
  per_head_quant self = true →
  per_head_config self !! layer_idx = Some table →
  fits table b b' →
  layer_idx < length (key_cache c) →
  (∀ h, h < b_heads b → head_entry c layer_idx h (ss h)) →
  (update quantize dequantize self b b' layer_idx c).2
  = match stack ((λ it : nat * bits,
                    dequantize (s_qk (ss it.1)) ++ res_rows (s_k (ss it.1))
                      ++ slice it.1 b) <$> table) with
    | Some k =>
        match stack ((λ it : nat * bits,
                        dequantize (s_qv (ss it.1)) ++ res_rows (s_v (ss it.1))
                          ++ slice it.1 b') <$> table) with
        | Some v => inr (k, v)
        | None => inl RuntimeError
        end
    | None => inl RuntimeError
    end ∧
  ∀ h nb, table !! h = Some (h, nb) →
    head_entry (update quantize dequantize self b b' layer_idx c).1 layer_idx h
      (later_append quantize dequantize self (ss h) (slice h b) (slice h b')
         (cfg_nbits_key nb) (cfg_nbits_value nb)).1.
Proof.
  intros Hph Htab Hfits Hlt Hss.
  destruct (update_later_heads quantize dequantize self b b' layer_idx c table ss
              Hph Htab Hfits Hlt Hss) as (c' & Heq & Hentries).
  rewrite Heq. by split.
Qed.

End Every_entry.

(** C3, where the code departs from it: [update] walks the head table in
    dict order but indexes the stored lists and the list of histories by
    the head's key.  With a table that lists head 1 before head 0, the
    first update returns the heads in the other order than the block has
    them; after the second update the entry read for head 1 holds the
    quantized first position of head 0 with the second position of head 1
    as residual, and the second update returns these joined; and the
    fifth update, where the merge is due, raises [IndexError]. *)
Theorem head_table_out_of_order :
  let calls := two_head_steps Z.of_nat 5 in
  let final := run round_quantize round_dequantize swapped_heads_config
                 calls empty_cache in
  c_keys <$> calls !! 0 = Some (Block 2 [[1; 101]]%Z) ∧
  final.2 !! 0 = Some (inr ([[101; 1]]%Z, [[101; 1]]%Z)) ∧
  head_entry
    (run round_quantize round_dequantize swapped_heads_config
       (two_head_steps Z.of_nat 2) empty_cache).1 0 1
    (Stored (round_quantize [[1%Z]] 0 4) (round_quantize [[1%Z]] 0 4)
            (Arr [[102%Z]]) (Arr [[102%Z]])) ∧
  final.2 !! 1
  = Some (inr (round_dequantize (round_quantize [[1; 101]]%Z 0 4) ++ [[102; 2]]%Z,
               round_dequantize (round_quantize [[1; 101]]%Z 0 4) ++ [[102; 2]]%Z)) ∧
  final.2 !! 4 = Some (inl IndexError).
Proof. cbn zeta. split_and!; first [reflexivity|repeat split]. Qed.

Lemma merge_timing_witness :
  let c4 := (run round_quantize round_dequantize (scenario_config false)
               (single_steps Z.of_nat 4) empty_cache).1 in
  let h4 := (run round_quantize round_dequantize two_heads_config
               (two_head_steps Z.of_nat 4) empty_cache).1 in
  (∃ c', update round_quantize round_dequantize (scenario_config false)
           (Block 1 [[5%Z]]) (Block 1 [[5%Z]]) 0 c4
         = (c', inr ([[0]; [2]; [3]; [4]; [5]]%Z, [[0]; [2]; [3]; [4]; [5]]%Z)) ∧
         layer_entry c' 0
           (Stored [[0]; [0]; [0]; [1]; [1]]%Z [[0]; [0]; [0]; [1]; [1]]%Z
                   Placeholder Placeholder)) ∧
  head_entry
    (update round_quantize round_dequantize two_heads_config
       (Block 2 [[5; 105]]%Z) (Block 2 [[5; 105]]%Z) 0 h4).1 0 1
    (Stored [[25]; [25]; [25]; [26]; [26]]%Z [[25]; [25]; [25]; [26]; [26]]%Z
            Placeholder Placeholder).
Proof.
  split.
  - refine (proj2
      (proj1 (merge_timing round_quantize round_dequantize (scenario_config false)
                Z.of_nat)
         (Block 1 [[5%Z]]) (Block 1 [[5%Z]]) 0
         (run round_quantize round_dequantize (scenario_config false)
            (single_steps Z.of_nat 4) empty_cache).1
         (Bits 4 4)
         (Stored [[0]]%Z [[0]]%Z (Arr [[2]; [3]; [4]]%Z) (Arr [[2]; [3]; [4]]%Z))
         eq_refl eq_refl _)).
    repeat split.
  - refine (proj2
      (proj1 (proj2 (merge_timing round_quantize round_dequantize two_heads_config
                       Z.of_nat))
         (Block 2 [[5; 105]]%Z) (Block 2 [[5; 105]]%Z) 0 1
         (run round_quantize round_dequantize two_heads_config
            (two_head_steps Z.of_nat 4) empty_cache).1
         [(0, Bits 4 4); (1, Bits 2 2)] (Bits 2 2)
         (Stored [[25]]%Z [[25]]%Z
                 (Arr [[102]; [103]; [104]]%Z) (Arr [[102]; [103]; [104]]%Z))
         [[105%Z]] [[105%Z]]
         eq_refl eq_refl _ eq_refl _ _ eq_refl eq_refl)).
    + repeat split; repeat constructor.
    + intros [|[|h]] Hh; [eexists; repeat split..|simpl in Hh; lia].
    + repeat split.
Defined.

Lemma residual_bound_and_merge_rate_witness :
  let c2 := (run round_quantize round_dequantize (scenario_config false)
               (single_steps Z.of_nat 2) empty_cache).1 in
  let h2 := (run round_quantize round_dequantize two_heads_config
               (two_head_steps Z.of_nat 2) empty_cache).1 in
  ((residual_size
      (update round_quantize round_dequantize (scenario_config false)
         (Block 1 [[3%Z]]) (Block 1 [[3%Z]]) 0 c2).1 0
    ≤ residual_length (scenario_config false))%Z ∧
   (residual_length (scenario_config false)
    * count_merges round_quantize round_dequantize (scenario_config false)
        (single_steps Z.of_nat 10) empty_cache
    ≤ residual_size (empty_cache (pos:=Z) (blob:=list (list Z))) 0
      + presented 0 (single_steps Z.of_nat 10))%Z) ∧
  ((head_residual_size
      (update round_quantize round_dequantize two_heads_config
         (Block 2 [[3; 103]]%Z) (Block 2 [[3; 103]]%Z) 0 h2).1 0 1
    ≤ residual_length two_heads_config)%Z ∧
   (residual_length two_heads_config
    * head_count_merges round_quantize round_dequantize two_heads_config 1
        (two_head_steps Z.of_nat 10) empty_cache
    ≤ head_residual_size (empty_cache (pos:=Z) (blob:=list (list Z))) 0 1
      + presented 0 (two_head_steps Z.of_nat 10))%Z).
Proof.
  cbn zeta. split.
  - split.
    + refine (proj1 (proj2 (proj1
        (proj1 (residual_bound_and_merge_rate round_quantize round_dequantize
                  (scenario_config false))
           0
           (run round_quantize round_dequantize (scenario_config false)
              (single_steps Z.of_nat 2) empty_cache).1
           (Bits 4 4) [] eq_refl eq_refl _ _ _)
        (Block 1 [[3%Z]]) (Block 1 [[3%Z]])
        (Stored [[0]]%Z [[0]]%Z (Arr [[2%Z]]) (Arr [[2%Z]])) _)) _ _).
      * repeat split.
      * right. eexists. repeat split.
      * constructor.
      * repeat split.
      * reflexivity.
      * simpl. lia.
    + refine (proj2
        (proj1 (residual_bound_and_merge_rate round_quantize round_dequantize
                  (scenario_config false))
           0 empty_cache (Bits 4 4) (single_steps Z.of_nat 10)
           eq_refl eq_refl _ _ _)).
      * repeat split.
      * left. reflexivity.
      * repeat constructor; discriminate.
  - split.
    + refine (proj1 (proj2 (proj1
        (proj2 (residual_bound_and_merge_rate round_quantize round_dequantize
                  two_heads_config)
           0 1
           (run round_quantize round_dequantize two_heads_config
              (two_head_steps Z.of_nat 2) empty_cache).1
           [(0, Bits 4 4); (1, Bits 2 2)] [] eq_refl eq_refl _ _ _ _)
        (Block 2 [[3; 103]]%Z) (Block 2 [[3; 103]]%Z)
        (Stored [[25]]%Z [[25]]%Z (Arr [[102%Z]]) (Arr [[102%Z]])) _ _ _)) _ _).
      * simpl. lia.
      * repeat split.
      * right. intros [|[|h]] Hh; [eexists; repeat split..|simpl in Hh; lia].
      * constructor.
      * repeat split; repeat constructor.
      * intros [|[|h]] Hh; [eexists; repeat split..|simpl in Hh; lia].
      * repeat split.
      * reflexivity.
      * simpl. lia.
    + refine (proj2
        (proj2 (residual_bound_and_merge_rate round_quantize round_dequantize
                  two_heads_config)
           0 1 empty_cache [(0, Bits 4 4); (1, Bits 2 2)]
           (two_head_steps Z.of_nat 10) eq_refl eq_refl _ _ _ _)).
      * simpl. lia.
      * repeat split.
      * left. reflexivity.
      * repeat constructor; discriminate.
Defined.

Lemma per_head_later_update_spec_witness :
  (update round_quantize round_dequantize two_heads_config
     (Block 2 [[5; 105]]%Z) (Block 2 [[5; 105]]%Z) 0
     (run round_quantize round_dequantize two_heads_config
        (two_head_steps Z.of_nat 4) empty_cache).1).2
  = inr ([[0; 100]; [2; 102]; [3; 103]; [4; 104]; [5; 105]]%Z,
         [[0; 100]; [2; 102]; [3; 103]; [4; 104]; [5; 105]]%Z).
Proof.
  refine (proj1
    (per_head_later_update_spec round_quantize round_dequantize two_heads_config
       (Block 2 [[5; 105]]%Z) (Block 2 [[5; 105]]%Z) 0
       (run round_quantize round_dequantize two_heads_config
          (two_head_steps Z.of_nat 4) empty_cache).1
       [(0, Bits 4 4); (1, Bits 2 2)]
       (λ h, match h with
             | 0 => Stored [[0]]%Z [[0]]%Z
                      (Arr [[2]; [3]; [4]]%Z) (Arr [[2]; [3]; [4]]%Z)
             | _ => Stored [[25]]%Z [[25]]%Z
                      (Arr [[102]; [103]; [104]]%Z) (Arr [[102]; [103]; [104]]%Z)
             end)
       eq_refl eq_refl _ _ _)).
  - repeat split; repeat constructor.
  - vm_compute. lia.
  - intros [|[|h]] Hh; [repeat split..|simpl in Hh; lia].
Defined.
